(** * muspinsim: operator algebra, density operators and the experiment driver

    A shallow embedding of [muspinsim/spinop.py] and
    [muspinsim/experiment.py].

    Number model.  The program computes with numpy [complex128] arrays.
    Here every array entry is an exact complex number whose real and
    imaginary parts are canonical rationals ([Qc]): the arithmetic
    identities of the field hold without rounding, and every comparison
    the program makes with [==] is decidable and computes.  Rounding of
    binary64 arithmetic is outside this model, and so are the values
    [inf] and [nan], except for the temperature, which may be infinite.
    A division by zero, which in numpy gives [inf] or [nan] and no
    exception, is excluded by a hypothesis wherever the code can reach
    one.  Where the rounding decides what the program's own [==] sees,
    the module [F64] holds the same functions on binary64 numbers.  The
    library functions that leave the rationals ([sqrt], [exp],
    [eigh], [cos], [sin]) are parameters of the sections that use them,
    and so are the classes of the modules that are not part of the two
    files ([Hamiltonian], [MuonSpinSystem]). *)

From Stdlib Require Import String Ascii Bool List ZArith QArith Qcanon Qround Lia Lqa.
From Stdlib Require Floats.
Import ListNotations.

Set Implicit Arguments.

(** ** Results of fallible calls *)

(** One constructor per [raise] site of the two modules, plus the numpy
    failures the embedded code can run into. *)
Inductive error : Type :=
| NotSquare               (* ValueError: Matrix passed to Operator must be square *)
| DimMismatch             (* ValueError: Dimensions are not compatible with matrix *)
| DifferentDimensions     (* ArithmeticError: operators with different dimensions *)
| UnsupportedOperand      (* TypeError: Unsupported operation for Operator *)
| KronNotOperator         (* ValueError: Kronecker product with a non Operator *)
| BadLengths              (* ValueError: arrays must have same length > 0 *)
| InvalidSpin (I : Qc)    (* ValueError: {0} is not a valid spin value *)
| InvalidSpinAxis (a : string) (* ValueError: {0} is not a valid spin axis *)
| AxisKeyError (a : string)    (* KeyError from the axis dispatch table *)
| ZeroTrace               (* ValueError: DensityOperator with zero trace *)
| NonHermitian            (* ValueError: DensityOperator must be hermitian! *)
| InvalidVector           (* ValueError: {0} is not a valid 3D vector *)
| InvalidGamma            (* ValueError: {0} is not a valid gamma value *)
| NotSpinOperator         (* TypeError: Argument must be a SpinOperator *)
| IncompatibleDimensions  (* ValueError: incompatible dimensions *)
| InvalidMuonAxis         (* ValueError: muon_axis must be a vector or x, y or z *)
| PyIndexError            (* IndexError: tuple or list index out of range *)
| ReshapeTypeError        (* TypeError: reshape with a float extent *)
| ReshapeSizeError        (* ValueError: cannot reshape array into that shape *)
| InPlaceCastError        (* UFuncTypeError, a TypeError: [/=] on an int64 array *)
| InhomogeneousArray      (* ValueError: np.array of rows of unequal length *)
| AxisError               (* numpy AxisError / duplicate axis in np.sum *)
| AverageShapeError       (* numpy: data and weights of np.average do not fit *)
| ZeroWeights.            (* ZeroDivisionError: weights sum to zero *)

(** The Python exception class each failure is an instance of. *)
Inductive pyexc : Type :=
| ValueError | TypeError | ArithmeticError | KeyError | IndexError
| ZeroDivisionError.

Definition exc_class (e : error) : pyexc :=
  match e with
  | DifferentDimensions => ArithmeticError
  | UnsupportedOperand | NotSpinOperator | ReshapeTypeError
  | InPlaceCastError => TypeError
  | AxisKeyError _ => KeyError
  | PyIndexError => IndexError
  | ZeroWeights => ZeroDivisionError
  | _ => ValueError
  end.

Inductive result (A : Type) : Type :=
| Ok (a : A)
| Raise (e : error).
Arguments Ok {A} a.
Arguments Raise {A} e.

Definition bind {A B} (r : result A) (k : A -> result B) : result B :=
  match r with
  | Ok a => k a
  | Raise e => Raise e
  end.

Notation "x <- r ;; k" := (bind r (fun x => k))
  (at level 61, r at next level, right associativity).
Notation "'unless' b 'raise' e ;; k" := (if b then Raise e else k)
  (at level 61, b at next level, e at next level, right associativity).

(** ** Complex scalars *)

Module Cplx.

Open Scope Qc_scope.

Record C : Type := mkC { re : Qc; im : Qc }.

Definition of_Qc (x : Qc) : C := mkC x 0.
Definition of_Z (z : Z) : C := of_Qc (Q2Qc (inject_Z z)).
Definition zero : C := of_Qc 0.
Definition one : C := of_Qc 1.
Definition imag_unit : C := mkC 0 1.

Definition add (a b : C) : C := mkC (re a + re b) (im a + im b).
Definition sub (a b : C) : C := mkC (re a - re b) (im a - im b).
Definition opp (a : C) : C := mkC (- re a) (- im a).
Definition mul (a b : C) : C :=
  mkC (re a * re b - im a * im b) (re a * im b + im a * re b).
Definition conj (a : C) : C := mkC (re a) (- im a).
Definition norm2 (a : C) : Qc := re a * re a + im a * im a.
Definition div (a b : C) : C :=
  mkC ((re a * re b + im a * im b) / norm2 b)
      ((im a * re b - re a * im b) / norm2 b).

Definition eqb (a b : C) : bool :=
  Qc_eq_bool (re a) (re b) && Qc_eq_bool (im a) (im b).

Close Scope Qc_scope.

End Cplx.

Abbreviation C := Cplx.C.

(** ** Arrays

    A 2-D numpy array is the list of its rows; a 1-D array is a list. *)

Abbreviation vector := (list C).
Abbreviation matrix := (list (list C)).

Fixpoint map2 {A B D} (f : A -> B -> D) (l : list A) (m : list B) : list D :=
  match l, m with
  | a :: l', b :: m' => f a b :: map2 f l' m'
  | _, _ => []
  end.

Module Np.

(** [np.sum] over every entry. *)
Definition vsum (v : vector) : C := fold_right Cplx.add Cplx.zero v.
Definition sum (M : matrix) : C := vsum (map vsum M).

Definition nrows (M : matrix) : nat := length M.
Definition ncols (M : matrix) : nat := length (hd [] M).

(** Every row is as long as the first one. *)
Definition rectangular (M : matrix) : bool :=
  forallb (fun r => Nat.eqb (length r) (ncols M)) M.

Definition is_square (M : matrix) : bool :=
  forallb (fun r => Nat.eqb (length r) (nrows M)) M.

(** [np.array(rows) + .0j] followed by the reads of [shape[0]] and
    [shape[1]]: an empty list is a 1-D array and has no [shape[1]]. *)
Definition array2 (rows : list (list C)) : result matrix :=
  match rows with
  | [] => Raise PyIndexError
  | _ => if rectangular rows then Ok rows else Raise InhomogeneousArray
  end.

(** Elementwise operations on arrays of one shape. *)
Definition add (A B : matrix) : matrix := map2 (map2 Cplx.add) A B.
Definition sub (A B : matrix) : matrix := map2 (map2 Cplx.sub) A B.
Definition mul (A B : matrix) : matrix := map2 (map2 Cplx.mul) A B.
Definition scale (A : matrix) (x : C) : matrix := map (map (fun a => Cplx.mul a x)) A.
Definition lscale (x : C) (A : matrix) : matrix := map (map (Cplx.mul x)) A.
Definition divide (A : matrix) (x : C) : matrix := map (map (fun a => Cplx.div a x)) A.
Definition conj (A : matrix) : matrix := map (map Cplx.conj) A.

(** [A.T]: column [j] of [A] becomes row [j]. *)
Definition column (j : nat) (A : matrix) : vector :=
  map (fun r => nth j r Cplx.zero) A.
Definition transpose (A : matrix) : matrix :=
  map (fun j => column j A) (seq 0 (ncols A)).

(** [np.all(A == B)]. *)
Fixpoint veqb (u v : vector) : bool :=
  match u, v with
  | [], [] => true
  | a :: u', b :: v' => Cplx.eqb a b && veqb u' v'
  | _, _ => false
  end.
Fixpoint all_eq (A B : matrix) : bool :=
  match A, B with
  | [], [] => true
  | r :: A', s :: B' => veqb r s && all_eq A' B'
  | _, _ => false
  end.

(** [np.trace]: the sum of the diagonal. *)
Fixpoint diagonal_from (i : nat) (A : matrix) : vector :=
  match A with
  | [] => []
  | r :: A' => nth i r Cplx.zero :: diagonal_from (S i) A'
  end.
(** [np.diag(A)] of a 2-D array: its main diagonal. *)
Definition diagonal (A : matrix) : vector := diagonal_from 0 A.
Definition trace (A : matrix) : C := vsum (diagonal A).

(** [np.eye(n)], and [np.diag(v, k)] of a 1-D array for [k >= 0]. *)
Definition eye (n : nat) : matrix :=
  map (fun i => map (fun j => if Nat.eqb i j then Cplx.one else Cplx.zero) (seq 0 n))
      (seq 0 n).
Definition diag_k (v : vector) (k : nat) : matrix :=
  let n := (length v + k)%nat in
  map (fun i => map (fun j => if Nat.eqb j (i + k) then nth i v Cplx.zero else Cplx.zero)
                    (seq 0 n))
      (seq 0 n).

(** [np.kron] of two 2-D arrays: block [(i, j)] is [A[i][j] * B]. *)
Definition kron_row (ra rb : vector) : vector :=
  flat_map (fun a => map (Cplx.mul a) rb) ra.
Definition kron (A B : matrix) : matrix :=
  flat_map (fun ra => map (kron_row ra) B) A.

(** [np.dot] of two 2-D arrays. *)
Definition vdot (u v : vector) : C := vsum (map2 Cplx.mul u v).
Definition dot (A B : matrix) : matrix :=
  map (fun ra => map (vdot ra) (transpose B)) A.

(** [np.prod] of a tuple of integers. *)
Definition prod (d : list Z) : Z := fold_right Z.mul 1%Z d.

End Np.

(** ** class Operator *)

Inductive pyclass : Type := ClsOperator | ClsSpinOperator | ClsDensityOperator.

Record Operator : Type := mkOperator {
  op_class : pyclass;          (* [self.__class__] *)
  _dim : list Z;               (* [self._dim] *)
  _matrix : matrix             (* [self._matrix] *)
}.

(** What a caller can pass where an operator or a number is expected:
    an Operator, a Python [int], [float] or [complex] (not a numpy scalar,
    nor [inf] or [nan]), or an object that is neither. *)
Inductive pyobj : Type :=
| PyOp (x : Operator)
| PyNum (x : C)
| PyOther.

Definition dims_eqb (d e : list Z) : bool :=
  if list_eq_dec Z.eq_dec d e then true else false.

(** [isinstance(x, SpinOperator)]; every object of the three classes is an
    instance of [Operator]. *)
Definition is_SpinOperator (x : Operator) : bool :=
  match op_class x with ClsSpinOperator => true | _ => false end.

(** [isinstance(x, SpinOperator)] for any argument. *)
Definition isinstance_SpinOperator (x : pyobj) : bool :=
  match x with
  | PyOp o => is_SpinOperator o
  | _ => false
  end.

(** The invariant of an Operator made by a constructor: a square matrix
    whose side is the product of the dimension tuple. *)
Definition well_formed (o : Operator) : bool :=
  Np.is_square (_matrix o) && Z.eqb (Np.prod (_dim o)) (Z.of_nat (Np.nrows (_matrix o))).

(** [Operator.__init__], run for class [c] (the subclasses inherit it). *)
Definition Operator_init (c : pyclass) (rows : list (list C)) (dim : option (list Z))
  : result Operator :=
  M <- Np.array2 rows ;;
  unless negb (Nat.eqb (Np.nrows M) (Np.ncols M)) raise NotSquare ;;
  match dim with
  | None => Ok (mkOperator c [Z.of_nat (Np.nrows M)] M)
  | Some d =>
      unless negb (Z.eqb (Np.prod d) (Z.of_nat (Np.nrows M))) raise DimMismatch ;;
      Ok (mkOperator c d M)
  end.

Definition dimension (o : Operator) : list Z := _dim o.
Definition is_hermitian (o : Operator) : bool :=
  Np.all_eq (_matrix o) (Np.transpose (Np.conj (_matrix o))).

(** [clone]: same class, copied tuple and matrix. *)
Definition clone (o : Operator) : Operator :=
  mkOperator (op_class o) (_dim o) (_matrix o).

Definition with_matrix (o : Operator) (M : matrix) : Operator :=
  mkOperator (op_class o) (_dim o) M.

Definition Operator_add (self : Operator) (x : pyobj) : result Operator :=
  match x with
  | PyOp x =>
      unless negb (dims_eqb (dimension self) (dimension x)) raise DifferentDimensions ;;
      let ans := clone self in
      Ok (with_matrix ans (Np.add (_matrix ans) (_matrix x)))
  | PyNum x =>
      let ans := clone self in
      Ok (with_matrix ans
            (Np.add (_matrix ans) (Np.scale (Np.eye (Np.nrows (_matrix ans))) x)))
  | PyOther => Raise UnsupportedOperand
  end.

Definition Operator_sub (self : Operator) (x : pyobj) : result Operator :=
  match x with
  | PyOp x =>
      unless negb (dims_eqb (dimension self) (dimension x)) raise DifferentDimensions ;;
      let ans := clone self in
      Ok (with_matrix ans (Np.sub (_matrix ans) (_matrix x)))
  | PyNum x => Operator_add self (PyNum (Cplx.opp x))
  | PyOther => Raise UnsupportedOperand
  end.

Definition Operator_mul (self : Operator) (x : pyobj) : result Operator :=
  match x with
  | PyOp x =>
      unless negb (dims_eqb (dimension self) (dimension x)) raise DifferentDimensions ;;
      let ans := clone self in
      Ok (with_matrix ans (Np.dot (_matrix ans) (_matrix x)))
  | PyNum x =>
      let ans := clone self in
      Ok (with_matrix ans (Np.scale (_matrix ans) x))
  | PyOther => Raise UnsupportedOperand
  end.

(** [x * self] for an [x] whose own [__mul__] declines. *)
Definition Operator_rmul (self : Operator) (x : pyobj) : result Operator :=
  match x with
  | PyNum _ => Operator_mul self x
  | PyOp x => Operator_mul x (PyOp self)
  | PyOther => Raise UnsupportedOperand
  end.

(** [__eq__]: [False] for a non Operator, else dimension tuples and then
    every matrix entry. *)
Definition Operator_eq (self : Operator) (x : pyobj) : bool :=
  match x with
  | PyOp x =>
      if negb (dims_eqb (dimension self) (dimension x)) then false
      else Np.all_eq (_matrix self) (_matrix x)
  | _ => false
  end.

Definition Operator_kron (self : Operator) (x : pyobj) : result Operator :=
  match x with
  | PyOp x =>
      Ok (mkOperator (op_class self) (_dim self ++ _dim x)
                     (Np.kron (_matrix self) (_matrix x)))
  | _ => Raise KronNotOperator
  end.

(** ** Python numbers used by the factories *)

Module Py.

Open Scope Qc_scope.

Definition half : Qc := Q2Qc (1 # 2).
Definition two : Qc := Q2Qc 2.

(** The float of an integer. *)
Definition of_Z (z : Z) : Qc := Q2Qc (inject_Z z).
Definition of_nat (n : nat) : Qc := of_Z (Z.of_nat n).

(** [int(x)]: truncation towards zero. *)
Definition int (x : Qc) : Z := Z.quot (Qnum x) (Zpos (Qden x)).

Definition floor (x : Qc) : Z := Qfloor x.

(** [x % y] on floats: the remainder has the sign of [y]. *)
Definition mod_ (x y : Qc) : Qc := x - y * of_Z (floor (x / y)).

Definition ltb (x y : Qc) : bool :=
  match (x ?= y) with Lt => true | _ => false end.

Definition eqb (x y : Qc) : bool := Qc_eq_bool x y.

(** Truth value of a number. *)
Definition truthy (x : Qc) : bool := negb (eqb x 0).

(** [a in b] for two strings. *)
Definition contains (b a : string) : bool :=
  match String.index 0 a b with Some _ => true | None => false end.

Close Scope Qc_scope.

End Py.

(** ** Single-spin matrices *)

(** Arrays of reals ([mvals], and what is computed from it). *)
Abbreviation rvector := (list Qc).

Definition to_complex (v : rvector) : vector := map Cplx.of_Qc v.

Module Real.

Open Scope Qc_scope.

(** [np.linspace(start, stop, num)]. *)
Definition linspace (start stop : Qc) (num : Z) : rvector :=
  match Z.to_nat num with
  | O => []
  | S O => [start]
  | S n =>
      let step := (stop - start) / Py.of_nat n in
      map (fun i => Py.of_nat i * step + start) (seq 0 n) ++ [stop]
  end.

(** [np.cumsum]. *)
Fixpoint cumsum_from (acc : Qc) (v : rvector) : rvector :=
  match v with
  | [] => []
  | x :: v' => (acc + x) :: cumsum_from (acc + x) v'
  end.
Definition cumsum (v : rvector) : rvector := cumsum_from 0 v.

(** [v[:-1]]. *)
Definition drop_last (v : rvector) : rvector := removelast v.

Close Scope Qc_scope.

End Real.

Section SpinMatrices.

(** [x ** 0.5] on a real array entry. *)
Variable sqrt : Qc -> Qc.

Definition _Sp (mvals : rvector) : matrix :=
  Np.diag_k
    (to_complex
       (map (fun x => Qcmult Py.half (sqrt x))
            (Real.drop_last (Real.cumsum (map (Qcmult Py.two) mvals)))))
    1.

Definition _Sm (mvals : rvector) : matrix := Np.transpose (_Sp mvals).

Definition _Sx (mvals : rvector) : matrix :=
  let o := _Sp mvals in Np.add o (Np.transpose o).

Definition _Sy (mvals : rvector) : matrix :=
  let o := _Sp mvals in Np.lscale Cplx.imag_unit (Np.sub (Np.transpose o) o).

Definition _Sz (mvals : rvector) : matrix := Np.diag_k (to_complex mvals) 0.

Definition _S0 (mvals : rvector) : matrix := Np.eye (length mvals).

(** ** class SpinOperator *)

(** The dispatch table of [from_axes]; a missing key raises [KeyError]. *)
Definition axis_table (axis : string) : option (rvector -> matrix) :=
  if String.eqb axis "x" then Some _Sx
  else if String.eqb axis "y" then Some _Sy
  else if String.eqb axis "z" then Some _Sz
  else if String.eqb axis "+" then Some _Sp
  else if String.eqb axis "-" then Some _Sm
  else if String.eqb axis "0" then Some _S0
  else None.

(** [I % 0.5 or I < 0.5]. *)
Definition invalid_spin (I : Qc) : bool :=
  Py.truthy (Py.mod_ I Py.half) || Py.ltb I Py.half.

Definition spin_dim (I : Qc) : Z := Py.int (Qcplus (Qcmult Py.two I) (Q2Qc 1)).

Definition spin_mvals (I : Qc) : rvector := Real.linspace I (Qcopp I) (spin_dim I).

(** One turn of the loop over [zip(Is, axes)]. *)
Definition from_axes_factor (I : Qc) (axis : string) : result matrix :=
  unless invalid_spin I raise InvalidSpin I ;;
  unless negb (Py.contains "xyz+-0" axis) raise InvalidSpinAxis axis ;;
  let mvals := spin_mvals I in
  match axis_table axis with
  | Some f => Ok (f mvals)
  | None => Raise (AxisKeyError axis)
  end.

(** The loop: stops at the first pair that raises; [zip] stops with the
    shorter list. *)
Fixpoint from_axes_loop (Is : list Qc) (axes : list string) : result (list matrix) :=
  match Is, axes with
  | I_ :: Is', axis :: axes' =>
      o <- from_axes_factor I_ axis ;;
      rest <- from_axes_loop Is' axes' ;;
      Ok (o :: rest)
  | _, _ => Ok []
  end.

(** [M = matrices[0]; for m in matrices[1:]: M = np.kron(M, m)]. *)
Definition kron_all (matrices : list matrix) : matrix :=
  match matrices with
  | [] => []
  | M :: rest => fold_left Np.kron rest M
  end.

(** [SpinOperator.from_axes(Is, axes)] with [Is] a list of spins and [axes]
    a sequence of labels (a Python string is the sequence of its
    characters). *)
Definition from_axes (Is : list Qc) (axes : list string) : result Operator :=
  unless negb (Nat.eqb (length Is) (length axes)) || Nat.eqb (length Is) 0
    raise BadLengths ;;
  let dim := map spin_dim Is in
  matrices <- from_axes_loop Is axes ;;
  Operator_init ClsSpinOperator (kron_all matrices) (Some dim).

(** A number passed for [Is] is wrapped in a list. *)
Definition from_axes1 (I : Qc) (axis : string) : result Operator :=
  from_axes [I] [axis].

End SpinMatrices.

(** ** Tensors: [reshape] and [np.sum] over a tuple of axes

    An n-D array is its shape and the list of its entries in C (row-major)
    order, which is the order [reshape] preserves. *)

Module Tensor.

Definition size (shape : list nat) : nat := fold_right Nat.mul 1%nat shape.

Definition flatten (M : matrix) : vector := concat M.

(** The multi-index of flat position [p]. *)
Fixpoint unravel (shape : list nat) (p : nat) : list nat :=
  match shape with
  | [] => []
  | _ :: rest => (p / size rest)%nat :: unravel rest (p mod size rest)%nat
  end.

(** The flat position of a multi-index. *)
Fixpoint ravel (shape : list nat) (idx : list nat) : nat :=
  match shape, idx with
  | _ :: rest, i :: idx' => (i * size rest + ravel rest idx')%nat
  | _, _ => 0%nat
  end.

(** The entries of [l] whose position is not in [axes]. *)
Fixpoint drop_axes_from {A} (k : nat) (axes : list nat) (l : list A) : list A :=
  match l with
  | [] => []
  | a :: l' =>
      if existsb (Nat.eqb k) axes then drop_axes_from (S k) axes l'
      else a :: drop_axes_from (S k) axes l'
  end.
Definition drop_axes {A} (axes : list nat) (l : list A) : list A :=
  drop_axes_from 0 axes l.

(** [np.sum(t, axis=axes)] for valid, distinct [axes]: entry [q] of the
    result adds the entries of [t] whose multi-index agrees with that of
    [q] on the axes that are kept. *)
Definition sum_axes (shape : list nat) (axes : list nat) (t : vector) : vector :=
  let kept := drop_axes axes shape in
  map (fun q =>
         Np.vsum
           (map (fun p => nth p t Cplx.zero)
                (filter (fun p => Nat.eqb (ravel kept (drop_axes axes (unravel shape p))) q)
                        (seq 0 (size shape)))))
      (seq 0 (size kept)).

(** [t.reshape((rows, -1))] of [rows * cols] entries. *)
Fixpoint chunks (rows cols : nat) (t : vector) : matrix :=
  match rows with
  | O => []
  | S r => firstn cols t :: chunks r cols (skipn cols t)
  end.

(** An axis number of [np.sum]: negative numbers count from the end; out
    of range is an error. *)
Definition normalize_axis (ndim : nat) (a : Z) : option nat :=
  let n := Z.of_nat ndim in
  if (Z.leb 0 a && Z.ltb a n)%bool then Some (Z.to_nat a)
  else if (Z.leb (- n) a && Z.ltb a 0)%bool then Some (Z.to_nat (a + n))
  else None.

Fixpoint normalize_axes (ndim : nat) (axes : list Z) : option (list nat) :=
  match axes with
  | [] => Some []
  | a :: rest =>
      match normalize_axis ndim a, normalize_axes ndim rest with
      | Some k, Some ks => Some (k :: ks)
      | _, _ => None
      end
  end.

Fixpoint distinct (l : list nat) : bool :=
  match l with
  | [] => true
  | a :: l' => negb (existsb (Nat.eqb a) l') && distinct l'
  end.

End Tensor.

(** ** class DensityOperator *)

Definition trace (o : Operator) : C := Np.trace (_matrix o).

(** [self._matrix /= self.trace] *)
Definition normalize (o : Operator) : Operator :=
  with_matrix o (Np.divide (_matrix o) (trace o)).

(** [DensityOperator.__init__] *)
Definition DensityOperator_init (rows : list (list C)) (dim : option (list Z))
  : result Operator :=
  self <- Operator_init ClsDensityOperator rows dim ;;
  let tr := Np.trace (_matrix self) in
  unless Cplx.eqb tr Cplx.zero raise ZeroTrace ;;
  let self := normalize self in
  unless negb (is_hermitian self) raise NonHermitian ;;
  Ok self.

(** [i in tracedim] for an index [i] of [enumerate]. *)
Definition in_tracedim (tracedim : list Z) (i : nat) : bool :=
  existsb (Z.eqb (Z.of_nat i)) tracedim.

Fixpoint remaining_from (i : nat) (tracedim : list Z) (dim : list Z) : list Z :=
  match dim with
  | [] => []
  | d :: dim' =>
      if in_tracedim tracedim i then remaining_from (S i) tracedim dim'
      else d :: remaining_from (S i) tracedim dim'
  end.

(** [tuple(d for i, d in enumerate(self._dim) if not (i in tracedim))] *)
Definition remaining_dim (tracedim : list Z) (dim : list Z) : list Z :=
  remaining_from 0 tracedim dim.

(** [DensityOperator.partial_trace].  The result is made with [__new__],
    so [__init__] (and its normalisation) does not run.  [np.prod] of an
    empty tuple is the float [1.0], which [reshape] refuses. *)
Definition partial_trace (self : Operator) (tracedim : list Z) : result Operator :=
  let n := length (_dim self) in
  let axsum := tracedim ++ map (fun a => (a + Z.of_nat n)%Z) tracedim in
  let shape := map Z.to_nat (_dim self ++ _dim self) in
  let flat := Tensor.flatten (_matrix self) in
  unless negb (Nat.eqb (Tensor.size shape) (length flat)) raise ReshapeSizeError ;;
  match Tensor.normalize_axes (n + n) axsum with
  | None => Raise AxisError
  | Some axes =>
      unless negb (Tensor.distinct axes) raise AxisError ;;
      let m := Tensor.sum_axes shape axes flat in
      let ans_dim := remaining_dim tracedim (_dim self) in
      match ans_dim with
      | [] => Raise ReshapeTypeError
      | _ =>
          let rows := Z.to_nat (Np.prod ans_dim) in
          unless negb (Nat.eqb (length m mod rows) 0) || Nat.eqb rows 0
            raise ReshapeSizeError ;;
          Ok (mkOperator ClsDensityOperator ans_dim
                         (Tensor.chunks rows (length m / rows) m))
      end
  end.

(** [DensityOperator.expectation] *)
Definition expectation (self : Operator) (operator : pyobj) : result C :=
  match operator with
  | PyOp operator =>
      unless negb (is_SpinOperator operator) raise NotSpinOperator ;;
      unless negb (dims_eqb (dimension operator) (dimension self))
        raise IncompatibleDimensions ;;
      Ok (Np.sum (Np.mul (_matrix operator) (Np.transpose (_matrix self))))
  | _ => Raise NotSpinOperator
  end.

(** [DensityOperator.from_vectors] *)

Section FromVectors.

Variable sqrt : Qc -> Qc.
(** [np.linalg.eigh]: eigenvalues (real) and the matrix whose columns are
    the eigenvectors. *)
Variable eigh : matrix -> rvector * matrix.

(** [np.argmax]: the first position of the largest entry. *)
Fixpoint argmax_from (best : Qc) (besti i : nat) (v : rvector) : nat :=
  match v with
  | [] => besti
  | x :: v' =>
      if Py.ltb best x then argmax_from x i (S i) v'
      else argmax_from best besti (S i) v'
  end.
Definition argmax (v : rvector) : nat :=
  match v with
  | [] => 0%nat
  | x :: v' => argmax_from x 0 1 v'
  end.

(** [psi[:, None] * psi[None, :].conj()] *)
Definition outer_conj (psi : vector) : matrix :=
  map (fun a => map (fun b => Cplx.mul a (Cplx.conj b)) psi) psi.

(** [(1-gamma)*np.ones(m.shape) + gamma*np.eye(m.shape[0])] *)
Definition decoherence_mask (gamma : Qc) (n : nat) : matrix :=
  map (fun i => map (fun j =>
         Cplx.of_Qc (Qcplus (Qcmult (Qcminus (Q2Qc 1) gamma) (Q2Qc 1))
                            (Qcmult gamma (if Nat.eqb i j then Q2Qc 1 else Q2Qc 0))))
       (seq 0 n)) (seq 0 n).

(** [sum([S[i]*vec[i] for i in range(3)])]: Python's [sum] starts from 0. *)
Definition combine_axes (S : list matrix) (vec : rvector) : matrix :=
  fold_left
    (fun acc i => Np.add acc (Np.scale (nth i S []) (Cplx.of_Qc (nth i vec (Q2Qc 0)))))
    [1%nat; 2%nat]
    (map (map (Cplx.add Cplx.zero))
         (Np.scale (nth 0 S []) (Cplx.of_Qc (nth 0 vec (Q2Qc 0))))).

Definition from_vectors_factor (I_ : Qc) (vec : rvector) (gamma : Qc) : result matrix :=
  unless invalid_spin I_ raise InvalidSpin I_ ;;
  unless negb (Nat.eqb (length vec) 3) raise InvalidVector ;;
  unless Py.ltb gamma (Q2Qc 0) || Py.ltb (Q2Qc 1) gamma raise InvalidGamma ;;
  let mvals := spin_mvals I_ in
  let S := [_Sx sqrt mvals; _Sy sqrt mvals; _Sz mvals] in
  let o := combine_axes S vec in
  let (evals, evecs) := eigh o in
  let psi := Np.column (argmax evals) evecs in
  let m := outer_conj psi in
  let m := Np.mul m (decoherence_mask gamma (length m)) in
  Ok m.

Fixpoint from_vectors_loop (Is : list Qc) (vectors : list rvector) (gammas : list Qc)
  : result (list matrix) :=
  match Is, vectors, gammas with
  | I_ :: Is', vec :: vectors', gamma :: gammas' =>
      m <- from_vectors_factor I_ vec gamma ;;
      rest <- from_vectors_loop Is' vectors' gammas' ;;
      Ok (m :: rest)
  | _, _, _ => Ok []
  end.

Definition from_vectors (Is : list Qc) (vectors : list rvector) (gammas : list Qc)
  : result Operator :=
  unless negb (Nat.eqb (length Is) (length vectors))
         || negb (Nat.eqb (length Is) (length gammas))
         || Nat.eqb (length Is) 0
    raise BadLengths ;;
  let dim := map spin_dim Is in
  matrices <- from_vectors_loop Is vectors gammas ;;
  DensityOperator_init (kron_all matrices) (Some dim).

(** A single spin, a single 1-D vector and a single gamma are each wrapped
    in a list. *)
Definition from_vectors1 (I_ : Qc) (vec : rvector) (gamma : Qc) : result Operator :=
  from_vectors [I_] [vec] [gamma].

End FromVectors.

(** * experiment.py *)

(** ** Complex comparisons of numpy

    numpy orders complex numbers lexicographically, real part first. *)

Module NpOrder.

Definition ltb (a b : C) : bool :=
  Py.ltb (Cplx.re a) (Cplx.re b)
  || (Py.eqb (Cplx.re a) (Cplx.re b) && Py.ltb (Cplx.im a) (Cplx.im b)).

(** [np.amin] of a non-empty 1-D array. *)
Definition amin (v : vector) : C :=
  match v with
  | [] => Cplx.zero
  | x :: v' => fold_left (fun m y => if ltb y m then y else m) v' x
  end.

End NpOrder.

(** The temperature argument: a float, which may be infinite. *)
Inductive temperature : Type :=
| TFinite (t : Qc)
| TPosInf
| TNegInf.

(** [T > 0] *)
Definition T_positive (T : temperature) : bool :=
  match T with
  | TFinite t => Py.ltb (Q2Qc 0) t
  | TPosInf => true
  | TNegInf => false
  end.

(** The argument [muon_axis]: a string, a sequence of floats, or a
    sequence of Python ints. *)
Inductive axis_arg : Type :=
| AxisStr (s : string)
| AxisVec (v : rvector)
| AxisInts (v : list Z).

(** What [MuonExperiment] reads from its [MuonSpinSystem] (module
    [muspinsim.spinsys]): the spin labels, the index of the muon, and the
    spin quantum number and gyromagnetic ratio of each spin. *)
Record MuonSpinSystem : Type := mkSpinSystem {
  spins : list string;
  muon_index : nat;
  spin_I : nat -> Qc;
  spin_gamma : nat -> Qc
}.

Abbreviation rotmat := (list (list Qc)).

Section Experiment.

Variable sqrt : Qc -> Qc.
Variable eigh : matrix -> rvector * matrix.
(** [np.exp] on a complex array entry, [np.cos] and [np.sin]. *)
Variable cexp : C -> C.
Variables cos sin : Qc -> Qc.
(** [scipy.constants.h], [scipy.constants.k] (both non-zero) and
    [muspinsim.constants.MU_TAU]. *)
Variables cnst_h cnst_k MU_TAU : Qc.

(** The class [muspinsim.hamiltonian.Hamiltonian] and the calls made on
    its objects.  An array returned by [evolve] or [integrate_decaying] is
    the list of its entries in row-major order. *)
Variable Hamiltonian : Type.
Variable H_scale : Hamiltonian -> Qc -> Hamiltonian.
Variable H_add : Hamiltonian -> Hamiltonian -> Hamiltonian.
Variable rotated_hamiltonian : MuonSpinSystem -> rotmat -> Hamiltonian.
Variable evolve : Hamiltonian -> Operator -> list Qc -> list Operator -> vector.
Variable integrate_decaying : Hamiltonian -> Operator -> Qc -> list Operator -> vector.

Definition _make_rotmat (theta phi : Qc) : rotmat :=
  let ct := cos theta in
  let st := sin theta in
  let cp := cos phi in
  let sp := sin phi in
  [ [Qcmult cp ct; Qcopp sp; Qcmult cp st];
    [Qcmult sp ct; cp; Qcmult sp st];
    [Qcopp st; Q2Qc 0; ct] ].

(** The attributes of a [MuonExperiment]. *)
Record MuonExperiment : Type := mkExperiment {
  _spin_system : MuonSpinSystem;
  _orientations : list (Qc * Qc);
  _weights : list Qc;
  _Hz : Hamiltonian;
  _B : Qc;
  _rho0 : Operator
}.


Definition set_magnetic_field (self : MuonExperiment) (B : Qc) : MuonExperiment :=
  mkExperiment (_spin_system self) (_orientations self) (_weights self)
               (_Hz self) B (_rho0 self).


(** *** set_starting_state *)

(** [np.linalg.norm] of a real 1-D array. *)
Definition norm (v : rvector) : Qc :=
  sqrt (fold_right Qcplus (Q2Qc 0) (map (fun x => Qcmult x x) v)).

(** The first statement: a string is looked up, anything else is made an
    array and divided in place by its norm.  [np.array] of Python ints is
    an int64 array, which [/=] cannot hold the quotient in; of an empty
    list it is a float array. *)
Definition resolve_muon_axis (muon_axis : axis_arg) : result rvector :=
  match muon_axis with
  | AxisStr s =>
      if String.eqb s "x" then Ok [Q2Qc 1; Q2Qc 0; Q2Qc 0]
      else if String.eqb s "y" then Ok [Q2Qc 0; Q2Qc 1; Q2Qc 0]
      else if String.eqb s "z" then Ok [Q2Qc 0; Q2Qc 0; Q2Qc 1]
      else Raise InvalidMuonAxis
  | AxisVec v =>
      let n := norm v in
      Ok (map (fun x => Qcdiv x n) v)
  | AxisInts [] => Ok []
  | AxisInts (_ :: _) => Raise InPlaceCastError
  end.

(** [-cnst.h*E/(cnst.k*T)] for one entry of [E]; with an infinite [T] the
    divisor is infinite and the quotient is zero. *)
Definition boltzmann_exponent (E : C) (T : temperature) : C :=
  match T with
  | TFinite t =>
      Cplx.div (Cplx.mul (Cplx.of_Qc (Qcopp cnst_h)) E) (Cplx.of_Qc (Qcmult cnst_k t))
  | TPosInf | TNegInf => Cplx.zero
  end.

(** [np.diag(Sz.matrix)*self.spin_system.gamma(i)*self.B*1e6] *)
Definition zeeman_levels (Sz : Operator) (gamma B : Qc) : vector :=
  map (fun d =>
         Cplx.mul (Cplx.mul (Cplx.mul d (Cplx.of_Qc gamma)) (Cplx.of_Qc B))
                  (Cplx.of_Qc (Q2Qc 1000000)))
      (Np.diagonal (_matrix Sz)).

(** The weights [Z] before and after the normalisation step. *)
Definition raw_weights (E : vector) (T : temperature) : vector :=
  if T_positive T then map (fun e => cexp (boltzmann_exponent e T)) E
  else
    let lowest := NpOrder.amin E in
    map (fun e => if Cplx.eqb e lowest then Cplx.one else Cplx.zero) E.

Definition populations (E : vector) (T : temperature) : vector :=
  let Z := raw_weights E T in
  if NpOrder.ltb Cplx.zero (Np.vsum Z) then
    map (fun z => Cplx.div z (Np.vsum Z)) Z
  else
    map (fun _ => Cplx.div Cplx.one (Cplx.of_Z (Z.of_nat (length E)))) E.

(** The [else] branch of the loop: the thermal state of a spin that is not
    the muon. *)
Definition thermal_state (I_ gamma B : Qc) (T : temperature) : result Operator :=
  Sz <- from_axes1 sqrt I_ "z" ;;
  let E := zeeman_levels Sz gamma B in
  DensityOperator_init (Np.diag_k (populations E T) 0) None.

Fixpoint starting_states (sys : MuonSpinSystem) (B : Qc) (muon_axis : rvector)
  (T : temperature) (i : nat) (ss : list string) : result (list Operator) :=
  match ss with
  | [] => Ok []
  | _ :: ss' =>
      let I_ := spin_I sys i in
      r <- (if Nat.eqb i (muon_index sys)
            then from_vectors1 sqrt eigh I_ muon_axis (Q2Qc 0)
            else thermal_state I_ (spin_gamma sys i) B T) ;;
      rest <- starting_states sys B muon_axis T (S i) ss' ;;
      Ok (r :: rest)
  end.

(** [self._rho0 = rhos[0]; for r in rhos[1:]: self._rho0 = self._rho0.kron(r)] *)
Fixpoint kron_states (acc : Operator) (rhos : list Operator) : result Operator :=
  match rhos with
  | [] => Ok acc
  | r :: rhos' => acc' <- Operator_kron acc (PyOp r) ;; kron_states acc' rhos'
  end.

Definition set_starting_state (self : MuonExperiment) (muon_axis : axis_arg)
  (T : temperature) : result MuonExperiment :=
  axis <- resolve_muon_axis muon_axis ;;
  let sys := _spin_system self in
  rhos <- starting_states sys (_B self) axis T 0 (spins sys) ;;
  match rhos with
  | [] => Raise PyIndexError
  | r0 :: rest =>
      rho0 <- kron_states r0 rest ;;
      Ok (mkExperiment sys (_orientations self) (_weights self)
                       (_Hz self) (_B self) rho0)
  end.

(** *** run_experiment *)

(** [np.average(data, axis=0, weights=weights)] for a list [data] of arrays
    and 1-D real [weights]. *)
Definition weighted_sum (data : list vector) (weights : list Qc) (j : nat) : C :=
  Np.vsum (map2 (fun d w => Cplx.mul (nth j d Cplx.zero) (Cplx.of_Qc w)) data weights).

Definition average (data : list vector) (weights : list Qc) : result vector :=
  let n := length (hd [] data) in
  unless negb (forallb (fun d => Nat.eqb (length d) n) data) raise InhomogeneousArray ;;
  unless negb (Nat.eqb (length weights) (length data)) raise AverageShapeError ;;
  let scl := fold_right Qcplus (Q2Qc 0) weights in
  unless Py.eqb scl (Q2Qc 0) raise ZeroWeights ;;
  Ok (map (fun j => Cplx.div (weighted_sum data weights j) (Cplx.of_Qc scl)) (seq 0 n)).

(** A value of the returned dictionary: the untouched empty list, or the
    averaged real array. *)
Inductive result_entry : Type :=
| EmptyList
| Averaged (a : rvector).

Record results : Type := mkResults { res_e : result_entry; res_i : result_entry }.

(** The averaging loop, for one key: a key without data is skipped. *)
Definition average_entry (data : list vector) (weights : list Qc) : result result_entry :=
  match data with
  | [] => Ok EmptyList
  | _ => avg <- average data weights ;; Ok (Averaged (map Cplx.re avg))
  end.

Definition total_hamiltonian (self : MuonExperiment) (orient : Qc * Qc) : Hamiltonian :=
  let R := _make_rotmat (fst orient) (snd orient) in
  let Hz := H_scale (_Hz self) (_B self) in
  let Hint := rotated_hamiltonian (_spin_system self) R in
  H_add Hz Hint.

(** What the loop over the orientations appends under the keys ['e'] and
    ['i']. *)
Definition evolution_data (self : MuonExperiment) (times : list Qc)
  (operators : list Operator) : list vector :=
  map (fun o => evolve (total_hamiltonian self o) (_rho0 self) times operators)
      (_orientations self).

Definition integral_data (self : MuonExperiment) (operators : list Operator)
  : list vector :=
  map (fun o => map (fun x => Cplx.div x (Cplx.of_Qc MU_TAU))
                    (integrate_decaying (total_hamiltonian self o) (_rho0 self)
                                        MU_TAU operators))
      (_orientations self).

(** [run_experiment(times, operators, acquire)] with [operators] given. *)
Definition run_experiment (self : MuonExperiment) (times : list Qc)
  (operators : list Operator) (acquire : string) : result results :=
  let weights := _weights self in
  let data_e :=
    if Py.contains acquire "e" then evolution_data self times operators else [] in
  let data_i :=
    if Py.contains acquire "i" then integral_data self operators else [] in
  e <- average_entry data_e weights ;;
  i <- average_entry data_i weights ;;
  Ok (mkResults e i).

End Experiment.

(** ** Executable stand-ins for the library functions

    Used to run the definitions on concrete inputs; each agrees with the
    library function on the inputs named. *)

Module Standin.

(** Square root, exact on the squares of rationals. *)
Definition sqrt (x : Qc) : Qc :=
  Q2Qc (Z.sqrt (Qnum x) # Pos.sqrt (Qden x)).

(** [eigh] of a real diagonal matrix: the diagonal sorted in ascending
    order, and the matching unit vectors as columns. *)
Fixpoint insert_sorted (x : Qc * nat) (l : list (Qc * nat)) : list (Qc * nat) :=
  match l with
  | [] => [x]
  | y :: l' => if Py.ltb (fst x) (fst y) then x :: l else y :: insert_sorted x l'
  end.
Definition sort_levels (l : list (Qc * nat)) : list (Qc * nat) :=
  fold_right insert_sorted [] l.
Definition eigh (M : matrix) : rvector * matrix :=
  let n := length M in
  let levels := sort_levels (combine (map Cplx.re (Np.diagonal M)) (seq 0 n)) in
  (map fst levels,
   map (fun i => map (fun l => if Nat.eqb i (snd l) then Cplx.one else Cplx.zero) levels)
       (seq 0 n)).

(** A rational function that is 1 at 0, real and positive on the reals. *)
Definition cexp (z : C) : C :=
  Cplx.div Cplx.one
    (Cplx.add (Cplx.sub Cplx.one z)
              (Cplx.mul (Cplx.of_Qc Py.half) (Cplx.mul z z))).

End Standin.

(** ** Concrete inputs *)

Module Inputs.

Definition r (a : Z) (b : positive) : C := Cplx.of_Qc (Q2Qc (a # b)).
Definition i (a : Z) (b : positive) : C := Cplx.mkC (Q2Qc 0) (Q2Qc (a # b)).

(** Two anti-Hermitian matrices with non-zero trace. *)
Definition antihermitian1 : matrix := [[i 1 1]].
Definition antihermitian2 : matrix :=
  [[i 1 1; r 1 1];
   [r (-1) 1; i 3 1]].

(** A spin 1/2 polarised along [y]. *)
Definition rho_y : matrix :=
  [[r 1 2; i (-1) 2];
   [i 1 2; r 1 2]].

(** A spin 1/2 polarised along [x], next to an unpolarised spin 1/2:
    [np.kron([[.5,.5],[.5,.5]], [[.5,0],[0,.5]])]. *)
Definition rho_x_mixed : matrix :=
  [[r 1 4; r 0 1; r 1 4; r 0 1];
   [r 0 1; r 1 4; r 0 1; r 1 4];
   [r 1 4; r 0 1; r 1 4; r 0 1];
   [r 0 1; r 1 4; r 0 1; r 1 4]].

(** Planck's and Boltzmann's constants in SI units, and the mean life of
    the muon in microseconds. *)
Definition cnst_h : Qc := Q2Qc (662607015 # 1000000000000000000000000000000000000000000).
Definition cnst_k : Qc := Q2Qc (1380649 # 100000000000000000000000000000).
Definition MU_TAU : Qc := Q2Qc (21969811 # 10000000).

(** The default system of [MuonExperiment]: an electron and a muon, with
    their gyromagnetic ratios in MHz/T. *)
Definition electron_muon : MuonSpinSystem :=
  mkSpinSystem ["e"; "mu"]%string 1 (fun _ => Py.half)
               (fun i => if Nat.eqb i 0 then Q2Qc (-28024951 # 1000)
                         else Q2Qc (1355388 # 10000)).

(** An experiment on it with no Hamiltonian attached, as it is before the
    first call of [set_starting_state]. *)
Definition experiment (B : Qc) : MuonExperiment unit :=
  mkExperiment electron_muon [(Q2Qc 0, Q2Qc 0)] [Q2Qc 1] tt B
               (mkOperator ClsDensityOperator [] []).

(** Stand-ins for the two calls on a Hamiltonian, which is here the
    rotation matrix it was made from: arrays of the right shapes that
    depend on the orientation. *)
Definition evolve (H : rotmat) (rho0 : Operator) (times : list Qc)
  (operators : list Operator) : vector :=
  map (fun t => Cplx.mkC (Qcmult t (nth 0 (nth 2 H []) (Q2Qc 0))) t) times.
Definition integrate_decaying (H : rotmat) (rho0 : Operator) (tau : Qc)
  (operators : list Operator) : vector :=
  [Cplx.mkC (nth 0 (nth 2 H []) (Q2Qc 0)) tau].


End Inputs.

(** ** Notions used to state the properties *)

(** The spin values the factories accept: [k/2] for an integer [k >= 1]. *)
Definition half_integer (k : positive) : Qc := Qcmult Py.half (Py.of_Z (Zpos k)).

(** The values from [x] downwards in [n] steps of one: what [mvals] is
    for a valid spin [x], with [n = 2x + 1]. *)
Definition descending (x : Qc) (n : nat) : rvector :=
  map (fun i => Qcminus x (Py.of_nat i)) (seq 0 n).

(** The three names [set_starting_state] knows for [muon_axis]. *)
Definition muon_axis_names : list string := ["x"; "y"; "z"]%string.

(** The six labels of the dispatch table of [from_axes]. *)
Definition spin_axes : list string := ["x"; "y"; "z"; "+"; "-"; "0"]%string.

(** The side of the matrix of one spin. *)
Definition spin_size (x : Qc) : nat := Z.to_nat (spin_dim x).

(** [M[i][j]] *)
Definition entry (M : matrix) (i j : nat) : C := nth j (nth i M []) Cplx.zero.

(** [M] of side [n] satisfies [conj(M[j][i]) = s * M[i][j]]: Hermitian for
    [s = 1], anti-Hermitian for [s = -1]. *)
Definition twisted_hermitian (s : Qc) (n : nat) (M : matrix) : Prop :=
  forall i j, (i < n)%nat -> (j < n)%nat ->
    Cplx.conj (entry M j i) = Cplx.mul (Cplx.of_Qc s) (entry M i j).

Definition hermitian (n : nat) (M : matrix) : Prop := twisted_hermitian (Q2Qc 1) n M.
Definition antihermitian (n : nat) (M : matrix) : Prop :=
  twisted_hermitian (Qcopp (Q2Qc 1)) n M.

(** The Zeeman energy of the level with magnetic quantum number [m]. *)
Definition zeeman_energy (gamma B m : Qc) : C :=
  Cplx.of_Qc (Qcmult (Qcmult (Qcmult m gamma) B) (Q2Qc 1000000)).

(** [n] equal populations [1/n]. *)
Definition uniform (n : nat) : vector :=
  repeat (Cplx.div Cplx.one (Cplx.of_Z (Z.of_nat n))) n.

(** All the population on the levels of lowest energy, shared equally. *)
Definition lowest_levels (E : vector) : list C :=
  filter (fun e => Cplx.eqb e (NpOrder.amin E)) E.
Definition ground_populations (E : vector) : vector :=
  map (fun e => if Cplx.eqb e (NpOrder.amin E)
                then Cplx.div Cplx.one (Cplx.of_Z (Z.of_nat (length (lowest_levels E))))
                else Cplx.zero) E.

(** The Boltzmann weights [exp(-h*E/(k*t))] of the levels [E] at a finite
    temperature [t]. *)
Definition boltzmann_weights (cexp : C -> C) (cnst_h cnst_k : Qc) (E : vector) (t : Qc)
  : vector :=
  map (fun e => cexp (Cplx.div (Cplx.mul (Cplx.of_Qc (Qcopp cnst_h)) e)
                               (Cplx.of_Qc (Qcmult cnst_k t)))) E.

(** In [from_vectors]: the operator [sum_i S[i]*vec[i]] of a spin [k/2],
    the eigenvector selected from what [eigh] returns, and the matrix
    built from it when there is no decoherence. *)
Definition polarisation_operator (sqrt : Qc -> Qc) (k : positive) (vec : rvector) : matrix :=
  let mvals := spin_mvals (half_integer k) in
  combine_axes [_Sx sqrt mvals; _Sy sqrt mvals; _Sz mvals] vec.
Definition selected_eigenvector (eigh : matrix -> rvector * matrix) (o : matrix) : vector :=
  Np.column (argmax (fst (eigh o))) (snd (eigh o)).
Definition pure_state (psi : vector) : matrix :=
  Np.mul (outer_conj psi) (decoherence_mask (Q2Qc 0) (length (outer_conj psi))).

(** A complex number with no imaginary part. *)
Definition is_real (z : C) : Prop := Cplx.im z = Q2Qc 0.

(** The sum of a real array. *)
Definition rsum (v : rvector) : Qc := fold_right Qcplus (Q2Qc 0) v.


(** [x] is [k/2] for some integer [k >= 1]. *)
Definition positive_half_integer (x : Qc) : Prop := exists k : positive, x = half_integer k.

(** [A] is an array of shape [(n, m)]. *)
Definition has_shape (n m : nat) (A : matrix) : Prop :=
  length A = n /\ Forall (fun r => length r = m) A.

(** ** The remaining methods of Operator

    [__truediv__] and [basis_change] fail at places for which [error] has
    no constructor; their results record the class of the exception. *)

Inductive outcome (A : Type) : Type :=
| Returns (a : A)
| Throws (c : pyexc).
Arguments Returns {A} a.
Arguments Throws {A} c.

Definition outcome_of {A} (r : result A) : outcome A :=
  match r with
  | Ok a => Returns a
  | Raise e => Throws (exc_class e)
  end.

(** The property [Is]: [tuple((d-1)/2.0 for d in self._dim)]. *)
Definition Is (o : Operator) : list Qc :=
  map (fun d => Qcdiv (Qcminus (Py.of_Z d) (Q2Qc 1)) Py.two) (_dim o).

(** [__truediv__] by a Python [int], [float] or [complex]: [1.0/x] raises
    for a zero [x]; anything that is not a number is refused, an Operator
    included.  (A numpy scalar is a [Number] too, and [1.0/x] does not
    raise for a numpy zero: [PyNum] does not stand for one.) *)
Definition Operator_truediv (self : Operator) (x : pyobj) : outcome Operator :=
  match x with
  | PyNum x =>
      if Cplx.eqb x Cplx.zero then Throws ZeroDivisionError
      else outcome_of (Operator_mul self (PyNum (Cplx.div Cplx.one x)))
  | _ => Throws TypeError
  end.

(** [basis_change]: [multi_dot([basis.T.conj(), ans._matrix, basis])] for a
    2-D array [basis]; [multi_dot] raises [ValueError] when the shapes are
    not aligned.  The product does not depend on the order in which
    [multi_dot] chooses to multiply. *)
Definition basis_change (self : Operator) (basis : matrix) : outcome Operator :=
  let ans := clone self in
  let r := Np.nrows basis in
  if Nat.eqb r (Np.nrows (_matrix ans)) && Nat.eqb (Np.ncols (_matrix ans)) r then
    Returns (with_matrix ans
               (Np.dot (Np.conj (Np.transpose basis)) (Np.dot (_matrix ans) basis)))
  else Throws ValueError.

(** ** Notions used to state the properties of these methods *)

(** A well-formed operator that passes the Hermiticity test and has trace
    1. *)
Definition density_matrix (o : Operator) : Prop :=
  well_formed o = true /\ is_hermitian o = true /\ Np.trace (_matrix o) = Cplx.one.

(** [basis.T.conj()] *)
Definition adjoint (A : matrix) : matrix := Np.conj (Np.transpose A).

(** [sum_ij O[i][j] * R[j][i]], which is what [expectation] adds up. *)
Definition pairing (n : nat) (O R : matrix) : C :=
  Np.vsum (map (fun i => Np.vsum (map (fun k => Cplx.mul (entry O i k) (entry R k i))
                                      (seq 0 n)))
               (seq 0 n)).

(** The operator [from_axes(Is, '00...0')]: the identity matrix of side
    [prod(2I+1)]. *)
Definition identity_operator (Is_ : list Qc) : Operator :=
  mkOperator ClsSpinOperator (map spin_dim Is_)
             (Np.eye (Z.to_nat (Np.prod (map spin_dim Is_)))).


(** The labels of the five traceless single-spin operators. *)
Definition traceless_axes : list string := ["x"; "y"; "z"; "+"; "-"]%string.

(** The dot product of two real rows, and the determinant of a 3 x 3 real
    matrix. *)
Definition rvdot (u v : rvector) : Qc := rsum (map2 Qcmult u v).

Definition rentry (R : rotmat) (i j : nat) : Qc := nth j (nth i R []) (Q2Qc 0).

Definition det3 (R : rotmat) : Qc :=
  let a := rentry R 0 0 in let b := rentry R 0 1 in let c := rentry R 0 2 in
  let d := rentry R 1 0 in let e := rentry R 1 1 in let f := rentry R 1 2 in
  let g := rentry R 2 0 in let h := rentry R 2 1 in let i := rentry R 2 2 in
  (a * (e * i - f * h) - b * (d * i - f * g) + c * (d * h - e * g))%Qc.

Definition rcolumn (R : rotmat) (j : nat) : rvector := map (fun r => nth j r (Q2Qc 0)) R.

(** ** Binary64

    The arrays of the program hold [complex128] numbers: pairs of binary64
    numbers.  The functions below are [kron], [__eq__] and
    [run_experiment] once more, with the arithmetic of numpy's complex128
    loops in place of the exact one; they are used where a rounding
    decides what [==] returns. *)

Module F64.

Import PrimFloat.
Local Open Scope float_scope.

Record c128 : Type := mkc { re : float; im : float }.

(** A Python float as numpy casts it to complex128: [x + 0j]. *)
Definition of_float (x : float) : c128 := mkc x 0.

(** The loops of numpy for [+], [*], [/] and [==] on complex128. *)
Definition add (a b : c128) : c128 := mkc (re a + re b) (im a + im b).
Definition mul (a b : c128) : c128 :=
  mkc (re a * re b - im a * im b) (re a * im b + im a * re b).
Definition div (a b : c128) : c128 :=
  let br := abs (re b) in
  let bi := abs (im b) in
  if leb bi br then
    if PrimFloat.eqb br 0 && PrimFloat.eqb bi 0 then mkc (re a / br) (im a / br)
    else
      let rat := im b / re b in
      let scl := 1 / (re b + im b * rat) in
      mkc ((re a + im a * rat) * scl) ((im a - re a * rat) * scl)
  else
    let rat := re b / im b in
    let scl := 1 / (im b + re b * rat) in
    mkc ((re a * rat + im a) * scl) ((im a * rat - re a) * scl).
Definition eqb (a b : c128) : bool :=
  PrimFloat.eqb (re a) (re b) && PrimFloat.eqb (im a) (im b).

(** [np.add.reduce] of fewer than eight numbers: they are added to zero
    one after the other.  (numpy adds a longer contiguous array in
    blocks, which is not modelled.) *)
Definition sum (v : list c128) : c128 := fold_left add v (of_float 0).

(** [np.kron] of two 2-D arrays: block [(i, j)] is [A[i][j] * B]. *)
Definition kron_row (ra rb : list c128) : list c128 :=
  flat_map (fun a => map (mul a) rb) ra.
Definition kron (A B : list (list c128)) : list (list c128) :=
  flat_map (fun ra => map (kron_row ra) B) A.

(** [np.all(A == B)] for two arrays of one shape. *)
Fixpoint veqb (u v : list c128) : bool :=
  match u, v with
  | [], [] => true
  | a :: u', b :: v' => eqb a b && veqb u' v'
  | _, _ => false
  end.
Fixpoint all_eq (A B : list (list c128)) : bool :=
  match A, B with
  | [], [] => true
  | r :: A', s :: B' => veqb r s && all_eq A' B'
  | _, _ => false
  end.

(** An Operator whose matrix holds complex128 numbers. *)
Record Operator : Type := mkOperator {
  op_class : pyclass;
  _dim : list Z;
  _matrix : list (list c128)
}.

(** [kron] and [__eq__] between two Operators. *)
Definition Operator_kron (self x : Operator) : Operator :=
  mkOperator (op_class self) (_dim self ++ _dim x) (kron (_matrix self) (_matrix x)).
Definition Operator_eq (self x : Operator) : bool :=
  if negb (dims_eqb (_dim self) (_dim x)) then false
  else all_eq (_matrix self) (_matrix x).

(** [np.average(data, axis=0, weights=weights)] for a list [data] of
    fewer than eight complex128 arrays and a list of floats: the weights
    are cast to complex128, [scl = wgt.sum(axis)] and the result is
    [np.multiply(a, wgt).sum(axis) / scl]. *)
Definition weighted_sum (data : list (list c128)) (weights : list float) (j : nat) : c128 :=
  sum (map2 (fun d w => mul (nth j d (of_float 0)) (of_float w)) data weights).

Definition average (data : list (list c128)) (weights : list float)
  : result (list c128) :=
  let n := length (hd [] data) in
  unless negb (forallb (fun d => Nat.eqb (length d) n) data) raise InhomogeneousArray ;;
  unless negb (Nat.eqb (length weights) (length data)) raise AverageShapeError ;;
  let scl := sum (map of_float weights) in
  unless eqb scl (of_float 0) raise ZeroWeights ;;
  Ok (map (fun j => div (weighted_sum data weights j) scl) (seq 0 n)).

(** A value of the dictionary that [run_experiment] returns. *)
Inductive result_entry : Type :=
| EmptyList
| Averaged (a : list float).

(** The averaging loop of [run_experiment], for one key of [results]:
    [data] is what the loop over the orientations has appended. *)
Definition average_entry (data : list (list c128)) (weights : list float)
  : result result_entry :=
  match data with
  | [] => Ok EmptyList
  | _ => avg <- average data weights ;; Ok (Averaged (map re avg))
  end.

(** [_make_rotmat] *)
Definition _make_rotmat (cos sin : float -> float) (theta phi : float)
  : list (list float) :=
  let ct := cos theta in
  let st := sin theta in
  let cp := cos phi in
  let sp := sin phi in
  [[cp * ct; - sp; cp * st];
   [sp * ct;   cp; sp * st];
   [- st;       0;      ct]].

(** [run_experiment], as above: the Hamiltonian, the spin system and the
    two calls [evolve] and [integrate_decaying] are parameters. *)
Section Experiment.

Variables cos sin : float -> float.
Variable MU_TAU : float.
Variables SpinSystem Hamiltonian : Type.
Variable H_scale : Hamiltonian -> float -> Hamiltonian.
Variable H_add : Hamiltonian -> Hamiltonian -> Hamiltonian.
Variable rotated_hamiltonian : SpinSystem -> list (list float) -> Hamiltonian.
Variable evolve : Hamiltonian -> Operator -> list float -> list Operator -> list c128.
Variable integrate_decaying :
  Hamiltonian -> Operator -> float -> list Operator -> list c128.

Record MuonExperiment : Type := mkExperiment {
  _spin_system : SpinSystem;
  _orientations : list (float * float);
  _weights : list float;
  _Hz : Hamiltonian;
  _B : float;
  _rho0 : Operator
}.

Record results : Type := mkResults { res_e : result_entry; res_i : result_entry }.

Definition total_hamiltonian (self : MuonExperiment) (orient : float * float)
  : Hamiltonian :=
  let R := _make_rotmat cos sin (fst orient) (snd orient) in
  let Hz := H_scale (_Hz self) (_B self) in
  let Hint := rotated_hamiltonian (_spin_system self) R in
  H_add Hz Hint.

Definition evolution_data (self : MuonExperiment) (times : list float)
  (operators : list Operator) : list (list c128) :=
  map (fun o => evolve (total_hamiltonian self o) (_rho0 self) times operators)
      (_orientations self).

Definition integral_data (self : MuonExperiment) (operators : list Operator)
  : list (list c128) :=
  map (fun o => map (fun x => div x (of_float MU_TAU))
                    (integrate_decaying (total_hamiltonian self o) (_rho0 self)
                                        MU_TAU operators))
      (_orientations self).

Definition run_experiment (self : MuonExperiment) (times : list float)
  (operators : list Operator) (acquire : string) : result results :=
  let weights := _weights self in
  let data_e :=
    if Py.contains acquire "e" then evolution_data self times operators else [] in
  let data_i :=
    if Py.contains acquire "i" then integral_data self operators else [] in
  e <- average_entry data_e weights ;;
  i <- average_entry data_i weights ;;
  Ok (mkResults e i).

End Experiment.


(** The numbers of the examples: 0.1, 0.2, 0.3, each the binary64 number
    that Python reads the literal as. *)
Definition tenth : float := 0x1.999999999999ap-4.
Definition fifth : float := 0x1.999999999999ap-3.
Definition three_tenths : float := 0x1.3333333333333p-2.

End F64.

(** ** Floats whose squares are numbers

    A float is moderate when it is zero or its square lies between
    [2^-1000] and [2^1000]: the square then neither underflows to zero nor
    overflows to [inf] in binary64. *)
Definition moderate (x : Qc) : Prop :=
  x = Q2Qc 0
  \/ (Q2Qc (1 # 2 ^ 1000) <= x * x)%Qc /\ (x * x <= Q2Qc (Zpos (2 ^ 1000) # 1))%Qc.

(** ** Integers of numpy

    [np.prod] of a tuple of Python ints multiplies int64 numbers, and
    wraps; it is the product in [Z] when the entries and the product are
    int64 numbers. *)
Definition int64 (z : Z) : Prop := (- 2 ^ 63 <= z < 2 ^ 63)%Z.
Definition prod_fits_int64 (d : list Z) : Prop := Forall int64 d /\ int64 (Np.prod d).

(** ** More concrete inputs *)

Module Samples.

(** The operators Sx and Sz of a spin 1/2, a state polarised along [y],
    and a product state of two spins 1/2. *)
Definition sx : Operator :=
  mkOperator ClsSpinOperator [2%Z]
    [[Inputs.r 0 1; Inputs.r 1 2];
     [Inputs.r 1 2; Inputs.r 0 1]].
Definition sz : Operator :=
  mkOperator ClsSpinOperator [2%Z]
    [[Inputs.r 1 2; Inputs.r 0 1];
     [Inputs.r 0 1; Inputs.r (-1) 2]].
Definition rho : Operator := mkOperator ClsDensityOperator [2%Z] Inputs.rho_y.
Definition rho_pair : Operator :=
  mkOperator ClsDensityOperator [2; 2]%Z Inputs.rho_x_mixed.

(** The basis that exchanges the two levels, and a basis of one column. *)
Definition swap : matrix :=
  [[Inputs.r 0 1; Inputs.r 1 1];
   [Inputs.r 1 1; Inputs.r 0 1]].
Definition column_basis : matrix := [[Inputs.r 1 1]; [Inputs.r 0 1]].

(** An angle whose cosine is 3/5 and whose sine is 4/5. *)
Definition cos (x : Qc) : Qc := Q2Qc (3 # 5).
Definition sin (x : Qc) : Qc := Q2Qc (4 # 5).

End Samples.

(** * Properties *)

(** ** Complex scalars: decidable equality and the ring laws *)

Module CplxFacts.

Import Cplx.
Open Scope Qc_scope.

Lemma Qc_eq_bool_refl (x : Qc) : Qc_eq_bool x x = true.
Proof.
  unfold Qc_eq_bool. destruct (Qc_eq_dec x x) as [_|n]; [reflexivity|].
  exfalso; apply n; reflexivity.
Qed.

Lemma Qc_eq_bool_iff (x y : Qc) : Qc_eq_bool x y = true <-> x = y.
Proof.
  split; [apply Qc_eq_bool_correct | intros ->; apply Qc_eq_bool_refl].
Qed.

Lemma eqb_eq (a b : C) : eqb a b = true <-> a = b.
Proof.
  destruct a as [x y], b as [u v]; unfold eqb; cbn.
  rewrite andb_true_iff, !Qc_eq_bool_iff. split.
  - intros [-> ->]; reflexivity.
  - intros H; injection H; auto.
Qed.

Lemma eqb_refl (a : C) : eqb a a = true.
Proof. apply eqb_eq; reflexivity. Qed.

Lemma ext (a b : C) : re a = re b -> im a = im b -> a = b.
Proof. destruct a, b; cbn; intros -> ->; reflexivity. Qed.

Lemma mul_assoc (a b c : C) : mul (mul a b) c = mul a (mul b c).
Proof. apply ext; cbn; ring. Qed.

Lemma mul_comm (a b : C) : mul a b = mul b a.
Proof. apply ext; cbn; ring. Qed.

Lemma add_comm (a b : C) : add a b = add b a.
Proof. apply ext; cbn; ring. Qed.

Lemma add_assoc (a b c : C) : add (add a b) c = add a (add b c).
Proof. apply ext; cbn; ring. Qed.

Lemma add_zero_l (a : C) : add zero a = a.
Proof. apply ext; cbn; ring. Qed.

Lemma add_zero_r (a : C) : add a zero = a.
Proof. apply ext; cbn; ring. Qed.

Lemma mul_one_r (a : C) : mul a one = a.
Proof. apply ext; cbn; ring. Qed.

Lemma mul_one_l (a : C) : mul one a = a.
Proof. apply ext; cbn; ring. Qed.

Lemma mul_zero_l (a : C) : mul zero a = zero.
Proof. apply ext; cbn; ring. Qed.

Lemma mul_zero_r (a : C) : mul a zero = zero.
Proof. apply ext; cbn; ring. Qed.

Lemma mul_add_distr_l (a b c : C) : mul a (add b c) = add (mul a b) (mul a c).
Proof. apply ext; cbn; ring. Qed.

Lemma mul_add_distr_r (a b c : C) : mul (add a b) c = add (mul a c) (mul b c).
Proof. apply ext; cbn; ring. Qed.

Close Scope Qc_scope.

End CplxFacts.


(** ** Equality tests decide equality *)

Lemma veqb_eq (u v : vector) : Np.veqb u v = true <-> u = v.
Proof.
  revert v; induction u as [|a u IH]; intros [|b v]; cbn;
    try (split; [discriminate | congruence]); try tauto.
  rewrite andb_true_iff, CplxFacts.eqb_eq, IH. split.
  - intros [-> ->]; reflexivity.
  - intros H; injection H; auto.
Qed.

Lemma all_eq_eq (A B : matrix) : Np.all_eq A B = true <-> A = B.
Proof.
  revert B; induction A as [|r A IH]; intros [|s B]; cbn;
    try (split; [discriminate | congruence]); try tauto.
  rewrite andb_true_iff, veqb_eq, IH. split.
  - intros [-> ->]; reflexivity.
  - intros H; injection H; auto.
Qed.

Lemma all_eq_refl (A : matrix) : Np.all_eq A A = true.
Proof. apply all_eq_eq; reflexivity. Qed.

Lemma dims_eqb_eq (d e : list Z) : dims_eqb d e = true <-> d = e.
Proof.
  unfold dims_eqb; destruct (list_eq_dec Z.eq_dec d e); split; auto; discriminate.
Qed.

Lemma dims_eqb_refl (d : list Z) : dims_eqb d d = true.
Proof. apply dims_eqb_eq; reflexivity. Qed.

(** ** The Kronecker product *)

Lemma flat_map_flat_map {A B D} (f : A -> list B) (g : B -> list D) (l : list A) :
  flat_map g (flat_map f l) = flat_map (fun a => flat_map g (f a)) l.
Proof.
  induction l as [|a l IH]; cbn; [reflexivity|].
  rewrite flat_map_app, IH; reflexivity.
Qed.

Lemma flat_map_map {A B D} (f : A -> B) (g : B -> list D) (l : list A) :
  flat_map g (map f l) = flat_map (fun a => g (f a)) l.
Proof. induction l as [|a l IH]; cbn; [reflexivity | rewrite IH; reflexivity]. Qed.

Lemma map_flat_map {A B D} (f : A -> list B) (g : B -> D) (l : list A) :
  map g (flat_map f l) = flat_map (fun a => map g (f a)) l.
Proof.
  induction l as [|a l IH]; cbn; [reflexivity|].
  rewrite map_app, IH; reflexivity.
Qed.

Lemma kron_row_assoc (ra rb rc : vector) :
  Np.kron_row (Np.kron_row ra rb) rc = Np.kron_row ra (Np.kron_row rb rc).
Proof.
  unfold Np.kron_row.
  rewrite flat_map_flat_map. apply flat_map_ext; intros a.
  rewrite flat_map_map, map_flat_map. apply flat_map_ext; intros b.
  rewrite map_map. apply map_ext; intros c. apply CplxFacts.mul_assoc.
Qed.

Lemma kron_assoc (A B D : matrix) :
  Np.kron (Np.kron A B) D = Np.kron A (Np.kron B D).
Proof.
  unfold Np.kron.
  rewrite flat_map_flat_map. apply flat_map_ext; intros ra.
  rewrite flat_map_map, map_flat_map. apply flat_map_ext; intros rb.
  rewrite map_map. apply map_ext; intros rc. apply kron_row_assoc.
Qed.

(** Entry [(i*p + k, j*q + l)] of [np.kron(A, B)] is [A[i][j] * B[k][l]],
    for [B] of shape [(p, q)]. *)
Lemma nth_flat_map_block {A B} (f : A -> list B) (l : list A) (n i k : nat) (da : A) (db : B) :
  (forall a, length (f a) = n) -> (i < length l)%nat -> (k < n)%nat ->
  nth (i * n + k) (flat_map f l) db = nth k (f (nth i l da)) db.
Proof.
  intros Hlen; revert i; induction l as [|a l IH]; intros i Hi Hk; cbn in Hi; [lia|].
  cbn [flat_map]. destruct i as [|i].
  - cbn [Nat.mul Nat.add nth]. rewrite app_nth1 by (rewrite Hlen; exact Hk). reflexivity.
  - rewrite app_nth2 by (rewrite Hlen; lia).
    rewrite Hlen. replace (S i * n + k - n)%nat with (i * n + k)%nat by lia.
    cbn [nth]. apply IH; lia.
Qed.

Lemma kron_row_entry (ra rb : vector) (j l : nat) :
  (j < length ra)%nat -> (l < length rb)%nat ->
  nth (j * length rb + l) (Np.kron_row ra rb) Cplx.zero
  = Cplx.mul (nth j ra Cplx.zero) (nth l rb Cplx.zero).
Proof.
  intros Hj Hl. unfold Np.kron_row.
  rewrite (@nth_flat_map_block _ _ _ ra (length rb) j l Cplx.zero Cplx.zero);
    [| intros; apply length_map | assumption | assumption].
  cbv beta.
  rewrite nth_indep with (l := map _ rb) (d' := Cplx.mul (nth j ra Cplx.zero) Cplx.zero)
    by (rewrite length_map; exact Hl).
  apply map_nth.
Qed.

Lemma kron_entry (A B : matrix) (i j k l : nat) :
  (i < length A)%nat -> (k < length B)%nat ->
  (j < length (nth i A []))%nat -> (l < length (nth k B []))%nat ->
  nth (j * length (nth k B []) + l)
      (nth (i * length B + k) (Np.kron A B) []) Cplx.zero
  = Cplx.mul (nth j (nth i A []) Cplx.zero) (nth l (nth k B []) Cplx.zero).
Proof.
  intros Hi Hk Hj Hl. unfold Np.kron.
  rewrite (@nth_flat_map_block _ _ _ A (length B) i k [] []);
    [| intros; apply length_map | assumption | assumption].
  cbv beta.
  rewrite nth_indep with (l := map _ B) (d' := Np.kron_row (nth i A []) [])
    by (rewrite length_map; exact Hk).
  rewrite map_nth. apply kron_row_entry; assumption.
Qed.

(** ** expectation *)

(** C10.  [expectation] raises its TypeError for every argument that is not
    an instance of SpinOperator, whatever the dimension tuples and the
    matrices are: a plain Operator (or a DensityOperator) carrying the very
    dimension tuple of [self] is refused like anything else. *)
Theorem expectation_rejects_non_SpinOperator (self : Operator) (x : pyobj) :
  isinstance_SpinOperator x = false ->
  expectation self x = Raise NotSpinOperator
  /\ exc_class NotSpinOperator = TypeError
  /\ (forall M, expectation self (PyOp (mkOperator ClsOperator (dimension self) M))
                = Raise NotSpinOperator)
  /\ (forall c d M, c <> ClsSpinOperator ->
                    expectation self (PyOp (mkOperator c d M)) = Raise NotSpinOperator).
Proof.
  intros Hx. repeat split.
  - destruct x as [o| |]; cbn in *; [|reflexivity|reflexivity].
    unfold expectation. rewrite Hx. reflexivity.
  - intros c d M Hc. unfold expectation, is_SpinOperator; cbn.
    destruct c; [reflexivity | congruence | reflexivity].
Qed.

Lemma expectation_rejects_non_SpinOperator_witness :
  expectation (mkOperator ClsDensityOperator [1%Z] [[Cplx.one]])
              (PyOp (mkOperator ClsOperator [1%Z] [[Cplx.one]]))
  = Raise NotSpinOperator.
Proof.
  refine (proj1 (expectation_rejects_non_SpinOperator
                   (mkOperator ClsDensityOperator [1%Z] [[Cplx.one]])
                   (PyOp (mkOperator ClsOperator [1%Z] [[Cplx.one]])) _)).
  reflexivity.
Defined.

Lemma map2_nil_r {A B D} (f : A -> B -> D) (l : list A) : map2 f l [] = [].
Proof. destruct l; reflexivity. Qed.

Lemma vdot_nil_r (u : vector) : Np.vdot u [] = Cplx.zero.
Proof. unfold Np.vdot. rewrite map2_nil_r. reflexivity. Qed.

Lemma map_map2 {A B D E} (g : D -> E) (f : A -> B -> D) (l : list A) (m : list B) :
  map g (map2 f l m) = map2 (fun a b => g (f a b)) l m.
Proof.
  revert m; induction l as [|a l IH]; intros [|b m]; cbn; try reflexivity.
  rewrite IH; reflexivity.
Qed.

(** The diagonal of [np.dot(A, B)], read off the rows of [A] and of [B.T]. *)
Lemma diagonal_from_dot (A BT : matrix) (k : nat) :
  (length A + k <= length BT)%nat ->
  Np.diagonal_from k (map (fun ra => map (Np.vdot ra) BT) A)
  = map2 Np.vdot A (skipn k BT).
Proof.
  revert k; induction A as [|ra A IH]; intros k Hk; cbn [map Np.diagonal_from].
  - reflexivity.
  - cbn [length] in Hk.
    rewrite IH by lia.
    destruct (skipn k BT) as [|cb rest] eqn:Hs.
    + apply (f_equal (@length _)) in Hs. rewrite length_skipn in Hs. cbn in Hs. lia.
    + cbn [map2]. f_equal.
      * rewrite nth_indep with (d' := Np.vdot ra []) by (rewrite length_map; lia).
        rewrite map_nth. f_equal.
        rewrite <- (firstn_skipn k BT) at 1.
        rewrite app_nth2 by (rewrite length_firstn; lia).
        rewrite length_firstn, Hs.
        replace (k - Nat.min k (length BT))%nat with 0%nat by lia. reflexivity.
      * f_equal.
        replace (S k) with (1 + k)%nat by reflexivity.
        rewrite <- skipn_skipn, Hs. reflexivity.
Qed.

(** [np.sum(A * B.T)] is the trace of [np.dot(A, B)] as soon as [A] has no
    more rows than [B] has columns. *)
Lemma sum_mul_transpose_is_trace (A B : matrix) :
  (length A <= Np.ncols B)%nat ->
  Np.sum (Np.mul A (Np.transpose B)) = Np.trace (Np.dot A B).
Proof.
  intros H. unfold Np.sum, Np.trace, Np.diagonal, Np.dot, Np.mul.
  rewrite diagonal_from_dot
    by (unfold Np.transpose; rewrite length_map, length_seq; lia).
  cbn [skipn]. rewrite map_map2. reflexivity.
Qed.

Lemma is_square_rows (M : matrix) :
  Np.is_square M = true -> Forall (fun r => length r = length M) M.
Proof.
  unfold Np.is_square, Np.nrows. rewrite forallb_forall, Forall_forall.
  intros H r Hr. apply Nat.eqb_eq, H, Hr.
Qed.

Lemma is_square_ncols (M : matrix) :
  Np.is_square M = true -> Np.ncols M = length M.
Proof.
  intros H. apply is_square_rows in H. unfold Np.ncols.
  destruct M as [|r M]; [reflexivity|]. inversion H; subst. assumption.
Qed.

(** C2, as the code has it.  For a SpinOperator argument [expectation]
    compares the dimension tuples and raises the ValueError when they
    differ.  For well-formed operands of one dimension tuple (the two
    matrices are then square and of one side, so that [*] multiplies entry
    by entry) it returns [np.sum(operator.matrix * self.matrix.T)], a
    complex number, unchanged; that number is the trace of the matrix
    product. *)
Theorem expectation_value (self operator : Operator) :
  is_SpinOperator operator = true ->
  (dimension operator <> dimension self ->
   expectation self (PyOp operator) = Raise IncompatibleDimensions
   /\ exc_class IncompatibleDimensions = ValueError)
  /\ (well_formed self = true -> well_formed operator = true ->
      dimension operator = dimension self ->
      expectation self (PyOp operator)
      = Ok (Np.sum (Np.mul (_matrix operator) (Np.transpose (_matrix self))))
      /\ expectation self (PyOp operator)
         = Ok (Np.trace (Np.dot (_matrix operator) (_matrix self)))).
Proof.
  intros Hs. unfold expectation. rewrite Hs. cbn [negb]. split.
  - intros Hd. split; [|reflexivity].
    destruct (dims_eqb (dimension operator) (dimension self)) eqn:E; [|reflexivity].
    apply dims_eqb_eq in E. contradiction.
  - intros Hw Ho Hd. rewrite (proj2 (dims_eqb_eq _ _) Hd). cbn [negb].
    split; [reflexivity|].
    f_equal. apply sum_mul_transpose_is_trace.
    unfold well_formed in Hw, Ho.
    apply andb_true_iff in Hw as [Hw1 Hw2], Ho as [Ho1 Ho2].
    rewrite (is_square_ncols _ Hw1).
    apply Z.eqb_eq in Hw2, Ho2. unfold dimension in Hd. rewrite Hd in Ho2.
    unfold Np.nrows in *. lia.
Qed.

(** ** Rational numbers *)

Lemma of_Z_this (z : Z) : Qcanon.this (Py.of_Z z) = inject_Z z.
Proof.
  unfold Py.of_Z, Q2Qc; cbn [Qcanon.this].
  apply Qred_identity. cbn. apply Z.gcd_1_r.
Qed.

Lemma of_Z_add (a b : Z) : Py.of_Z (a + b) = Qcplus (Py.of_Z a) (Py.of_Z b).
Proof.
  apply Qc_is_canon. unfold Qcplus. rewrite !of_Z_this.
  unfold Py.of_Z, Q2Qc; cbn [Qcanon.this]. rewrite !Qred_correct.
  rewrite inject_Z_plus; reflexivity.
Qed.

Lemma of_Z_mul (a b : Z) : Py.of_Z (a * b) = Qcmult (Py.of_Z a) (Py.of_Z b).
Proof.
  apply Qc_is_canon. unfold Qcmult. rewrite !of_Z_this.
  unfold Py.of_Z, Q2Qc; cbn [Qcanon.this]. rewrite !Qred_correct.
  rewrite inject_Z_mult; reflexivity.
Qed.

Lemma of_Z_opp (a : Z) : Py.of_Z (- a) = Qcopp (Py.of_Z a).
Proof.
  apply Qc_is_canon. unfold Qcopp. rewrite !of_Z_this.
  unfold Py.of_Z, Q2Qc; cbn [Qcanon.this]. rewrite !Qred_correct.
  rewrite inject_Z_opp; reflexivity.
Qed.

Lemma of_Z_inj (a b : Z) : Py.of_Z a = Py.of_Z b -> a = b.
Proof.
  intros H. apply (f_equal Qcanon.this) in H. rewrite !of_Z_this in H.
  injection H; auto.
Qed.

Lemma floor_of_Z (z : Z) : Py.floor (Py.of_Z z) = z.
Proof. unfold Py.floor. rewrite of_Z_this. apply Qfloor_Z. Qed.

Lemma int_of_Z (z : Z) : Py.int (Py.of_Z z) = z.
Proof. unfold Py.int. rewrite of_Z_this. cbn. apply Z.quot_1_r. Qed.

Lemma ltb_lt (x y : Qc) : Py.ltb x y = true <-> (x < y)%Qc.
Proof.
  unfold Py.ltb. rewrite Qclt_alt. destruct (x ?= y)%Qc; split; congruence.
Qed.

Lemma of_Z_lt (a b : Z) : (Py.of_Z a < Py.of_Z b)%Qc <-> (a < b)%Z.
Proof.
  unfold Qclt. rewrite !of_Z_this. rewrite <- Zlt_Qlt. reflexivity.
Qed.

Lemma half_two : Qcmult Py.two Py.half = Q2Qc 1.
Proof. apply Qc_is_canon. reflexivity. Qed.

Lemma two_ne_0 : Py.two <> Q2Qc 0.
Proof. intros H. discriminate H. Qed.

Lemma half_ne_0 : Py.half <> Q2Qc 0.
Proof. intros H. discriminate H. Qed.

Lemma two_of_Z : Py.two = Py.of_Z 2.
Proof. apply Qc_is_canon. reflexivity. Qed.
Lemma one_of_Z : Q2Qc 1 = Py.of_Z 1.
Proof. apply Qc_is_canon. reflexivity. Qed.
Lemma zero_of_Z : Q2Qc 0 = Py.of_Z 0.
Proof. apply Qc_is_canon. reflexivity. Qed.

Lemma div_half (x : Qc) : Qcdiv x Py.half = Qcmult Py.two x.
Proof.
  unfold Qcdiv. 
  assert (H : Qcinv Py.half = Py.two) by (apply Qc_is_canon; reflexivity).
  rewrite H. ring.
Qed.

Lemma two_half_integer k : Qcmult Py.two (half_integer k) = Py.of_Z (Zpos k).
Proof.
  unfold half_integer. rewrite Qcmult_assoc, half_two. ring.
Qed.

Lemma invalid_spin_iff (x : Qc) :
  invalid_spin x = false <-> exists k : positive, x = half_integer k.
Proof.
  unfold invalid_spin, Py.truthy, Py.eqb. split.
  - intros H. apply orb_false_iff in H as [Hm Hl].
    apply negb_false_iff, Qc_eq_bool_correct in Hm.
    unfold Py.mod_ in Hm. rewrite div_half in Hm.
    set (z := Py.floor (Qcmult Py.two x)) in *.
    assert (Hx : x = Qcmult Py.half (Py.of_Z z)).
    { transitivity (Qcplus (Qcminus x (Qcmult Py.half (Py.of_Z z))) (Qcmult Py.half (Py.of_Z z))); [ring|].
      rewrite Hm. ring. }
    destruct z as [|k|k].
    + exfalso. rewrite Hx in Hl. vm_compute in Hl. discriminate.
    + exists k. exact Hx.
    + exfalso.
      assert (Hlt : (x < Py.half)%Qc).
      { rewrite Hx. unfold Qclt, Qcmult, Q2Qc; cbn [Qcanon.this].
        rewrite Qred_correct, of_Z_this. unfold Py.half; cbn [Qcanon.this Q2Qc].
        rewrite !Qred_correct. unfold Qlt; cbn. lia. }
      apply ltb_lt in Hlt. congruence.
  - intros [k ->]. apply orb_false_iff. split.
    + apply negb_false_iff. apply CplxFacts.Qc_eq_bool_iff.
      unfold Py.mod_. rewrite div_half, two_half_integer, floor_of_Z.
      unfold half_integer. ring.
    + destruct (Py.ltb (half_integer k) Py.half) eqn:E; [|reflexivity].
      exfalso. apply ltb_lt in E. unfold half_integer in E.
      revert E. unfold Qclt, Qcmult, Q2Qc; cbn [Qcanon.this].
      rewrite Qred_correct, of_Z_this. unfold Py.half; cbn [Qcanon.this Q2Qc].
      rewrite !Qred_correct. unfold Qlt; cbn. lia.
Qed.

Lemma half_plus_half : Qcplus Py.half Py.half = Q2Qc 1.
Proof. apply Qc_is_canon. reflexivity. Qed.

Lemma half_integer_double (k : positive) :
  Qcplus (half_integer k) (half_integer k) = Py.of_Z (Zpos k).
Proof.
  unfold half_integer.
  transitivity (Qcmult (Qcplus Py.half Py.half) (Py.of_Z (Z.pos k))); [ring|].
  rewrite half_plus_half. ring.
Qed.

Lemma of_Z_pos_ne_0 (k : positive) : Py.of_Z (Zpos k) <> Q2Qc 0.
Proof. rewrite zero_of_Z. intros H. apply of_Z_inj in H. discriminate. Qed.

Lemma spin_dim_half_integer (k : positive) :
  spin_dim (half_integer k) = (Zpos k + 1)%Z.
Proof.
  unfold spin_dim. rewrite two_half_integer, one_of_Z, <- of_Z_add.
  apply int_of_Z.
Qed.

Lemma spin_mvals_half_integer (k : positive) :
  spin_mvals (half_integer k) = descending (half_integer k) (S (Pos.to_nat k)).
Proof.
  unfold spin_mvals, Real.linspace. rewrite spin_dim_half_integer.
  replace (Z.to_nat (Z.pos k + 1)) with (S (Pos.to_nat k)) by lia.
  destruct (Pos.to_nat k) as [|n'] eqn:Hk; [lia|].
  assert (Hn : Py.of_nat (S n') = Py.of_Z (Zpos k)).
  { unfold Py.of_nat. f_equal. lia. }
  unfold descending. rewrite (seq_S (S n')), map_app. cbn [map Nat.add].
  f_equal.
  - apply map_ext; intros i. rewrite Hn.
    rewrite <- (half_integer_double k) at 1.
    field. rewrite half_integer_double. apply of_Z_pos_ne_0.
  - f_equal. rewrite Hn, <- (half_integer_double k). ring.
Qed.

Lemma length_descending (x : Qc) (n : nat) : length (descending x n) = n.
Proof. unfold descending. rewrite length_map, length_seq. reflexivity. Qed.

(** ** Shapes *)

Lemma has_shape_map_seq (f : nat -> nat -> C) (n m : nat) :
  has_shape n m (map (fun i => map (f i) (seq 0 m)) (seq 0 n)).
Proof.
  split; [rewrite length_map, length_seq; reflexivity|].
  apply Forall_forall; intros r Hr. apply in_map_iff in Hr as [i [<- _]].
  rewrite length_map, length_seq; reflexivity.
Qed.

Lemma has_shape_diag_k (v : vector) (k : nat) :
  has_shape (length v + k) (length v + k) (Np.diag_k v k).
Proof. apply has_shape_map_seq. Qed.

Lemma has_shape_eye (n : nat) : has_shape n n (Np.eye n).
Proof. apply has_shape_map_seq. Qed.

Lemma has_shape_ncols (n m : nat) (A : matrix) :
  has_shape n m A -> (0 < n)%nat -> Np.ncols A = m.
Proof.
  intros [Hn Hr] Hpos. unfold Np.ncols.
  destruct A as [|r A]; [cbn in Hn; lia|].
  inversion Hr as [|? ? Hlen _]. exact Hlen.
Qed.

Lemma has_shape_transpose (n m : nat) (A : matrix) :
  has_shape n m A -> (0 < n)%nat -> has_shape m n (Np.transpose A).
Proof.
  intros H Hpos. unfold Np.transpose. rewrite (has_shape_ncols H Hpos).
  split; [rewrite length_map, length_seq; reflexivity|].
  apply Forall_forall; intros r Hr. apply in_map_iff in Hr as [j [<- _]].
  unfold Np.column. rewrite length_map. apply H.
Qed.

Lemma length_map2 {A B D} (f : A -> B -> D) (l : list A) (m : list B) :
  length (map2 f l m) = Nat.min (length l) (length m).
Proof.
  revert m; induction l as [|a l IH]; intros [|b m]; cbn; try reflexivity.
  rewrite IH; reflexivity.
Qed.

Lemma has_shape_map2 (f : C -> C -> C) (n m : nat) (A B : matrix) :
  has_shape n m A -> has_shape n m B -> has_shape n m (map2 (map2 f) A B).
Proof.
  intros [HA HrA] [HB HrB]. split.
  - rewrite length_map2. lia.
  - clear HA HB. revert B HrB. induction HrA as [|r A Hr HrA IH]; intros [|s B] HsB;
      cbn; constructor.
    + inversion HsB; subst. rewrite length_map2. lia.
    + inversion HsB; subst. apply IH; assumption.
Qed.

Lemma has_shape_map_map (f : C -> C) (n m : nat) (A : matrix) :
  has_shape n m A -> has_shape n m (map (map f) A).
Proof.
  intros [HA Hr]. split; [rewrite length_map; exact HA|].
  apply Forall_forall; intros r H. apply in_map_iff in H as [r' [<- Hin]].
  rewrite length_map. rewrite Forall_forall in Hr. apply Hr, Hin.
Qed.

Lemma length_flat_map_const {A B} (f : A -> list B) (l : list A) (n : nat) :
  (forall a, In a l -> length (f a) = n) -> length (flat_map f l) = (length l * n)%nat.
Proof.
  induction l as [|a l IH]; intros H; cbn; [reflexivity|].
  rewrite length_app, H by (cbn; auto).
  rewrite IH by (intros; apply H; cbn; auto). reflexivity.
Qed.

Lemma has_shape_kron (n m p q : nat) (A B : matrix) :
  has_shape n m A -> has_shape p q B -> has_shape (n * p) (m * q) (Np.kron A B).
Proof.
  intros [HA HrA] [HB HrB]. unfold Np.kron. split.
  - rewrite (@length_flat_map_const _ _ _ A p), HA; [reflexivity|].
    intros; rewrite length_map; exact HB.
  - apply Forall_forall; intros r Hr.
    apply in_flat_map in Hr as [ra [Hra Hr]].
    apply in_map_iff in Hr as [rb [<- Hrb]].
    rewrite Forall_forall in HrA, HrB. unfold Np.kron_row.
    rewrite (@length_flat_map_const _ _ _ ra q), (HrA _ Hra); [reflexivity|].
    intros; rewrite length_map; apply HrB, Hrb.
Qed.

(** ** The constructor of Operator on a well-shaped matrix *)

Lemma array2_ok (n m : nat) (A : matrix) :
  has_shape n m A -> (0 < n)%nat -> Np.array2 A = Ok A.
Proof.
  intros H Hpos. unfold Np.array2.
  assert (Hr : Np.rectangular A = true); [|rewrite Hr].
  2:{ destruct A; [destruct H as [H _]; cbn in H; lia | reflexivity]. }
  unfold Np.rectangular. apply forallb_forall; intros r' Hr'.
  rewrite (has_shape_ncols H Hpos). apply Nat.eqb_eq.
  destruct H as [_ H]. rewrite Forall_forall in H. apply H, Hr'.
Qed.

Lemma Operator_init_ok (c : pyclass) (n : nat) (A : matrix) (d : list Z) :
  has_shape n n A -> (0 < n)%nat -> Np.prod d = Z.of_nat n ->
  Operator_init c A (Some d) = Ok (mkOperator c d A).
Proof.
  intros H Hpos Hd. unfold Operator_init.
  rewrite (array2_ok H Hpos). cbn [bind].
  rewrite (has_shape_ncols H Hpos). unfold Np.nrows.
  destruct H as [Hn _]. rewrite Hn, Nat.eqb_refl. cbn [negb].
  rewrite Hd, Z.eqb_refl. reflexivity.
Qed.

Lemma Operator_init_default_ok (c : pyclass) (n : nat) (A : matrix) :
  has_shape n n A -> (0 < n)%nat ->
  Operator_init c A None = Ok (mkOperator c [Z.of_nat n] A).
Proof.
  intros H Hpos. unfold Operator_init.
  rewrite (array2_ok H Hpos). cbn [bind].
  rewrite (has_shape_ncols H Hpos). unfold Np.nrows.
  destruct H as [Hn _]. rewrite Hn, Nat.eqb_refl. reflexivity.
Qed.

(** ** Shapes of the single-spin matrices *)

Lemma length_cumsum_from (acc : Qc) (v : rvector) :
  length (Real.cumsum_from acc v) = length v.
Proof.
  revert acc; induction v as [|x v IH]; intros acc; cbn; [reflexivity|].
  rewrite IH; reflexivity.
Qed.

Lemma length_removelast {A} (l : list A) : length (removelast l) = pred (length l).
Proof.
  rewrite removelast_firstn_len, length_firstn. lia.
Qed.

Section SpinShapes.

Variable sqrt : Qc -> Qc.
Variable mvals : rvector.
Hypothesis mvals_nonempty : (0 < length mvals)%nat.

Lemma has_shape_Sp : has_shape (length mvals) (length mvals) (_Sp sqrt mvals).
Proof.
  unfold _Sp.
  match goal with |- has_shape _ _ (Np.diag_k ?v 1) =>
    replace (length mvals) with (length v + 1)%nat; [apply has_shape_diag_k|]
  end.
  unfold to_complex, Real.drop_last, Real.cumsum.
  rewrite !length_map, length_removelast, length_cumsum_from, length_map. lia.
Qed.

Lemma has_shape_Sm : has_shape (length mvals) (length mvals) (_Sm sqrt mvals).
Proof. apply has_shape_transpose; [apply has_shape_Sp | assumption]. Qed.

Lemma has_shape_Sx : has_shape (length mvals) (length mvals) (_Sx sqrt mvals).
Proof.
  apply has_shape_map2; [apply has_shape_Sp | apply has_shape_Sm].
Qed.

Lemma has_shape_Sy : has_shape (length mvals) (length mvals) (_Sy sqrt mvals).
Proof.
  apply has_shape_map_map, has_shape_map2; [apply has_shape_Sm | apply has_shape_Sp].
Qed.

Lemma has_shape_Sz : has_shape (length mvals) (length mvals) (_Sz mvals).
Proof.
  unfold _Sz.
  replace (length mvals) with (length (to_complex mvals) + 0)%nat;
    [apply has_shape_diag_k|].
  unfold to_complex. rewrite length_map. lia.
Qed.

Lemma has_shape_S0 : has_shape (length mvals) (length mvals) (_S0 mvals).
Proof. apply has_shape_eye. Qed.

Lemma axis_table_shape (axis : string) (f : rvector -> matrix) :
  axis_table sqrt axis = Some f ->
  has_shape (length mvals) (length mvals) (f mvals).
Proof.
  unfold axis_table. intros H.
  repeat match type of H with
  | (if ?b then _ else _) = _ => destruct b
  end; try discriminate; injection H as <-.
  - apply has_shape_Sx.
  - apply has_shape_Sy.
  - apply has_shape_Sz.
  - apply has_shape_Sp.
  - apply has_shape_Sm.
  - apply has_shape_S0.
Qed.

End SpinShapes.

Lemma spin_axes_table (sqrt : Qc -> Qc) (axis : string) :
  In axis spin_axes ->
  Py.contains "xyz+-0" axis = true /\ exists f, axis_table sqrt axis = Some f.
Proof.
  intros H. cbn in H.
  repeat (destruct H as [<- | H]; [split; [reflexivity | eexists; reflexivity]|]).
  contradiction.
Qed.

Lemma length_spin_mvals (k : positive) :
  length (spin_mvals (half_integer k)) = S (Pos.to_nat k).
Proof. rewrite spin_mvals_half_integer. apply length_descending. Qed.

(** ** from_axes on one spin *)

Lemma from_axes_factor_valid (sqrt : Qc -> Qc) (k : positive) (axis : string)
  (f : rvector -> matrix) :
  Py.contains "xyz+-0" axis = true -> axis_table sqrt axis = Some f ->
  from_axes_factor sqrt (half_integer k) axis = Ok (f (spin_mvals (half_integer k))).
Proof.
  intros Hc Ht. unfold from_axes_factor.
  rewrite (proj2 (invalid_spin_iff _)) by (exists k; reflexivity).
  rewrite Hc, Ht. reflexivity.
Qed.

Lemma from_axes_factor_invalid (sqrt : Qc -> Qc) (x : Qc) (axis : string) :
  (~ exists k, x = half_integer k) ->
  from_axes_factor sqrt x axis = Raise (InvalidSpin x).
Proof.
  intros H. unfold from_axes_factor.
  destruct (invalid_spin x) eqn:E; [reflexivity|].
  exfalso. apply H, invalid_spin_iff, E.
Qed.

Lemma from_axes1_valid (sqrt : Qc -> Qc) (k : positive) (axis : string)
  (f : rvector -> matrix) :
  Py.contains "xyz+-0" axis = true -> axis_table sqrt axis = Some f ->
  from_axes1 sqrt (half_integer k) axis
  = Ok (mkOperator ClsSpinOperator [(Zpos k + 1)%Z] (f (spin_mvals (half_integer k)))).
Proof.
  intros Hc Ht. unfold from_axes1, from_axes. cbn [length Nat.eqb negb orb].
  cbn [from_axes_loop]. rewrite (@from_axes_factor_valid sqrt k axis f Hc Ht). cbn [bind kron_all fold_left map].
  rewrite spin_dim_half_integer.
  apply Operator_init_ok with (n := S (Pos.to_nat k)).
  - rewrite <- (length_spin_mvals k).
    apply (@axis_table_shape sqrt (spin_mvals (half_integer k))) with (axis := axis);
      [|exact Ht].
    rewrite length_spin_mvals. lia.
  - lia.
  - cbn. lia.
Qed.

Lemma scale_lscale (A : matrix) (x : C) : Np.scale A x = Np.lscale x A.
Proof.
  unfold Np.scale, Np.lscale. apply map_ext; intros r.
  apply map_ext; intros a. apply CplxFacts.mul_comm.
Qed.

Lemma nth_map_seq {A} (f : nat -> A) (s n i : nat) (d : A) :
  (i < n)%nat -> nth i (map f (seq s n)) d = f (s + i)%nat.
Proof.
  intros H.
  rewrite nth_indep with (d' := f 0%nat) by (rewrite length_map, length_seq; exact H).
  rewrite map_nth, seq_nth by exact H. reflexivity.
Qed.

Lemma diagonal_from_map_seq (g : nat -> nat -> C) (n m s : nat) :
  (s + m <= n)%nat ->
  Np.diagonal_from s (map (fun i => map (g i) (seq 0 n)) (seq s m))
  = map (fun i => g i i) (seq s m).
Proof.
  revert s; induction m as [|m IH]; intros s H; cbn; [reflexivity|].
  f_equal.
  - rewrite nth_map_seq by lia. reflexivity.
  - apply IH. lia.
Qed.

Lemma diagonal_diag_k_0 (v : vector) : Np.diagonal (Np.diag_k v 0) = v.
Proof.
  unfold Np.diagonal, Np.diag_k. rewrite diagonal_from_map_seq by lia.
  rewrite Nat.add_0_r.
  apply nth_ext with (d := Cplx.zero) (d' := Cplx.zero).
  - rewrite length_map, length_seq. reflexivity.
  - intros i Hi. rewrite length_map, length_seq in Hi.
    rewrite nth_map_seq by exact Hi. cbn [Nat.add].
    rewrite Nat.add_0_r, Nat.eqb_refl. reflexivity.
Qed.

(** ** The algebra of the single-spin operators *)

(** C9.  For every valid spin value [k/2] the five single-spin operators
    are built, and: the matrix of ['-'] is the transpose of the matrix of
    ['+']; ['x'] is the Operator sum ['+' + '-']; ['y'] is [1j * ('-' - '+')];
    ['z'] is the diagonal matrix of the [m] values [I, I-1, ..., -I]. *)
Theorem spin_operator_algebra (sqrt : Qc -> Qc) (k : positive) :
  let I_ := half_integer k in
  exists Sp Sm Sx Sy Sz : Operator,
    from_axes1 sqrt I_ "+" = Ok Sp
    /\ from_axes1 sqrt I_ "-" = Ok Sm
    /\ from_axes1 sqrt I_ "x" = Ok Sx
    /\ from_axes1 sqrt I_ "y" = Ok Sy
    /\ from_axes1 sqrt I_ "z" = Ok Sz
    /\ _matrix Sm = Np.transpose (_matrix Sp)
    /\ Operator_add Sp (PyOp Sm) = Ok Sx
    /\ (d <- Operator_sub Sm (PyOp Sp) ;; Operator_rmul d (PyNum Cplx.imag_unit)) = Ok Sy
    /\ _matrix Sz = Np.diag_k (to_complex (descending I_ (S (Pos.to_nat k)))) 0
    /\ Np.diagonal (_matrix Sz) = to_complex (descending I_ (S (Pos.to_nat k)))
    /\ hd (Q2Qc 0) (descending I_ (S (Pos.to_nat k))) = I_
    /\ last (descending I_ (S (Pos.to_nat k))) (Q2Qc 0) = Qcopp I_.
Proof.
  intros I_.
  pose (mvals := spin_mvals I_).
  exists (mkOperator ClsSpinOperator [(Zpos k + 1)%Z] (_Sp sqrt mvals)),
         (mkOperator ClsSpinOperator [(Zpos k + 1)%Z] (_Sm sqrt mvals)),
         (mkOperator ClsSpinOperator [(Zpos k + 1)%Z] (_Sx sqrt mvals)),
         (mkOperator ClsSpinOperator [(Zpos k + 1)%Z] (_Sy sqrt mvals)),
         (mkOperator ClsSpinOperator [(Zpos k + 1)%Z] (_Sz mvals)).
  repeat match goal with |- from_axes1 _ _ _ = _ /\ _ =>
    split; [apply from_axes1_valid; reflexivity|] end.
  split; [reflexivity|].
  split; [unfold Operator_add, dimension; cbn [_dim]; rewrite dims_eqb_refl; reflexivity|].
  split.
  { unfold Operator_sub, dimension; cbn [_dim]. rewrite dims_eqb_refl.
    cbn [negb bind Operator_rmul Operator_mul clone with_matrix op_class _dim _matrix].
    rewrite scale_lscale. reflexivity. }
  cbn [_matrix]. unfold mvals, I_. rewrite spin_mvals_half_integer.
  split; [reflexivity|]. split; [apply diagonal_diag_k_0|].
  split.
  - unfold descending. cbn [seq map hd]. unfold Py.of_nat.
    change (Py.of_Z (Z.of_nat 0)) with (Py.of_Z 0). rewrite <- zero_of_Z. ring.
  - unfold descending. rewrite seq_S, map_app. cbn [map Nat.add].
    rewrite last_last.
    replace (Py.of_nat (Pos.to_nat k)) with (Py.of_Z (Zpos k))
      by (unfold Py.of_nat; f_equal; lia).
    rewrite <- half_integer_double. ring.
Qed.

(** ** from_axes on a list of spins *)

Lemma has_shape_fold_kron (rest : list matrix) (M : matrix) (n : nat) (sizes : list nat) :
  has_shape n n M -> Forall2 (fun s A => has_shape s s A) sizes rest ->
  has_shape (fold_left Nat.mul sizes n) (fold_left Nat.mul sizes n)
            (fold_left Np.kron rest M).
Proof.
  intros HM H; revert M n HM.
  induction H as [|s A sizes rest HA H IH]; intros M n HM; cbn [fold_left].
  - exact HM.
  - apply IH. apply has_shape_kron; assumption.
Qed.

Lemma fold_mul_pos (sizes : list nat) (n : nat) :
  (0 < n)%nat -> Forall (fun s => 0 < s)%nat sizes -> (0 < fold_left Nat.mul sizes n)%nat.
Proof.
  intros Hn H; revert n Hn. induction H as [|s sizes Hs H IH]; intros n Hn; cbn.
  - exact Hn.
  - apply IH. nia.
Qed.

Lemma prod_fold (d : list Z) (sizes : list nat) (n : nat) :
  Forall2 (fun z s => z = Z.of_nat s) d sizes ->
  (Z.of_nat n * Np.prod d)%Z = Z.of_nat (fold_left Nat.mul sizes n).
Proof.
  intros H; revert n. induction H as [|z s d sizes Hz H IH]; intros n; cbn.
  - lia.
  - rewrite <- IH. subst z. rewrite Nat2Z.inj_mul. unfold Np.prod.
    apply Z.mul_assoc.
Qed.

Lemma from_axes_loop_valid (sqrt : Qc -> Qc) (Is : list Qc) (axes : list string) :
  length Is = length axes ->
  Forall (fun a => In a spin_axes) axes ->
  Forall positive_half_integer Is ->
  exists Ms, from_axes_loop sqrt Is axes = Ok Ms
             /\ Forall2 (fun s A => has_shape s s A) (map spin_size Is) Ms.
Proof.
  revert axes; induction Is as [|x Is IH]; intros [|a axes] Hl Ha Hv;
    try discriminate; cbn [from_axes_loop map].
  - exists []. split; [reflexivity | constructor].
  - inversion Ha as [|? ? Ha1 Ha2]; inversion Hv as [|? ? [k Hk] Hv2]; subst.
    destruct (@spin_axes_table sqrt a Ha1) as [Hc [f Hf]].
    rewrite (@from_axes_factor_valid sqrt k a f Hc Hf). cbn [bind].
    destruct (IH axes) as [Ms [-> HMs]]; [cbn in Hl; lia | assumption | assumption |].
    cbn [bind]. eexists. split; [reflexivity|]. constructor; [|exact HMs].
    unfold spin_size. rewrite spin_dim_half_integer.
    replace (Z.to_nat (Z.pos k + 1)) with (S (Pos.to_nat k)) by lia.
    rewrite <- (length_spin_mvals k).
    apply (@axis_table_shape sqrt (spin_mvals (half_integer k))) with (axis := a);
      [rewrite length_spin_mvals; lia | exact Hf].
Qed.

Lemma from_axes_loop_invalid (sqrt : Qc -> Qc) (Is : list Qc) (axes : list string) :
  length Is = length axes ->
  Forall (fun a => In a spin_axes) axes ->
  Exists (fun x => ~ positive_half_integer x) Is ->
  exists x, In x Is /\ ~ positive_half_integer x
            /\ from_axes_loop sqrt Is axes = Raise (InvalidSpin x).
Proof.
  revert axes; induction Is as [|x Is IH]; intros [|a axes] Hl Ha Hx;
    try discriminate; [inversion Hx|].
  cbn [from_axes_loop].
  destruct (invalid_spin x) eqn:E.
  - exists x. split; [left; reflexivity|].
    assert (Hn : ~ positive_half_integer x).
    { intros H. apply invalid_spin_iff in H. congruence. }
    split; [exact Hn|]. rewrite (@from_axes_factor_invalid sqrt x a Hn). reflexivity.
  - apply invalid_spin_iff in E. destruct E as [k Hk]. subst x.
    inversion Ha as [|? ? Ha1 Ha2]; subst.
    destruct (@spin_axes_table sqrt a Ha1) as [Hc [f Hf]].
    rewrite (@from_axes_factor_valid sqrt k a f Hc Hf). cbn [bind].
    destruct (IH axes) as [y [Hy [Hny Hr]]].
    + cbn in Hl; lia.
    + assumption.
    + inversion Hx as [? ? Hh|? ? Ht]; subst; [|exact Ht].
      exfalso. apply Hh. exists k. reflexivity.
    + exists y. split; [right; exact Hy|]. split; [exact Hny|].
      rewrite Hr. reflexivity.
Qed.

Lemma spin_size_positive (x : Qc) : positive_half_integer x -> (0 < spin_size x)%nat.
Proof.
  intros [k ->]. unfold spin_size. rewrite spin_dim_half_integer. lia.
Qed.

Lemma spin_dim_size (x : Qc) :
  positive_half_integer x -> spin_dim x = Z.of_nat (spin_size x).
Proof.
  intros [k ->]. unfold spin_size. rewrite spin_dim_half_integer. lia.
Qed.

(** C6, as the code has it.  With as many valid axis labels as spins,
    [from_axes] builds a SpinOperator when every spin is [k/2] for an
    integer [k >= 1], and raises the ValueError naming a spin when some
    spin is anything else; the spin values 0.3 and 0 are refused. *)
Theorem from_axes_spin_validation (sqrt : Qc -> Qc) (Is : list Qc) (axes : list string) :
  length Is = length axes -> Is <> [] ->
  Forall (fun a => In a spin_axes) axes ->
  (Forall positive_half_integer Is ->
   exists op, from_axes sqrt Is axes = Ok op
              /\ op_class op = ClsSpinOperator
              /\ _dim op = map spin_dim Is
              /\ well_formed op = true)
  /\ (Exists (fun x => ~ positive_half_integer x) Is ->
      exists x, In x Is /\ ~ positive_half_integer x
                /\ from_axes sqrt Is axes = Raise (InvalidSpin x)
                /\ exc_class (InvalidSpin x) = ValueError)
  /\ (forall a, from_axes1 sqrt (Q2Qc (3 # 10)) a = Raise (InvalidSpin (Q2Qc (3 # 10))))
  /\ (forall a, from_axes1 sqrt (Q2Qc 0) a = Raise (InvalidSpin (Q2Qc 0))).
Proof.
  intros Hl Hne Ha.
  assert (Hguard : negb (Nat.eqb (length Is) (length axes)) || Nat.eqb (length Is) 0 = false).
  { rewrite Hl, Nat.eqb_refl. cbn. destruct Is; [congruence|]. rewrite <- Hl. reflexivity. }
  split; [|split; [|split]].
  - intros Hv. unfold from_axes. rewrite Hguard.
    destruct (@from_axes_loop_valid sqrt Is axes Hl Ha Hv) as [Ms [-> HMs]]. cbn [bind].
    destruct Is as [|x Is]; [congruence|].
    inversion HMs as [|s M sizes rest HM Hrest]; subst.
    inversion Hv as [|? ? Hx Hv']; subst.
    cbn [kron_all].
    pose proof (@has_shape_fold_kron _ _ _ _ HM Hrest) as Hshape.
    assert (Hpos : (0 < fold_left Nat.mul (map spin_size Is) (spin_size x))%nat).
    { apply fold_mul_pos; [apply spin_size_positive, Hx|].
      apply Forall_map. revert Hv'. apply Forall_impl. apply spin_size_positive. }
    assert (Hprod : Np.prod (map spin_dim (x :: Is))
                    = Z.of_nat (fold_left Nat.mul (map spin_size Is) (spin_size x))).
    { cbn [map Np.prod fold_right]. rewrite (spin_dim_size Hx).
      apply prod_fold. clear - Hv'.
      induction Hv' as [|y Is Hy Hv' IH]; cbn; constructor; auto using spin_dim_size. }
    rewrite (@Operator_init_ok ClsSpinOperator _ _ _ Hshape Hpos Hprod).
    eexists. split; [reflexivity|]. split; [reflexivity|]. split; [reflexivity|].
    unfold well_formed; cbn [_matrix _dim].
    apply andb_true_iff. split.
    + unfold Np.is_square. apply forallb_forall. intros r Hr.
      destruct Hshape as [Hn Hrows]. rewrite Forall_forall in Hrows.
      unfold Np.nrows. rewrite Hn. apply Nat.eqb_eq, Hrows, Hr.
    + apply Z.eqb_eq. unfold Np.nrows. destruct Hshape as [-> _]. exact Hprod.
  - intros Hx. unfold from_axes. rewrite Hguard.
    destruct (@from_axes_loop_invalid sqrt Is axes Hl Ha Hx) as [x [Hin [Hn Hr]]].
    exists x. rewrite Hr. repeat split; assumption.
  - intros a. reflexivity.
  - intros a. reflexivity.
Qed.

Lemma from_axes_spin_validation_witness :
  exists op, from_axes Standin.sqrt [half_integer 1; half_integer 2] ["z"; "0"]%string = Ok op
             /\ op_class op = ClsSpinOperator
             /\ _dim op = map spin_dim [half_integer 1; half_integer 2]
             /\ well_formed op = true.
Proof.
  refine (proj1 (@from_axes_spin_validation Standin.sqrt
                   [half_integer 1; half_integer 2] ["z"; "0"]%string _ _ _) _).
  - reflexivity.
  - discriminate.
  - apply Forall_forall. intros a [<-|[<-|[]]]; cbn; tauto.
  - apply Forall_forall. intros x [<-|[<-|[]]]; eexists; reflexivity.
Defined.

(** The claim as the specification words it fails at spin 0, which is a
    non-negative multiple of one half. *)
Lemma from_axes_rejects_spin_zero :
  Q2Qc 0 = Qcmult Py.half (Py.of_Z 0)
  /\ from_axes1 Standin.sqrt (Q2Qc 0) "x" = Raise (InvalidSpin (Q2Qc 0)).
Proof.
  split; [apply Qc_is_canon; reflexivity | reflexivity].
Qed.

(** ** Evaluation on concrete inputs *)

Lemma Ok_operator_eq (c : pyclass) (d : list Z) (M M' : matrix) :
  Np.all_eq M M' = true -> Ok (mkOperator c d M) = Ok (mkOperator c d M').
Proof. intros H. apply all_eq_eq in H. subst. reflexivity. Qed.

Lemma Ok_scalar_eq (z z' : C) : Cplx.eqb z z' = true -> Ok z = Ok z'.
Proof. intros H. apply CplxFacts.eqb_eq in H. subst. reflexivity. Qed.

(** Runs a call that returns an Operator and compares the matrices entry
    by entry. *)
Ltac run_operator :=
  match goal with
  | |- ?lhs = Ok (mkOperator _ _ _) =>
      let v := eval vm_compute in lhs in
      transitivity v;
      [vm_compute; reflexivity | apply Ok_operator_eq; vm_compute; reflexivity]
  end.

Ltac run_scalar :=
  match goal with
  | |- ?lhs = Ok _ =>
      let v := eval vm_compute in lhs in
      transitivity v;
      [vm_compute; reflexivity | apply Ok_scalar_eq; vm_compute; reflexivity]
  end.

Ltac Qc_neq := let H := fresh in
  intros H; apply (f_equal Qcanon.this) in H; vm_compute in H; discriminate H.

(** ** The constructor of DensityOperator on anti-Hermitian input *)

(** C1, at two inputs.  Both matrices are anti-Hermitian with a non-zero
    trace.  The constructor divides by the (imaginary) trace first and
    tests Hermiticity afterwards, on the quotient, which is Hermitian: it
    returns a DensityOperator and raises nothing. *)
Theorem DensityOperator_accepts_antihermitian :
  Np.transpose (Np.conj Inputs.antihermitian1)
    = map (map Cplx.opp) Inputs.antihermitian1
  /\ Np.trace Inputs.antihermitian1 <> Cplx.zero
  /\ DensityOperator_init Inputs.antihermitian1 None
     = Ok (mkOperator ClsDensityOperator [1%Z] [[Inputs.r 1 1]])
  /\ Np.transpose (Np.conj Inputs.antihermitian2)
     = map (map Cplx.opp) Inputs.antihermitian2
  /\ Np.trace Inputs.antihermitian2 <> Cplx.zero
  /\ DensityOperator_init Inputs.antihermitian2 None
     = Ok (mkOperator ClsDensityOperator [2%Z]
             [[Inputs.r 1 4; Inputs.i (-1) 4];
              [Inputs.i 1 4; Inputs.r 3 4]]).
Proof.
  refine (conj _ (conj _ (conj _ (conj _ (conj _ _))))).
  - apply all_eq_eq. vm_compute. reflexivity.
  - intros H. apply CplxFacts.eqb_eq in H. vm_compute in H. discriminate.
  - run_operator.
  - apply all_eq_eq. vm_compute. reflexivity.
  - intros H. apply CplxFacts.eqb_eq in H. vm_compute in H. discriminate.
  - run_operator.
Qed.

(** ** partial_trace *)

(** C3, at one input.  The state is a DensityOperator of trace 1 over two
    spins 1/2.  Tracing over subsystem 0 keeps the dimension tuple [(2,)],
    but the sum runs over every pair of row and column index of the traced
    subsystem, not over the equal pairs only, and nothing normalises the
    result: its matrix is the identity, of trace 2. *)
Theorem partial_trace_trace_two :
  let rho := mkOperator ClsDensityOperator [2; 2]%Z Inputs.rho_x_mixed in
  let ans := mkOperator ClsDensityOperator [2%Z]
               [[Inputs.r 1 1; Inputs.r 0 1]; [Inputs.r 0 1; Inputs.r 1 1]] in
  DensityOperator_init Inputs.rho_x_mixed (Some [2; 2]%Z) = Ok rho
  /\ trace rho = Cplx.one
  /\ partial_trace rho [0%Z] = Ok ans
  /\ trace ans = Inputs.r 2 1
  /\ trace ans <> Cplx.one.
Proof.
  intros rho ans.
  split; [unfold rho; run_operator|].
  split; [apply CplxFacts.eqb_eq; vm_compute; reflexivity|].
  split; [unfold rho, ans; run_operator|].
  split; [apply CplxFacts.eqb_eq; vm_compute; reflexivity|].
  intros H. apply CplxFacts.eqb_eq in H. vm_compute in H. discriminate.
Qed.

(** Tracing over both subsystems of the same state does not return: the
    extent [np.prod(())] handed to [reshape] is a float. *)
Remark partial_trace_over_all_raises :
  partial_trace (mkOperator ClsDensityOperator [2; 2]%Z Inputs.rho_x_mixed) [0; 1]%Z
  = Raise ReshapeTypeError.
Proof. vm_compute. reflexivity. Qed.

(** Whenever [partial_trace] returns, the result is of class
    DensityOperator and its dimension tuple lists the subsystems that were
    not named, in their order. *)
Lemma partial_trace_dimension (self ans : Operator) (tracedim : list Z) :
  partial_trace self tracedim = Ok ans ->
  op_class ans = ClsDensityOperator
  /\ _dim ans = remaining_dim tracedim (_dim self).
Proof.
  unfold partial_trace. intros H.
  destruct (negb (Nat.eqb _ _)); [discriminate|].
  destruct (Tensor.normalize_axes _ _) as [axes|]; [|discriminate].
  destruct (negb (Tensor.distinct axes)); [discriminate|].
  destruct (remaining_dim tracedim (_dim self)) as [|d ds]; [discriminate|].
  destruct (negb _ || _); [discriminate|].
  injection H as <-. split; reflexivity.
Qed.

(** ** expectation keeps the imaginary part *)

(** The claim C2 as the specification words it (a real scalar, the
    imaginary part discarded) fails: for the [y]-polarised spin 1/2 and the
    raising operator the value returned is [i/4]. *)
Lemma expectation_returns_imaginary :
  let rho := mkOperator ClsDensityOperator [2%Z] Inputs.rho_y in
  let op := mkOperator ClsSpinOperator [2%Z]
              [[Inputs.r 0 1; Inputs.r 1 2]; [Inputs.r 0 1; Inputs.r 0 1]] in
  DensityOperator_init Inputs.rho_y None = Ok rho
  /\ from_axes1 Standin.sqrt Py.half "+" = Ok op
  /\ dimension op = dimension rho
  /\ expectation rho (PyOp op) = Ok (Inputs.i 1 4)
  /\ Cplx.im (Inputs.i 1 4) <> Q2Qc 0.
Proof.
  intros rho op.
  split; [unfold rho; run_operator|]. split; [unfold op; run_operator|].
  split; [reflexivity|].
  split; [unfold rho, op; run_scalar | Qc_neq].
Qed.

Lemma expectation_value_witness :
  expectation (mkOperator ClsDensityOperator [2%Z] Inputs.rho_y)
              (PyOp (mkOperator ClsSpinOperator [2%Z] (Np.eye 2)))
  = Ok (Np.trace (Np.dot (Np.eye 2) Inputs.rho_y)).
Proof.
  refine (proj2 (proj2 (@expectation_value
                          (mkOperator ClsDensityOperator [2%Z] Inputs.rho_y)
                          (mkOperator ClsSpinOperator [2%Z] (Np.eye 2)) _) _ _ _));
    reflexivity.
Defined.

(** ** Weighted averages *)

Lemma re_vsum (v : vector) : Cplx.re (Np.vsum v) = rsum (map Cplx.re v).
Proof.
  unfold Np.vsum, rsum.
  induction v as [|a v IH]; cbn; [reflexivity|]. rewrite IH. reflexivity.
Qed.






Lemma vsum_scaled (c : C) (v : vector) :
  Np.vsum (map (Cplx.mul c) v) = Cplx.mul c (Np.vsum v).
Proof.
  unfold Np.vsum.
  induction v as [|a v IH]; cbn [map fold_right]; [symmetry; apply CplxFacts.mul_zero_r|].
  rewrite IH. symmetry. apply CplxFacts.mul_add_distr_l.
Qed.







(** ** run_experiment *)

Section RunExperiment.

Variables cos sin : Qc -> Qc.
Variable MU_TAU : Qc.
Variable Hamiltonian : Type.
Variable H_scale : Hamiltonian -> Qc -> Hamiltonian.
Variable H_add : Hamiltonian -> Hamiltonian -> Hamiltonian.
Variable rotated_hamiltonian : MuonSpinSystem -> rotmat -> Hamiltonian.
Variable evolve : Hamiltonian -> Operator -> list Qc -> list Operator -> vector.
Variable integrate_decaying : Hamiltonian -> Operator -> Qc -> list Operator -> vector.

Let experiment := MuonExperiment Hamiltonian.

Let data_e := evolution_data cos sin H_scale H_add rotated_hamiltonian evolve.
Let data_i := integral_data cos sin MU_TAU H_scale H_add rotated_hamiltonian
                            integrate_decaying.






End RunExperiment.

(** ** Entries *)

Lemma matrix_ext (n m : nat) (A B : matrix) :
  has_shape n m A -> has_shape n m B ->
  (forall i j, (i < n)%nat -> (j < m)%nat -> entry A i j = entry B i j) ->
  A = B.
Proof.
  intros [HA HrA] [HB HrB] H.
  apply nth_ext with (d := []) (d' := []); [congruence|].
  intros i Hi. rewrite HA in Hi.
  rewrite Forall_forall in HrA, HrB.
  assert (HlA : length (nth i A []) = m) by (apply HrA, nth_In; lia).
  assert (HlB : length (nth i B []) = m) by (apply HrB, nth_In; lia).
  apply nth_ext with (d := Cplx.zero) (d' := Cplx.zero); [congruence|].
  intros j Hj. apply H; lia.
Qed.

Lemma nth_map_in {A B} (f : A -> B) (l : list A) (j : nat) (d : A) (d' : B) :
  (j < length l)%nat -> nth j (map f l) d' = f (nth j l d).
Proof.
  intros H. rewrite nth_indep with (d' := f d) by (rewrite length_map; exact H).
  apply map_nth.
Qed.

Lemma has_shape_row (n m : nat) (A : matrix) (i : nat) :
  has_shape n m A -> (i < n)%nat -> length (nth i A []) = m.
Proof.
  intros [HA Hr] Hi. rewrite Forall_forall in Hr. apply Hr, nth_In. lia.
Qed.

Lemma entry_transpose (n m : nat) (A : matrix) (i j : nat) :
  has_shape n m A -> (i < m)%nat -> (j < n)%nat ->
  entry (Np.transpose A) i j = entry A j i.
Proof.
  intros H Hi Hj. unfold entry, Np.transpose.
  rewrite (@has_shape_ncols n m A H) by lia.
  rewrite nth_map_seq by exact Hi. cbn [Nat.add]. unfold Np.column.
  rewrite nth_map_in with (d := []) by (destruct H as [-> _]; exact Hj).
  reflexivity.
Qed.

Lemma entry_map_map (f : C -> C) (n m : nat) (A : matrix) (i j : nat) :
  has_shape n m A -> (i < n)%nat -> (j < m)%nat ->
  entry (map (map f) A) i j = f (entry A i j).
Proof.
  intros H Hi Hj. unfold entry.
  rewrite nth_map_in with (d := []) by (destruct H as [-> _]; exact Hi).
  apply nth_map_in. rewrite (has_shape_row H Hi). exact Hj.
Qed.

Lemma diagonal_from_entries (M : matrix) (s : nat) :
  Np.diagonal_from s M
  = map (fun i => nth (s + i) (nth i M []) Cplx.zero) (seq 0 (length M)).
Proof.
  revert s; induction M as [|r M IH]; intros s; [reflexivity|].
  cbn [Np.diagonal_from length seq map nth]. rewrite Nat.add_0_r. f_equal.
  rewrite IH, <- seq_shift, map_map. apply map_ext; intros i.
  rewrite Nat.add_succ_r. reflexivity.
Qed.

Lemma trace_entries (M : matrix) :
  Np.trace M = Np.vsum (map (fun i => entry M i i) (seq 0 (length M))).
Proof. unfold Np.trace, Np.diagonal. rewrite diagonal_from_entries. reflexivity. Qed.

(** ** Complex conjugation and division *)

Lemma Qc_sum_squares_0 (a b : Qc) :
  Qcplus (Qcmult a a) (Qcmult b b) = Q2Qc 0 -> a = Q2Qc 0 /\ b = Q2Qc 0.
Proof.
  intros H. apply (f_equal Qcanon.this) in H.
  unfold Qcplus, Qcmult, Q2Qc in H; cbn [Qcanon.this] in H.
  assert (H' : (a * a + b * b == 0)%Q).
  { rewrite <- (Qred_correct (a * a)), <- (Qred_correct (b * b)), <- Qred_correct.
    rewrite H. reflexivity. }
  split; apply Qc_is_canon; cbn [Qcanon.this Q2Qc]; rewrite Qred_correct; nra.
Qed.

Lemma norm2_ne_0 (z : C) : z <> Cplx.zero -> Cplx.norm2 z <> Q2Qc 0.
Proof.
  intros Hz H. apply Hz. apply Qc_sum_squares_0 in H as [Hr Hi].
  apply CplxFacts.ext; assumption.
Qed.

Lemma conj_zero : Cplx.conj Cplx.zero = Cplx.zero.
Proof. apply CplxFacts.ext; cbn; ring. Qed.

Lemma conj_add (a b : C) : Cplx.conj (Cplx.add a b) = Cplx.add (Cplx.conj a) (Cplx.conj b).
Proof. apply CplxFacts.ext; cbn; ring. Qed.

Lemma conj_mul (a b : C) : Cplx.conj (Cplx.mul a b) = Cplx.mul (Cplx.conj a) (Cplx.conj b).
Proof. apply CplxFacts.ext; cbn; ring. Qed.

Lemma norm2_conj (b : C) : Cplx.norm2 (Cplx.conj b) = Cplx.norm2 b.
Proof. unfold Cplx.norm2; cbn; ring. Qed.

Lemma conj_div (a b : C) : Cplx.conj (Cplx.div a b) = Cplx.div (Cplx.conj a) (Cplx.conj b).
Proof.
  unfold Cplx.div. rewrite norm2_conj. apply CplxFacts.ext; cbn [Cplx.re Cplx.im Cplx.conj];
    unfold Qcdiv; ring.
Qed.

Lemma conj_vsum (v : vector) : Cplx.conj (Np.vsum v) = Np.vsum (map Cplx.conj v).
Proof.
  unfold Np.vsum. induction v as [|a v IH]; cbn [map fold_right]; [apply conj_zero|].
  rewrite conj_add, IH. reflexivity.
Qed.

Lemma div_zero_l (b : C) : Cplx.div Cplx.zero b = Cplx.zero.
Proof.
  apply CplxFacts.ext; unfold Cplx.div, Cplx.zero, Cplx.of_Qc; cbn [Cplx.re Cplx.im];
    unfold Qcdiv; ring.
Qed.

Lemma div_one_r (a : C) : Cplx.div a Cplx.one = a.
Proof.
  apply CplxFacts.ext; unfold Cplx.div, Cplx.norm2, Cplx.one, Cplx.of_Qc; cbn [Cplx.re Cplx.im];
    field; intros H; discriminate H.
Qed.

Lemma div_twisted (s : Qc) (a t : C) :
  s <> Q2Qc 0 -> t <> Cplx.zero ->
  Cplx.div (Cplx.mul (Cplx.of_Qc s) a) (Cplx.mul (Cplx.of_Qc s) t) = Cplx.div a t.
Proof.
  intros Hs Ht. pose proof (norm2_ne_0 Ht) as Hn. unfold Cplx.norm2 in Hn.
  assert (Hst : Cplx.norm2 (Cplx.mul (Cplx.of_Qc s) t)
                = Qcmult (Qcmult s s) (Cplx.norm2 t)).
  { unfold Cplx.norm2, Cplx.mul, Cplx.of_Qc; cbn [Cplx.re Cplx.im]. ring. }
  unfold Cplx.div. rewrite Hst.
  apply CplxFacts.ext; unfold Cplx.norm2, Cplx.mul, Cplx.of_Qc; cbn [Cplx.re Cplx.im];
    field; repeat split; assumption.
Qed.

(** ** What the constructor of DensityOperator accepts *)

Lemma twisted_trace (s : Qc) (n : nat) (M : matrix) :
  length M = n -> twisted_hermitian s n M ->
  Cplx.conj (Np.trace M) = Cplx.mul (Cplx.of_Qc s) (Np.trace M).
Proof.
  intros Hn H. rewrite trace_entries, conj_vsum, <- vsum_scaled, !map_map.
  f_equal. apply map_ext_in. intros i Hi. apply in_seq in Hi.
  apply H; lia.
Qed.

(** Dividing a matrix with [conj(M[j][i]) = s * M[i][j]] by its trace gives
    a Hermitian matrix, whatever the non-zero real [s] is. *)
Lemma divide_by_trace_hermitian (s : Qc) (n : nat) (M : matrix) :
  has_shape n n M -> (0 < n)%nat -> twisted_hermitian s n M ->
  s <> Q2Qc 0 -> Np.trace M <> Cplx.zero ->
  Np.divide M (Np.trace M)
  = Np.transpose (Np.conj (Np.divide M (Np.trace M))).
Proof.
  intros Hsh Hpos Htw Hs Htr.
  set (t := Np.trace M).
  assert (Hd : has_shape n n (Np.divide M t)) by (apply has_shape_map_map, Hsh).
  assert (Hc : has_shape n n (Np.conj (Np.divide M t))) by (apply has_shape_map_map, Hd).
  apply matrix_ext with (n := n) (m := n);
    [exact Hd | apply has_shape_transpose; assumption |].
  intros i j Hi Hj.
  rewrite (entry_transpose Hc Hi Hj).
  unfold Np.conj, Np.divide.
  rewrite (entry_map_map _ Hd Hj Hi).
  unfold Np.divide. rewrite !(entry_map_map _ Hsh) by assumption.
  rewrite conj_div, (Htw i j Hi Hj).
  unfold t. rewrite (twisted_trace (proj1 Hsh) Htw).
  symmetry. apply div_twisted; assumption.
Qed.

Lemma eqb_false_ne (a b : C) : a <> b -> Cplx.eqb a b = false.
Proof.
  intros H. destruct (Cplx.eqb a b) eqn:E; [|reflexivity].
  apply CplxFacts.eqb_eq in E. contradiction.
Qed.

Lemma DensityOperator_init_twisted (s : Qc) (n : nat) (M : matrix) (d : option (list Z)) :
  has_shape n n M -> (0 < n)%nat ->
  match d with Some d => Np.prod d = Z.of_nat n | None => True end ->
  twisted_hermitian s n M -> s <> Q2Qc 0 -> Np.trace M <> Cplx.zero ->
  DensityOperator_init M d
  = Ok (mkOperator ClsDensityOperator
          (match d with Some d => d | None => [Z.of_nat n] end)
          (Np.divide M (Np.trace M))).
Proof.
  intros Hsh Hpos Hd Htw Hs Htr. unfold DensityOperator_init.
  assert (Hinit : Operator_init ClsDensityOperator M d
                  = Ok (mkOperator ClsDensityOperator
                          (match d with Some d => d | None => [Z.of_nat n] end) M)).
  { destruct d as [d|];
      [apply Operator_init_ok with (n := n) | apply Operator_init_default_ok];
      assumption. }
  rewrite Hinit. cbn [bind _matrix].
  rewrite (eqb_false_ne Htr).
  unfold is_hermitian, normalize, with_matrix, trace; cbn [_matrix op_class _dim].
  rewrite <- (divide_by_trace_hermitian Hsh Hpos Htw Hs Htr), all_eq_refl.
  reflexivity.
Qed.

(** Every anti-Hermitian matrix with a non-zero trace gets through the
    constructor: the Hermiticity test sees the matrix divided by its
    trace. *)
Lemma DensityOperator_init_antihermitian (n : nat) (M : matrix) :
  has_shape n n M -> (0 < n)%nat -> antihermitian n M -> Np.trace M <> Cplx.zero ->
  DensityOperator_init M None
  = Ok (mkOperator ClsDensityOperator [Z.of_nat n] (Np.divide M (Np.trace M))).
Proof.
  intros Hsh Hpos Ha Htr.
  apply (@DensityOperator_init_twisted (Qcopp (Q2Qc 1)) n M None); auto.
  intros H; discriminate H.
Qed.

Lemma DensityOperator_init_hermitian (n : nat) (M : matrix) (d : list Z) :
  has_shape n n M -> (0 < n)%nat -> Np.prod d = Z.of_nat n ->
  hermitian n M -> Np.trace M <> Cplx.zero ->
  DensityOperator_init M (Some d)
  = Ok (mkOperator ClsDensityOperator d (Np.divide M (Np.trace M))).
Proof.
  intros Hsh Hpos Hd Hh Htr.
  apply (@DensityOperator_init_twisted (Q2Qc 1) n M (Some d)); auto.
  intros H; discriminate H.
Qed.

(** ** Populations *)

Lemma complex_of_Z_succ (n : nat) :
  Cplx.of_Z (Z.of_nat (S n)) = Cplx.add Cplx.one (Cplx.of_Z (Z.of_nat n)).
Proof.
  unfold Cplx.of_Z, Cplx.one, Cplx.of_Qc, Cplx.add; cbn [Cplx.re Cplx.im].
  replace (Z.of_nat (S n)) with (1 + Z.of_nat n)%Z by lia.
  change (Q2Qc (inject_Z (1 + Z.of_nat n))) with (Py.of_Z (1 + Z.of_nat n)).
  rewrite of_Z_add, <- one_of_Z. apply CplxFacts.ext; cbn [Cplx.re Cplx.im];
    [reflexivity | ring].
Qed.

Lemma complex_of_Z_ne_0 (n : nat) : (0 < n)%nat -> Cplx.of_Z (Z.of_nat n) <> Cplx.zero.
Proof.
  intros Hn H. apply (f_equal Cplx.re) in H. cbn in H.
  change (Q2Qc (inject_Z (Z.of_nat n))) with (Py.of_Z (Z.of_nat n)) in H.
  rewrite zero_of_Z in H. apply of_Z_inj in H. lia.
Qed.

Lemma vsum_repeat (c : C) (n : nat) :
  Np.vsum (repeat c n) = Cplx.mul (Cplx.of_Z (Z.of_nat n)) c.
Proof.
  unfold Np.vsum. induction n as [|n IH]; cbn [repeat fold_right].
  - symmetry. apply CplxFacts.mul_zero_l.
  - rewrite IH, complex_of_Z_succ, CplxFacts.mul_add_distr_r, CplxFacts.mul_one_l. reflexivity.
Qed.

Lemma div_self (s : C) : s <> Cplx.zero -> Cplx.div s s = Cplx.one.
Proof.
  intros Hs. pose proof (norm2_ne_0 Hs) as Hn. unfold Cplx.norm2 in Hn.
  apply CplxFacts.ext; unfold Cplx.div, Cplx.norm2, Cplx.one, Cplx.of_Qc; cbn [Cplx.re Cplx.im];
    field; exact Hn.
Qed.

Lemma mul_div (a b s : C) : Cplx.mul a (Cplx.div b s) = Cplx.div (Cplx.mul a b) s.
Proof.
  apply CplxFacts.ext; unfold Cplx.div, Cplx.mul; cbn [Cplx.re Cplx.im]; unfold Qcdiv; ring.
Qed.

Lemma vsum_div (v : vector) (s : C) :
  Np.vsum (map (fun z => Cplx.div z s) v) = Cplx.div (Np.vsum v) s.
Proof.
  unfold Np.vsum. induction v as [|a v IH]; cbn [map fold_right].
  - symmetry. apply div_zero_l.
  - rewrite IH. apply CplxFacts.ext; unfold Cplx.div, Cplx.add; cbn [Cplx.re Cplx.im];
      unfold Qcdiv; ring.
Qed.

Lemma vsum_uniform (n : nat) : (0 < n)%nat -> Np.vsum (uniform n) = Cplx.one.
Proof.
  intros Hn. unfold uniform. rewrite vsum_repeat, mul_div, CplxFacts.mul_one_r.
  apply div_self, complex_of_Z_ne_0, Hn.
Qed.

Lemma map_const {A B} (c : B) (l : list A) : map (fun _ => c) l = repeat c (length l).
Proof. induction l as [|a l IH]; cbn; [reflexivity | rewrite IH; reflexivity]. Qed.

Lemma vsum_indicator (f : C -> bool) (v : vector) :
  Np.vsum (map (fun e => if f e then Cplx.one else Cplx.zero) v)
  = Cplx.of_Z (Z.of_nat (length (filter f v))).
Proof.
  unfold Np.vsum. induction v as [|a v IH]; cbn [map fold_right filter].
  - reflexivity.
  - rewrite IH. destruct (f a); cbn [length].
    + rewrite complex_of_Z_succ. reflexivity.
    + apply CplxFacts.add_zero_l.
Qed.

(** A real diagonal matrix whose diagonal sums to one is a density matrix
    as it stands. *)
Lemma entry_diag_k_0 (p : vector) (i j : nat) :
  (i < length p)%nat -> (j < length p)%nat ->
  entry (Np.diag_k p 0) i j = if Nat.eqb j i then nth i p Cplx.zero else Cplx.zero.
Proof.
  intros Hi Hj. unfold entry, Np.diag_k. rewrite Nat.add_0_r.
  rewrite nth_map_in with (d := 0%nat) by (rewrite length_seq; exact Hi).
  rewrite seq_nth by exact Hi. cbn [Nat.add].
  rewrite nth_map_seq by exact Hj. cbn [Nat.add]. rewrite Nat.add_0_r. reflexivity.
Qed.

Lemma conj_real (z : C) : is_real z -> Cplx.conj z = z.
Proof.
  unfold is_real. intros H. apply CplxFacts.ext; cbn; [reflexivity|]. rewrite H. ring.
Qed.

Lemma divide_one (M : matrix) : Np.divide M Cplx.one = M.
Proof.
  unfold Np.divide. rewrite <- (map_id M) at 2. apply map_ext; intros r.
  rewrite <- (map_id r) at 2. apply map_ext; intros a. apply div_one_r.
Qed.

Lemma one_ne_zero : Cplx.one <> Cplx.zero.
Proof. intros H. apply CplxFacts.eqb_eq in H. vm_compute in H. discriminate. Qed.

Lemma density_of_populations (p : vector) :
  (0 < length p)%nat -> Forall is_real p -> Np.vsum p = Cplx.one ->
  DensityOperator_init (Np.diag_k p 0) None
  = Ok (mkOperator ClsDensityOperator [Z.of_nat (length p)] (Np.diag_k p 0)).
Proof.
  intros Hn Hreal Hsum.
  assert (Htr : Np.trace (Np.diag_k p 0) = Cplx.one).
  { unfold Np.trace. rewrite diagonal_diag_k_0. exact Hsum. }
  pose proof (has_shape_diag_k p 0) as Hsh. rewrite Nat.add_0_r in Hsh.
  rewrite (@DensityOperator_init_twisted (Q2Qc 1) (length p) _ None Hsh Hn I).
  - rewrite Htr, divide_one. reflexivity.
  - intros i j Hi Hj. rewrite !entry_diag_k_0 by assumption.
    rewrite Nat.eqb_sym. destruct (Nat.eqb j i) eqn:E.
    + apply Nat.eqb_eq in E. subst j.
      rewrite conj_real; [symmetry; apply CplxFacts.mul_one_l|].
      rewrite Forall_forall in Hreal. apply Hreal, nth_In, Hi.
    + rewrite conj_zero. symmetry. apply CplxFacts.mul_zero_r.
  - intros H; discriminate H.
  - rewrite Htr. apply one_ne_zero.
Qed.

(** ** The least entry *)

Lemma np_ltb_iff (a b : C) :
  NpOrder.ltb a b = true
  <-> (Cplx.re a < Cplx.re b)%Q \/ ((Cplx.re a == Cplx.re b)%Q /\ (Cplx.im a < Cplx.im b)%Q).
Proof.
  unfold NpOrder.ltb, Py.eqb.
  rewrite orb_true_iff, andb_true_iff, !ltb_lt, CplxFacts.Qc_eq_bool_iff.
  unfold Qclt. split; (intros [H|[H1 H2]]; [left; exact H | right; split; [|exact H2]]).
  - rewrite H1. reflexivity.
  - apply Qc_is_canon, H1.
Qed.

Lemma np_ltb_false_iff (a b : C) :
  NpOrder.ltb a b = false
  <-> ~ ((Cplx.re a < Cplx.re b)%Q
         \/ ((Cplx.re a == Cplx.re b)%Q /\ (Cplx.im a < Cplx.im b)%Q)).
Proof.
  rewrite <- np_ltb_iff. destruct (NpOrder.ltb a b); split; congruence.
Qed.

(** [b] is not below [a], [c] is not below [b]: [c] is not below [a]. *)
Lemma np_le_trans (a b c : C) :
  NpOrder.ltb b a = false -> NpOrder.ltb c b = false -> NpOrder.ltb c a = false.
Proof. rewrite !np_ltb_false_iff. lra. Qed.

Lemma np_lt_le (a b : C) : NpOrder.ltb a b = true -> NpOrder.ltb b a = false.
Proof. rewrite np_ltb_iff, np_ltb_false_iff. lra. Qed.

Lemma np_ltb_irrefl (a : C) : NpOrder.ltb a a = false.
Proof. rewrite np_ltb_false_iff. lra. Qed.

Lemma fold_min_lowest (v : vector) (m : C) :
  let r := fold_left (fun m y => if NpOrder.ltb y m then y else m) v m in
  (r = m \/ In r v)
  /\ NpOrder.ltb m r = false
  /\ (forall e, In e v -> NpOrder.ltb e r = false).
Proof.
  revert m; induction v as [|y v IH]; intros m; cbn [fold_left].
  - split; [left; reflexivity|]. split; [apply np_ltb_irrefl | intros e []].
  - destruct (NpOrder.ltb y m) eqn:E.
    + destruct (IH y) as [Hin [Hm Hall]]. split; [|split].
      * right. destruct Hin as [->|Hin]; [left; reflexivity | right; exact Hin].
      * apply np_le_trans with (b := y); [exact Hm | apply np_lt_le, E].
      * intros e [<-|He]; [exact Hm | apply Hall, He].
    + destruct (IH m) as [Hin [Hm Hall]]. split; [|split].
      * destruct Hin as [->|Hin]; [left; reflexivity | right; right; exact Hin].
      * exact Hm.
      * intros e [<-|He]; [|apply Hall, He].
        apply np_le_trans with (b := m); [exact Hm | exact E].
Qed.

Lemma amin_lowest (E : vector) :
  E <> [] ->
  In (NpOrder.amin E) E
  /\ (forall e, In e E -> NpOrder.ltb e (NpOrder.amin E) = false).
Proof.
  destruct E as [|x v]; [congruence|]. intros _. unfold NpOrder.amin.
  destruct (fold_min_lowest v x) as [Hin [Hm Hall]]. split.
  - destruct Hin as [->|Hin]; [left; reflexivity | right; exact Hin].
  - intros e [<-|He]; [exact Hm | apply Hall, He].
Qed.

(** ** The thermal state of a spin that is not the muon *)

Lemma of_Qc_mul (a b : Qc) :
  Cplx.mul (Cplx.of_Qc a) (Cplx.of_Qc b) = Cplx.of_Qc (Qcmult a b).
Proof. apply CplxFacts.ext; cbn; ring. Qed.

Lemma is_real_vsum (v : vector) : Forall is_real v -> is_real (Np.vsum v).
Proof.
  unfold is_real, Np.vsum. induction 1 as [|a v Ha Hv IH]; cbn [fold_right].
  - reflexivity.
  - cbn [Cplx.add Cplx.im]. rewrite Ha, IH. ring.
Qed.

Lemma is_real_div (a b : C) : is_real a -> is_real b -> is_real (Cplx.div a b).
Proof.
  unfold is_real, Cplx.div. intros Ha Hb. cbn [Cplx.im]. rewrite Ha, Hb.
  unfold Qcdiv. ring.
Qed.

Lemma np_positive_real (z : C) :
  is_real z -> NpOrder.ltb Cplx.zero z = true <-> (Q2Qc 0 < Cplx.re z)%Qc.
Proof.
  unfold is_real. intros Hz. rewrite np_ltb_iff. rewrite Hz. unfold Qclt. cbn.
  split; [intros [H|[_ H]]; [exact H | exfalso; revert H; apply Qlt_irrefl] | tauto].
Qed.

Section Thermal.

Variable sqrt : Qc -> Qc.
Variable cexp : C -> C.
Variables cnst_h cnst_k : Qc.

Hypothesis cexp_real : forall z, is_real z -> is_real (cexp z).
Hypothesis cexp_zero : cexp Cplx.zero = Cplx.one.

Variable k : positive.
Variables gamma B : Qc.

Let I_ := half_integer k.
Let n := S (Pos.to_nat k).
Let E := map (zeeman_energy gamma B) (descending I_ n).
Let thermal := thermal_state sqrt cexp cnst_h cnst_k I_ gamma B.
Let density (p : vector) : result Operator :=
  Ok (mkOperator ClsDensityOperator [Z.of_nat n] (Np.diag_k p 0)).

Lemma length_levels : length E = n.
Proof. unfold E. rewrite length_map. apply length_descending. Qed.

Lemma levels_real : Forall is_real E.
Proof.
  unfold E. apply Forall_forall. intros e He.
  apply in_map_iff in He as [m [<- _]]. reflexivity.
Qed.

Lemma thermal_state_unfold (T : temperature) :
  thermal T = DensityOperator_init (Np.diag_k (populations cexp cnst_h cnst_k E T) 0) None.
Proof.
  unfold thermal, thermal_state, I_.
  rewrite (@from_axes1_valid sqrt k "z" _Sz eq_refl eq_refl). cbn [bind].
  f_equal. f_equal. f_equal.
  unfold zeeman_levels; cbn [_matrix]. unfold _Sz. rewrite diagonal_diag_k_0.
  unfold E, I_, n, to_complex. rewrite spin_mvals_half_integer, map_map.
  apply map_ext; intros m. unfold zeeman_energy. rewrite !of_Qc_mul. reflexivity.
Qed.

Lemma thermal_density (p : vector) (T : temperature) :
  populations cexp cnst_h cnst_k E T = p ->
  length p = n -> Forall is_real p -> Np.vsum p = Cplx.one ->
  thermal T = density p.
Proof.
  intros Hp Hlen Hreal Hsum. rewrite thermal_state_unfold, Hp.
  rewrite density_of_populations; try assumption.
  - unfold density. rewrite Hlen. reflexivity.
  - rewrite Hlen. unfold n. lia.
Qed.

Lemma uniform_real : Forall is_real (uniform n).
Proof.
  unfold uniform. apply Forall_forall. intros z Hz. apply repeat_spec in Hz. subst z.
  apply is_real_div; reflexivity.
Qed.

Lemma thermal_uniform (T : temperature) :
  populations cexp cnst_h cnst_k E T = uniform n -> thermal T = density (uniform n).
Proof.
  intros Hp. apply thermal_density with (T := T).
  - exact Hp.
  - unfold uniform. apply repeat_length.
  - apply uniform_real.
  - apply vsum_uniform. unfold n. lia.
Qed.

(** The fallback branch of the normalisation. *)
Lemma populations_fallback (T : temperature) :
  NpOrder.ltb Cplx.zero (Np.vsum (raw_weights cexp cnst_h cnst_k E T)) = false ->
  populations cexp cnst_h cnst_k E T = uniform n.
Proof.
  intros H. unfold populations. rewrite H, map_const, length_levels. reflexivity.
Qed.

Lemma populations_normalised (T : temperature) :
  NpOrder.ltb Cplx.zero (Np.vsum (raw_weights cexp cnst_h cnst_k E T)) = true ->
  populations cexp cnst_h cnst_k E T
  = map (fun z => Cplx.div z (Np.vsum (raw_weights cexp cnst_h cnst_k E T)))
        (raw_weights cexp cnst_h cnst_k E T).
Proof. intros H. unfold populations. rewrite H. reflexivity. Qed.

Lemma thermal_normalised (T : temperature) :
  let Z := raw_weights cexp cnst_h cnst_k E T in
  Forall is_real Z -> length Z = n ->
  NpOrder.ltb Cplx.zero (Np.vsum Z) = true ->
  thermal T = density (map (fun z => Cplx.div z (Np.vsum Z)) Z)
  /\ Np.vsum (map (fun z => Cplx.div z (Np.vsum Z)) Z) = Cplx.one.
Proof.
  intros Z Hreal Hlen Hpos.
  assert (Hs : Np.vsum Z <> Cplx.zero).
  { intros H. rewrite H, np_ltb_irrefl in Hpos. discriminate. }
  assert (Hsum : Np.vsum (map (fun z => Cplx.div z (Np.vsum Z)) Z) = Cplx.one).
  { rewrite vsum_div. apply div_self, Hs. }
  split; [|exact Hsum].
  apply thermal_density with (T := T).
  - apply populations_normalised, Hpos.
  - rewrite length_map. exact Hlen.
  - apply Forall_forall. intros z Hz. apply in_map_iff in Hz as [z' [<- Hz']].
    apply is_real_div; [|apply is_real_vsum, Hreal].
    rewrite Forall_forall in Hreal. apply Hreal, Hz'.
  - exact Hsum.
Qed.

Lemma boltzmann_weights_real (t : Qc) :
  Forall is_real (boltzmann_weights cexp cnst_h cnst_k E t).
Proof.
  apply Forall_forall. intros z Hz. apply in_map_iff in Hz as [e [<- He]].
  apply cexp_real, is_real_div; [|reflexivity].
  pose proof levels_real as Hr. rewrite Forall_forall in Hr. specialize (Hr e He).
  unfold is_real in *. cbn [Cplx.mul Cplx.im Cplx.of_Qc Cplx.re]. rewrite Hr. ring.
Qed.

Lemma raw_weights_finite (t : Qc) :
  (Q2Qc 0 < t)%Qc ->
  raw_weights cexp cnst_h cnst_k E (TFinite t) = boltzmann_weights cexp cnst_h cnst_k E t.
Proof.
  intros Ht. unfold raw_weights, T_positive.
  rewrite (proj2 (ltb_lt _ _) Ht). reflexivity.
Qed.

Lemma raw_weights_infinite :
  raw_weights cexp cnst_h cnst_k E TPosInf = repeat Cplx.one n.
Proof.
  unfold raw_weights, T_positive, boltzmann_exponent.
  rewrite cexp_zero, map_const, length_levels. reflexivity.
Qed.

Lemma raw_weights_cold (T : temperature) :
  T_positive T = false ->
  raw_weights cexp cnst_h cnst_k E T
  = map (fun e => if Cplx.eqb e (NpOrder.amin E) then Cplx.one else Cplx.zero) E.
Proof. intros H. unfold raw_weights. rewrite H. reflexivity. Qed.

Lemma levels_nonempty : E <> [].
Proof.
  intros H. apply (f_equal (@length _)) in H. rewrite length_levels in H. discriminate.
Qed.

Lemma lowest_levels_nonempty : (0 < length (lowest_levels E))%nat.
Proof.
  destruct (amin_lowest levels_nonempty) as [Hin _].
  unfold lowest_levels.
  assert (H : In (NpOrder.amin E) (filter (fun e => Cplx.eqb e (NpOrder.amin E)) E)).
  { apply filter_In. split; [exact Hin | apply CplxFacts.eqb_refl]. }
  destruct (filter _ E); [contradiction | cbn; lia].
Qed.

Lemma thermal_cold (T : temperature) :
  T_positive T = false ->
  thermal T = density (ground_populations E)
  /\ Np.vsum (ground_populations E) = Cplx.one.
Proof.
  intros HT.
  pose proof (raw_weights_cold T HT) as Hraw.
  set (c := Cplx.of_Z (Z.of_nat (length (lowest_levels E)))).
  assert (Hsum : Np.vsum (raw_weights cexp cnst_h cnst_k E T) = c).
  { rewrite Hraw. apply vsum_indicator. }
  assert (Hc : c <> Cplx.zero) by (apply complex_of_Z_ne_0, lowest_levels_nonempty).
  assert (Hpos : NpOrder.ltb Cplx.zero c = true).
  { apply np_positive_real; [reflexivity|].
    unfold c; cbn [Cplx.of_Z Cplx.of_Qc Cplx.re].
    change (Q2Qc (inject_Z (Z.of_nat (length (lowest_levels E)))))
      with (Py.of_Z (Z.of_nat (length (lowest_levels E)))).
    rewrite zero_of_Z. apply of_Z_lt. pose proof lowest_levels_nonempty. lia. }
  assert (Hp : populations cexp cnst_h cnst_k E T = ground_populations E).
  { unfold populations. rewrite Hsum, Hpos, Hraw, map_map.
    apply map_ext; intros e. fold c.
    destruct (Cplx.eqb e (NpOrder.amin E)); [reflexivity | apply div_zero_l]. }
  assert (Hg : Np.vsum (ground_populations E) = Cplx.one).
  { rewrite <- Hp. unfold populations. rewrite Hsum, Hpos, vsum_div, Hsum.
    apply div_self, Hc. }
  split; [|exact Hg].
  apply thermal_density with (T := T).
  - exact Hp.
  - unfold ground_populations. rewrite length_map. apply length_levels.
  - apply Forall_forall. intros z Hz. unfold ground_populations in Hz.
    apply in_map_iff in Hz as [e [<- _]].
    destruct (Cplx.eqb e (NpOrder.amin E)); [apply is_real_div|]; reflexivity.
  - exact Hg.
Qed.

End Thermal.

Lemma T_positive_cold (t : Qc) : (t <= Q2Qc 0)%Qc -> T_positive (TFinite t) = false.
Proof.
  intros Ht. cbn. destruct (Py.ltb (Q2Qc 0) t) eqn:E; [|reflexivity].
  apply ltb_lt in E. exfalso. exact (Qcle_not_lt _ _ Ht E).
Qed.

(** The populations in exact arithmetic, with an [exp] that returns a
    number for every argument.  The thermal state of a spin [k/2] that is
    not the muon is the DensityOperator of a diagonal matrix, whose
    diagonal is: the uniform populations at infinite temperature; all the
    population on the level(s) of least Zeeman energy, shared equally, at
    every temperature [T <= 0]; at a finite [T > 0] the Boltzmann weights
    [exp(-h*E/(k*T))] divided by their sum when that sum is positive, and
    the uniform populations otherwise, in particular when the sum is
    zero.  Each of these diagonals sums to one.  ([cnst_k] is not zero:
    a division by zero is not an error in numpy, and gives no number.)
    In binary64 [np.exp] overflows to [inf] for an exponent above 709.78,
    and this equation does not describe the program there. *)
Theorem thermal_state_populations (sqrt : Qc -> Qc) (cexp : C -> C) (cnst_h cnst_k : Qc)
  (k : positive) (gamma B : Qc) :
  (forall z, is_real z -> is_real (cexp z)) ->
  cexp Cplx.zero = Cplx.one ->
  cnst_k <> Q2Qc 0 ->
  let I_ := half_integer k in
  let n := S (Pos.to_nat k) in
  let E := map (zeeman_energy gamma B) (descending I_ n) in
  let thermal := thermal_state sqrt cexp cnst_h cnst_k I_ gamma B in
  let density := fun p : vector =>
    Ok (mkOperator ClsDensityOperator [Z.of_nat n] (Np.diag_k p 0)) in
  (thermal TPosInf = density (uniform n) /\ Np.vsum (uniform n) = Cplx.one)
  /\ ((forall t, (t <= Q2Qc 0)%Qc -> thermal (TFinite t) = density (ground_populations E))
      /\ thermal TNegInf = density (ground_populations E)
      /\ Np.vsum (ground_populations E) = Cplx.one
      /\ In (NpOrder.amin E) E
      /\ (forall e, In e E -> (Cplx.re (NpOrder.amin E) <= Cplx.re e)%Qc))
  /\ (forall t, (Q2Qc 0 < t)%Qc ->
        let Z := boltzmann_weights cexp cnst_h cnst_k E t in
        ((Q2Qc 0 < Cplx.re (Np.vsum Z))%Qc ->
           thermal (TFinite t) = density (map (fun z => Cplx.div z (Np.vsum Z)) Z)
           /\ Np.vsum (map (fun z => Cplx.div z (Np.vsum Z)) Z) = Cplx.one)
        /\ (~ (Q2Qc 0 < Cplx.re (Np.vsum Z))%Qc -> thermal (TFinite t) = density (uniform n))
        /\ (Np.vsum Z = Cplx.zero -> thermal (TFinite t) = density (uniform n))).
Proof.
  intros Hreal Hzero _ I_ n E thermal density.
  subst thermal density. subst E. subst I_ n.
  set (n := S (Pos.to_nat k)).
  set (E := map (zeeman_energy gamma B) (descending (half_integer k) n)).
  assert (Hn : (0 < n)%nat) by (unfold n; lia).
  split; [|split].
  - split; [|apply vsum_uniform, Hn].
    pose proof (@raw_weights_infinite cexp cnst_h cnst_k Hzero k gamma B) as Hraw.
    assert (Hs : Np.vsum (repeat Cplx.one n) = Cplx.of_Z (Z.of_nat n))
      by (rewrite vsum_repeat; apply CplxFacts.mul_one_r).
    assert (Hpos : NpOrder.ltb Cplx.zero (Np.vsum (repeat Cplx.one n)) = true).
    { rewrite Hs. apply np_positive_real; [reflexivity|].
      cbn [Cplx.of_Z Cplx.of_Qc Cplx.re].
      change (Q2Qc (inject_Z (Z.of_nat n))) with (Py.of_Z (Z.of_nat n)).
      rewrite zero_of_Z. apply of_Z_lt. lia. }
    apply (@thermal_uniform sqrt cexp cnst_h cnst_k k gamma B TPosInf).
    unfold populations. fold n. fold E. fold n in Hraw. fold E in Hraw.
    rewrite Hraw, Hpos, Hs, map_repeat. reflexivity.
  - destruct (@thermal_cold sqrt cexp cnst_h cnst_k k gamma B TNegInf eq_refl)
      as [Hneg Hsum].
    split; [|split; [exact Hneg | split; [exact Hsum|]]].
    + intros t Ht.
      apply (@thermal_cold sqrt cexp cnst_h cnst_k k gamma B (TFinite t)).
      apply T_positive_cold, Ht.
    + destruct (amin_lowest (@levels_nonempty k gamma B)) as [Hin Hall].
      split; [exact Hin|]. intros e He. specialize (Hall e He).
      apply np_ltb_false_iff in Hall. unfold Qcle.
      apply Qnot_lt_le. intros H. apply Hall. left. exact H.
  - intros t Ht Z.
    pose proof (@boltzmann_weights_real cexp cnst_h cnst_k Hreal k gamma B t) as HZreal.
    pose proof (@raw_weights_finite cexp cnst_h cnst_k k gamma B t Ht) as Hraw.
    fold n in HZreal, Hraw. fold E in HZreal, Hraw. fold Z in HZreal, Hraw.
    assert (HZlen : length Z = n).
    { unfold Z, boltzmann_weights. rewrite length_map. apply length_levels. }
    assert (Hfallback : ~ (Q2Qc 0 < Cplx.re (Np.vsum Z))%Qc ->
                        thermal_state sqrt cexp cnst_h cnst_k (half_integer k) gamma B
                                      (TFinite t)
                        = Ok (mkOperator ClsDensityOperator [Z.of_nat n]
                                         (Np.diag_k (uniform n) 0))).
    { intros Hneg.
      apply (@thermal_uniform sqrt cexp cnst_h cnst_k k gamma B (TFinite t)).
      apply populations_fallback. fold n. fold E. rewrite Hraw.
      destruct (NpOrder.ltb Cplx.zero (Np.vsum Z)) eqn:Hl; [|reflexivity].
      apply np_positive_real in Hl; [contradiction | apply is_real_vsum, HZreal]. }
    split; [|split].
    + intros Hpos.
      pose proof (@thermal_normalised sqrt cexp cnst_h cnst_k k gamma B (TFinite t)) as Hn'.
      cbv zeta in Hn'. fold n in Hn'. fold E in Hn'. rewrite Hraw in Hn'.
      apply Hn'; [exact HZreal | exact HZlen |].
      apply np_positive_real; [apply is_real_vsum, HZreal | exact Hpos].
    + exact Hfallback.
    + intros Hs. apply Hfallback. rewrite Hs. apply Qcle_not_lt, Qcle_refl.
Qed.

(** ** The state of the muon *)

Lemma nth_map2 {A B D} (f : A -> B -> D) (l : list A) (m : list B) (i : nat)
  (da : A) (db : B) (d : D) :
  (i < length l)%nat -> (i < length m)%nat ->
  nth i (map2 f l m) d = f (nth i l da) (nth i m db).
Proof.
  revert m i; induction l as [|a l IH]; intros [|b m] i Hl Hm; cbn in Hl, Hm; try lia.
  destruct i as [|i]; cbn; [reflexivity | apply IH; lia].
Qed.

Lemma entry_map2 (f : C -> C -> C) (n m : nat) (A B : matrix) (i j : nat) :
  has_shape n m A -> has_shape n m B -> (i < n)%nat -> (j < m)%nat ->
  entry (map2 (map2 f) A B) i j = f (entry A i j) (entry B i j).
Proof.
  intros HA HB Hi Hj. unfold entry.
  rewrite nth_map2 with (da := []) (db := [])
    by (rewrite ?(proj1 HA), ?(proj1 HB); exact Hi).
  apply nth_map2; rewrite ?(has_shape_row HA Hi), ?(has_shape_row HB Hi); exact Hj.
Qed.

Lemma has_shape_outer_conj (psi : vector) :
  has_shape (length psi) (length psi) (outer_conj psi).
Proof.
  unfold outer_conj. split; [apply length_map|].
  apply Forall_forall. intros r Hr. apply in_map_iff in Hr as [a [<- _]].
  apply length_map.
Qed.

Lemma entry_outer_conj (psi : vector) (i j : nat) :
  (i < length psi)%nat -> (j < length psi)%nat ->
  entry (outer_conj psi) i j
  = Cplx.mul (nth i psi Cplx.zero) (Cplx.conj (nth j psi Cplx.zero)).
Proof.
  intros Hi Hj. unfold entry, outer_conj.
  rewrite nth_map_in with (d := Cplx.zero) by exact Hi.
  rewrite nth_map_in with (d := Cplx.zero) by exact Hj. reflexivity.
Qed.

Lemma has_shape_mask (gamma : Qc) (n : nat) : has_shape n n (decoherence_mask gamma n).
Proof. apply has_shape_map_seq. Qed.

Lemma entry_mask_0 (n i j : nat) :
  (i < n)%nat -> (j < n)%nat -> entry (decoherence_mask (Q2Qc 0) n) i j = Cplx.one.
Proof.
  intros Hi Hj. unfold entry, decoherence_mask.
  rewrite nth_map_in with (d := 0%nat) by (rewrite length_seq; exact Hi).
  rewrite nth_map_seq by exact Hj.
  apply CplxFacts.ext; unfold Cplx.one, Cplx.of_Qc; cbn [Cplx.re Cplx.im]; [|reflexivity].
  destruct (Nat.eqb _ _); ring.
Qed.

Lemma has_shape_pure_state (psi : vector) :
  has_shape (length psi) (length psi) (pure_state psi).
Proof.
  unfold pure_state, Np.mul.
  rewrite (proj1 (has_shape_outer_conj psi)).
  apply has_shape_map2; [apply has_shape_outer_conj | apply has_shape_mask].
Qed.

Lemma entry_pure_state (psi : vector) (i j : nat) :
  (i < length psi)%nat -> (j < length psi)%nat ->
  entry (pure_state psi) i j
  = Cplx.mul (nth i psi Cplx.zero) (Cplx.conj (nth j psi Cplx.zero)).
Proof.
  intros Hi Hj. unfold pure_state, Np.mul.
  rewrite (proj1 (has_shape_outer_conj psi)).
  rewrite (entry_map2 _ (has_shape_outer_conj psi) (has_shape_mask _ _) Hi Hj).
  rewrite entry_outer_conj, entry_mask_0 by assumption. apply CplxFacts.mul_one_r.
Qed.

Lemma hermitian_pure_state (psi : vector) : hermitian (length psi) (pure_state psi).
Proof.
  intros i j Hi Hj. rewrite !entry_pure_state by assumption.
  apply CplxFacts.ext; cbn; ring.
Qed.

Lemma norm2_nonneg (z : C) : (Q2Qc 0 <= Cplx.norm2 z)%Qc.
Proof.
  unfold Qcle, Cplx.norm2, Qcplus, Qcmult, Q2Qc; cbn [Qcanon.this].
  rewrite !Qred_correct. nra.
Qed.

Lemma rsum_norm2_positive (psi : vector) :
  Exists (fun z => z <> Cplx.zero) psi -> (Q2Qc 0 < rsum (map Cplx.norm2 psi))%Qc.
Proof.
  assert (Hnn : forall v, (Q2Qc 0 <= rsum (map Cplx.norm2 v))%Qc).
  { induction v as [|a v IH]; [apply Qcle_refl|].
    cbn [map rsum fold_right]. fold (rsum (map Cplx.norm2 v)).
    pose proof (norm2_nonneg a) as Ha.
    revert Ha IH. unfold Qcle, Qcplus, Q2Qc; cbn [Qcanon.this].
    rewrite !Qred_correct. lra. }
  induction 1 as [a v Ha | a v Hv IH]; cbn [map rsum fold_right];
    fold (rsum (map Cplx.norm2 v)).
  - pose proof (norm2_nonneg a) as Hna. pose proof (Hnn v) as Hv.
    pose proof (norm2_ne_0 Ha) as Hne.
    assert (Hpos : (Q2Qc 0 < Cplx.norm2 a)%Qc).
    { destruct (Qcle_lt_or_eq _ _ Hna) as [H|H]; [exact H | congruence]. }
    revert Hpos Hv. unfold Qclt, Qcle, Qcplus, Q2Qc; cbn [Qcanon.this].
    rewrite !Qred_correct. lra.
  - pose proof (norm2_nonneg a) as Hna.
    revert Hna IH. unfold Qclt, Qcle, Qcplus, Q2Qc; cbn [Qcanon.this].
    rewrite !Qred_correct. lra.
Qed.

Lemma trace_pure_state (psi : vector) :
  Cplx.re (Np.trace (pure_state psi)) = rsum (map Cplx.norm2 psi).
Proof.
  rewrite trace_entries, re_vsum, (proj1 (has_shape_pure_state psi)), map_map.
  transitivity (rsum (map (fun i => Cplx.norm2 (nth i psi Cplx.zero)) (seq 0 (length psi)))).
  - f_equal. apply map_ext_in. intros i Hi. apply in_seq in Hi.
    rewrite entry_pure_state by lia. unfold Cplx.norm2; cbn. ring.
  - f_equal. rewrite <- map_map with (f := fun i => nth i psi Cplx.zero) (g := Cplx.norm2).
    f_equal. apply nth_ext with (d := Cplx.zero) (d' := Cplx.zero).
    + rewrite length_map, length_seq. reflexivity.
    + intros i Hi. rewrite length_map, length_seq in Hi.
      rewrite nth_map_seq by exact Hi. reflexivity.
Qed.

Lemma trace_pure_state_ne_0 (psi : vector) :
  Exists (fun z => z <> Cplx.zero) psi -> Np.trace (pure_state psi) <> Cplx.zero.
Proof.
  intros Hpsi H. apply (f_equal Cplx.re) in H. rewrite trace_pure_state in H.
  apply rsum_norm2_positive in Hpsi. rewrite H in Hpsi.
  revert Hpsi. apply Qcle_not_lt, Qcle_refl.
Qed.

Unset Implicit Arguments.

Section StartingState.

Variable sqrt : Qc -> Qc.
Variable eigh : matrix -> rvector * matrix.
Variable cexp : C -> C.
Variables cnst_h cnst_k : Qc.

(** What is used of [eigh]: the eigenvector matrix has as many rows as the
    input, and the eigenvector selected is not the zero vector. *)
Hypothesis eigh_column :
  forall o : matrix, o <> [] ->
    length (selected_eigenvector eigh o) = length o
    /\ Exists (fun z => z <> Cplx.zero) (selected_eigenvector eigh o).
Hypothesis cexp_real : forall z, is_real z -> is_real (cexp z).

Lemma length_combine_axes (n : nat) (S : list matrix) (vec : rvector) :
  length (nth 0 S []) = n -> length (nth 1 S []) = n -> length (nth 2 S []) = n ->
  length (combine_axes S vec) = n.
Proof.
  intros H0 H1 H2. unfold combine_axes. cbn [fold_left]. unfold Np.add, Np.scale.
  rewrite !length_map2, !length_map, H0, H1, H2. lia.
Qed.

Lemma length_polarisation_operator (k : positive) (vec : rvector) :
  length (polarisation_operator sqrt k vec) = S (Pos.to_nat k).
Proof.
  assert (Hm : (0 < length (spin_mvals (half_integer k)))%nat)
    by (rewrite length_spin_mvals; lia).
  apply length_combine_axes; cbn [nth]; rewrite <- (length_spin_mvals k).
  - apply (@has_shape_Sx sqrt _ Hm).
  - apply (@has_shape_Sy sqrt _ Hm).
  - apply (@has_shape_Sz _ Hm).
Qed.

Lemma from_vectors_factor_ok (k : positive) (vec : rvector) :
  length vec = 3%nat ->
  from_vectors_factor sqrt eigh (half_integer k) vec (Q2Qc 0)
  = Ok (pure_state (selected_eigenvector eigh (polarisation_operator sqrt k vec))).
Proof.
  intros Hv. unfold from_vectors_factor.
  rewrite (proj2 (invalid_spin_iff _)) by (exists k; reflexivity).
  rewrite Hv. cbn [Nat.eqb negb].
  replace (Py.ltb (Q2Qc 0) (Q2Qc 0) || Py.ltb (Q2Qc 1) (Q2Qc 0)) with false
    by (vm_compute; reflexivity).
  fold (polarisation_operator sqrt k vec).
  unfold pure_state, selected_eigenvector.
  destruct (eigh (polarisation_operator sqrt k vec)) as [evals evecs]. reflexivity.
Qed.

Lemma from_vectors1_ok (k : positive) (vec : rvector) :
  length vec = 3%nat ->
  let M := pure_state (selected_eigenvector eigh (polarisation_operator sqrt k vec)) in
  from_vectors1 sqrt eigh (half_integer k) vec (Q2Qc 0)
  = Ok (mkOperator ClsDensityOperator [(Zpos k + 1)%Z] (Np.divide M (Np.trace M))).
Proof.
  intros Hv M. unfold from_vectors1, from_vectors.
  cbn [length Nat.eqb negb orb from_vectors_loop map].
  rewrite (from_vectors_factor_ok k vec Hv). cbn [bind kron_all fold_left].
  rewrite spin_dim_half_integer. fold M.
  assert (Ho : polarisation_operator sqrt k vec <> []).
  { intros H. apply (f_equal (@length _)) in H.
    rewrite length_polarisation_operator in H. discriminate. }
  destruct (eigh_column _ Ho) as [Hlen Hnz].
  rewrite length_polarisation_operator in Hlen.
  pose proof (has_shape_pure_state (selected_eigenvector eigh (polarisation_operator sqrt k vec)))
    as Hsh.
  pose proof (hermitian_pure_state (selected_eigenvector eigh (polarisation_operator sqrt k vec)))
    as Hh.
  rewrite Hlen in Hsh, Hh. fold M in Hsh, Hh.
  apply (@DensityOperator_init_hermitian (S (Pos.to_nat k)) M); try assumption.
  - lia.
  - cbn. lia.
  - apply trace_pure_state_ne_0, Hnz.
Qed.

Lemma from_vectors1_bad_vector (k : positive) (vec : rvector) :
  length vec <> 3%nat ->
  from_vectors1 sqrt eigh (half_integer k) vec (Q2Qc 0) = Raise InvalidVector.
Proof.
  intros Hv. unfold from_vectors1, from_vectors.
  cbn [length Nat.eqb negb orb from_vectors_loop map].
  unfold from_vectors_factor.
  rewrite (proj2 (invalid_spin_iff _)) by (exists k; reflexivity).
  replace (Nat.eqb (length vec) 3) with false
    by (symmetry; apply Nat.eqb_neq, Hv).
  reflexivity.
Qed.

Lemma boltzmann_exponent_real (e : C) (T : temperature) :
  is_real e -> is_real (boltzmann_exponent cnst_h cnst_k e T).
Proof.
  intros He. destruct T; cbn [boltzmann_exponent]; try reflexivity.
  apply is_real_div; [|reflexivity].
  unfold is_real in *. cbn [Cplx.mul Cplx.im Cplx.of_Qc Cplx.re]. rewrite He. ring.
Qed.

(** The thermal state is made for every temperature. *)
Lemma thermal_state_total (k : positive) (gamma B : Qc) (T : temperature) :
  exists p : vector,
    thermal_state sqrt cexp cnst_h cnst_k (half_integer k) gamma B T
    = Ok (mkOperator ClsDensityOperator [Z.of_nat (S (Pos.to_nat k))] (Np.diag_k p 0)).
Proof.
  set (E := map (zeeman_energy gamma B) (descending (half_integer k) (S (Pos.to_nat k)))).
  destruct (T_positive T) eqn:HT.
  - set (Z := raw_weights cexp cnst_h cnst_k E T).
    assert (HZ : Forall is_real Z).
    { unfold Z, raw_weights. rewrite HT. apply Forall_forall. intros z Hz.
      apply in_map_iff in Hz as [e [<- He]]. apply cexp_real, boltzmann_exponent_real.
      pose proof (levels_real k gamma B) as Hr. rewrite Forall_forall in Hr.
      apply Hr, He. }
    assert (HZlen : length Z = S (Pos.to_nat k)).
    { unfold Z, raw_weights. rewrite HT, length_map. apply length_levels. }
    destruct (NpOrder.ltb Cplx.zero (Np.vsum Z)) eqn:Hpos.
    + eexists.
      apply (@thermal_normalised sqrt cexp cnst_h cnst_k k gamma B T HZ HZlen Hpos).
    + eexists. apply thermal_uniform, populations_fallback, Hpos.
  - eexists. apply thermal_cold, HT.
Qed.

Variable Hamiltonian : Type.
Variable self : MuonExperiment Hamiltonian.

Let sys := _spin_system self.

Hypothesis spins_nonempty : spins sys <> [].
Hypothesis spins_valid :
  forall i, (i < length (spins sys))%nat -> positive_half_integer (spin_I sys i).
Hypothesis muon_present : (muon_index sys < length (spins sys))%nat.

Lemma starting_states_ok (axis : rvector) (T : temperature) (ss : list string) (i : nat) :
  length axis = 3%nat -> (i + length ss <= length (spins sys))%nat ->
  exists rhos, starting_states sqrt eigh cexp cnst_h cnst_k sys (_B self) axis T i ss
               = Ok rhos
               /\ length rhos = length ss.
Proof.
  intros Hax; revert i; induction ss as [|s ss IH]; intros i Hi; cbn [starting_states].
  - exists []. split; reflexivity.
  - cbn [length] in Hi.
    destruct (spins_valid i) as [k Hk]; [lia|]. rewrite Hk.
    assert (Hr : exists r,
      (if Nat.eqb i (muon_index sys)
       then from_vectors1 sqrt eigh (half_integer k) axis (Q2Qc 0)
       else thermal_state sqrt cexp cnst_h cnst_k (half_integer k)
                          (spin_gamma sys i) (_B self) T) = Ok r).
    { destruct (Nat.eqb i (muon_index sys)).
      - eexists. apply from_vectors1_ok, Hax.
      - destruct (thermal_state_total k (spin_gamma sys i) (_B self) T) as [p Hp].
        eexists. exact Hp. }
    destruct Hr as [r ->]. cbn [bind].
    destruct (IH (S i)) as [rhos [-> Hlen]]; [lia|]. cbn [bind].
    eexists. split; [reflexivity|]. cbn [length]. rewrite Hlen. reflexivity.
Qed.

Lemma starting_states_bad_vector (axis : rvector) (T : temperature) (ss : list string)
  (i : nat) :
  length axis <> 3%nat -> (i + length ss <= length (spins sys))%nat ->
  (i <= muon_index sys < i + length ss)%nat ->
  starting_states sqrt eigh cexp cnst_h cnst_k sys (_B self) axis T i ss
  = Raise InvalidVector.
Proof.
  intros Hax; revert i; induction ss as [|s ss IH]; intros i Hi Hmu;
    cbn [starting_states length] in *; [lia|].
  destruct (spins_valid i) as [k Hk]; [lia|]. rewrite Hk.
  destruct (Nat.eqb i (muon_index sys)) eqn:E.
  - rewrite (from_vectors1_bad_vector k axis Hax). reflexivity.
  - apply Nat.eqb_neq in E.
    destruct (thermal_state_total k (spin_gamma sys i) (_B self) T) as [p ->].
    cbn [bind]. rewrite IH by lia. reflexivity.
Qed.

Lemma kron_states_ok (rhos : list Operator) (acc : Operator) :
  exists rho0, kron_states acc rhos = Ok rho0.
Proof.
  revert acc; induction rhos as [|r rhos IH]; intros acc; cbn [kron_states].
  - eexists; reflexivity.
  - cbn [Operator_kron bind]. apply IH.
Qed.

Lemma set_starting_state_resolved (muon_axis : axis_arg) (axis : rvector) (T : temperature) :
  resolve_muon_axis sqrt muon_axis = Ok axis ->
  (length axis = 3%nat ->
   exists st, set_starting_state sqrt eigh cexp cnst_h cnst_k self muon_axis T = Ok st)
  /\ (length axis <> 3%nat ->
      set_starting_state sqrt eigh cexp cnst_h cnst_k self muon_axis T
      = Raise InvalidVector).
Proof.
  intros Hres. unfold set_starting_state. rewrite Hres. cbn [bind]. fold sys. split.
  - intros Hax.
    destruct (starting_states_ok axis T (spins sys) 0 Hax) as [rhos [-> Hlen]]; [lia|].
    cbn [bind]. destruct rhos as [|r0 rest].
    + destruct (spins sys); [congruence | discriminate].
    + destruct (kron_states_ok rest r0) as [rho0 ->]. cbn [bind]. eexists; reflexivity.
  - intros Hax.
    rewrite (starting_states_bad_vector axis T (spins sys) 0 Hax); [reflexivity | lia | lia].
Qed.

End StartingState.

(** ** The stand-ins meet what is assumed of the library functions *)

Lemma standin_cexp_real (z : C) : is_real z -> is_real (Standin.cexp z).
Proof.
  unfold is_real, Standin.cexp. intros Hz.
  destruct z as [x y]. cbn [Cplx.im] in Hz. subst y.
  unfold Cplx.div, Cplx.add, Cplx.sub, Cplx.mul, Cplx.one, Cplx.of_Qc;
    cbn [Cplx.re Cplx.im]. unfold Qcdiv. ring.
Qed.

Lemma standin_cexp_zero : Standin.cexp Cplx.zero = Cplx.one.
Proof. apply CplxFacts.eqb_eq. vm_compute. reflexivity. Qed.

Lemma In_insert_sorted (x y : Qc * nat) (l : list (Qc * nat)) :
  In x (Standin.insert_sorted y l) -> x = y \/ In x l.
Proof.
  induction l as [|a l IH]; cbn [Standin.insert_sorted].
  - intros [<-|[]]. left; reflexivity.
  - destruct (Py.ltb (fst y) (fst a)).
    + intros [<-|H]; [left; reflexivity | right; exact H].
    + intros [<-|H]; [right; left; reflexivity|].
      destruct (IH H) as [->|H']; [left; reflexivity | right; right; exact H'].
Qed.

Lemma length_insert_sorted (y : Qc * nat) (l : list (Qc * nat)) :
  length (Standin.insert_sorted y l) = S (length l).
Proof.
  induction l as [|a l IH]; cbn [Standin.insert_sorted]; [reflexivity|].
  destruct (Py.ltb (fst y) (fst a)); cbn [length]; [reflexivity | rewrite IH; reflexivity].
Qed.

Lemma sort_levels_spec (l : list (Qc * nat)) :
  length (Standin.sort_levels l) = length l
  /\ (forall x, In x (Standin.sort_levels l) -> In x l).
Proof.
  unfold Standin.sort_levels. induction l as [|a l [IHl IHin]]; cbn [fold_right].
  - split; [reflexivity | intros x []].
  - split; [rewrite length_insert_sorted, IHl; reflexivity|].
    intros x Hx. apply In_insert_sorted in Hx as [->|Hx];
      [left; reflexivity | right; apply IHin, Hx].
Qed.

Lemma argmax_from_bound (v : rvector) (best : Qc) (besti i : nat) :
  (besti < i)%nat -> (argmax_from best besti i v < i + length v)%nat.
Proof.
  revert best besti i; induction v as [|x v IH]; intros best besti i H;
    cbn [argmax_from length]; [lia|].
  destruct (Py.ltb best x).
  - specialize (IH x i (S i)). lia.
  - specialize (IH best besti (S i)). lia.
Qed.

Lemma argmax_bound (v : rvector) : v <> [] -> (argmax v < length v)%nat.
Proof.
  destruct v as [|x v]; [congruence|]. intros _. unfold argmax. cbn [length].
  pose proof (@argmax_from_bound v x 0%nat 1%nat). lia.
Qed.

Lemma length_diagonal_from (M : matrix) (s : nat) : length (Np.diagonal_from s M) = length M.
Proof. rewrite diagonal_from_entries, length_map, length_seq. reflexivity. Qed.

Lemma standin_eigh_column (o : matrix) :
  o <> [] ->
  length (selected_eigenvector Standin.eigh o) = length o
  /\ Exists (fun z => z <> Cplx.zero) (selected_eigenvector Standin.eigh o).
Proof.
  intros Ho. unfold selected_eigenvector, Standin.eigh. cbn [fst snd].
  set (n := length o).
  set (levels := Standin.sort_levels (combine (map Cplx.re (Np.diagonal o)) (seq 0 n))).
  assert (Hn : (0 < n)%nat) by (unfold n; destruct o; [congruence | cbn; lia]).
  destruct (sort_levels_spec (combine (map Cplx.re (Np.diagonal o)) (seq 0 n)))
    as [Hlen Hin]. fold levels in Hlen, Hin.
  rewrite length_combine, length_map, length_seq in Hlen.
  unfold Np.diagonal in Hlen. rewrite length_diagonal_from in Hlen. fold n in Hlen.
  rewrite Nat.min_id in Hlen.
  set (c := argmax (map fst levels)).
  assert (Hc : (c < length levels)%nat).
  { unfold c. rewrite <- (length_map fst levels). apply argmax_bound.
    intros H. apply (f_equal (@length _)) in H. rewrite length_map, Hlen in H.
    cbn in H. lia. }
  set (j := snd (nth c levels (Q2Qc 0, 0%nat))).
  assert (Hj : (j < n)%nat).
  { assert (H : In (nth c levels (Q2Qc 0, 0%nat)) levels) by (apply nth_In, Hc).
    apply Hin in H. unfold j. destruct (nth c levels (Q2Qc 0, 0%nat)) as [e i].
    apply in_combine_r in H. apply in_seq in H. cbn. lia. }
  unfold Np.column. split; [rewrite !length_map, length_seq; reflexivity|].
  apply Exists_exists. exists Cplx.one. split; [|apply one_ne_zero].
  apply in_map_iff. eexists. split; [|apply in_map; apply in_seq; split; [|exact Hj]; lia].
  rewrite nth_map_in with (d := (Q2Qc 0, 0%nat)) by exact Hc.
  fold j. rewrite Nat.eqb_refl. reflexivity.
Qed.

Lemma half_is_half_integer : Py.half = half_integer 1.
Proof. apply Qc_is_canon. reflexivity. Qed.

(** ** set_starting_state and its argument muon_axis *)

Lemma resolve_muon_axis_name (sqrt : Qc -> Qc) (s : string) :
  In s muon_axis_names ->
  exists axis, resolve_muon_axis sqrt (AxisStr s) = Ok axis /\ length axis = 3%nat.
Proof.
  intros H. cbn in H.
  repeat (destruct H as [<- | H]; [eexists; split; reflexivity|]). contradiction.
Qed.

Lemma resolve_muon_axis_other (sqrt : Qc -> Qc) (s : string) :
  ~ In s muon_axis_names -> resolve_muon_axis sqrt (AxisStr s) = Raise InvalidMuonAxis.
Proof.
  intros H. cbn [resolve_muon_axis].
  destruct (String.eqb s "x") eqn:Ex; [apply String.eqb_eq in Ex; subst; exfalso; apply H; cbn; tauto|].
  destruct (String.eqb s "y") eqn:Ey; [apply String.eqb_eq in Ey; subst; exfalso; apply H; cbn; tauto|].
  destruct (String.eqb s "z") eqn:Ez; [apply String.eqb_eq in Ez; subst; exfalso; apply H; cbn; tauto|].
  reflexivity.
Qed.

(** C7, as amended.  For a spin system of valid spins that contains the
    muon, at the default temperature [T = np.inf], [set_starting_state]
    accepts the names x, y and z and every sequence of three moderate
    floats of non-zero norm, which it divides by its norm (a unit vector
    is not asked for).  Every other string raises the ValueError about
    [muon_axis], at every temperature, and nothing but a string raises
    it: a sequence of floats that has not three entries raises the
    ValueError of [from_vectors] about 3D vectors.  What is assumed of the
    library: the eigenvector that [eigh] returns for the top eigenvalue
    has as many entries as the matrix has rows and is not zero, [exp] is
    real on the reals, and [cnst_k] is not zero. *)
Theorem set_starting_state_muon_axis
  (sqrt : Qc -> Qc) (eigh : matrix -> rvector * matrix) (cexp : C -> C)
  (cnst_h cnst_k : Qc) (Hamiltonian : Type) (self : MuonExperiment Hamiltonian) :
  (forall o : matrix, o <> [] ->
     length (selected_eigenvector eigh o) = length o
     /\ Exists (fun z => z <> Cplx.zero) (selected_eigenvector eigh o)) ->
  (forall z, is_real z -> is_real (cexp z)) ->
  cnst_k <> Q2Qc 0 ->
  spins (_spin_system self) <> [] ->
  (forall i, (i < length (spins (_spin_system self)))%nat ->
             positive_half_integer (spin_I (_spin_system self) i)) ->
  (muon_index (_spin_system self) < length (spins (_spin_system self)))%nat ->
  let set := set_starting_state sqrt eigh cexp cnst_h cnst_k self in
  (forall s, In s muon_axis_names -> exists st, set (AxisStr s) TPosInf = Ok st)
  /\ (forall v, length v = 3%nat -> Forall moderate v -> norm sqrt v <> Q2Qc 0 ->
        resolve_muon_axis sqrt (AxisVec v) = Ok (map (fun x => Qcdiv x (norm sqrt v)) v)
        /\ exists st, set (AxisVec v) TPosInf = Ok st)
  /\ (forall s T, ~ In s muon_axis_names ->
        set (AxisStr s) T = Raise InvalidMuonAxis
        /\ exc_class InvalidMuonAxis = ValueError)
  /\ (forall v, length v <> 3%nat ->
        set (AxisVec v) TPosInf = Raise InvalidVector
        /\ exc_class InvalidVector = ValueError)
  /\ (forall v T, set (AxisVec v) T <> Raise InvalidMuonAxis)
  /\ (forall v T, set (AxisInts v) T <> Raise InvalidMuonAxis).
Proof.
  intros Heigh Hcexp _ Hne Hvalid Hmu set.
  pose proof (set_starting_state_resolved sqrt eigh cexp cnst_h cnst_k Heigh Hcexp
                Hamiltonian self Hne Hvalid Hmu) as Hres.
  split; [|split; [|split; [|split; [|split]]]].
  - intros s Hs. destruct (resolve_muon_axis_name sqrt s Hs) as [axis [Hr Hlen]].
    apply (proj1 (Hres (AxisStr s) axis TPosInf Hr) Hlen).
  - intros v Hv _ Hnorm. split; [reflexivity|].
    apply (proj1 (Hres (AxisVec v) _ TPosInf eq_refl)). rewrite length_map. exact Hv.
  - intros s T Hs. split; [|reflexivity].
    unfold set, set_starting_state. rewrite (resolve_muon_axis_other sqrt s Hs).
    reflexivity.
  - intros v Hv. split; [|reflexivity].
    apply (proj2 (Hres (AxisVec v) _ TPosInf eq_refl)). rewrite length_map. exact Hv.
  - intros v T.
    destruct (Nat.eq_dec (length v) 3) as [Hv|Hv].
    + destruct (proj1 (Hres (AxisVec v) _ T eq_refl)) as [st Hst].
      * rewrite length_map. exact Hv.
      * unfold set. rewrite Hst. discriminate.
    + unfold set. rewrite (proj2 (Hres (AxisVec v) _ T eq_refl)).
      * discriminate.
      * rewrite length_map. exact Hv.
  - intros [|z v] T.
    + unfold set. rewrite (proj2 (Hres (AxisInts []) [] T eq_refl)).
      * discriminate.
      * cbn. discriminate.
    + unfold set, set_starting_state. cbn [resolve_muon_axis bind]. discriminate.
Qed.

(** A sequence of Python ints never reaches [from_vectors]: the in-place
    division raises a TypeError. *)
Lemma set_starting_state_int_axis
  (sqrt : Qc -> Qc) (eigh : matrix -> rvector * matrix) (cexp : C -> C)
  (cnst_h cnst_k : Qc) (Hamiltonian : Type) (self : MuonExperiment Hamiltonian)
  (z : Z) (v : list Z) (T : temperature) :
  set_starting_state sqrt eigh cexp cnst_h cnst_k self (AxisInts (z :: v)) T
  = Raise InPlaceCastError
  /\ exc_class InPlaceCastError = TypeError.
Proof. split; reflexivity. Qed.

Lemma set_starting_state_muon_axis_witness :
  exists st,
    set_starting_state Standin.sqrt Standin.eigh Standin.cexp Inputs.cnst_h Inputs.cnst_k
                       (Inputs.experiment (Q2Qc 0)) (AxisStr "z") TPosInf = Ok st.
Proof.
  refine (proj1 (set_starting_state_muon_axis Standin.sqrt Standin.eigh Standin.cexp
                   Inputs.cnst_h Inputs.cnst_k unit (Inputs.experiment (Q2Qc 0))
                   standin_eigh_column standin_cexp_real _ _ _ _) "z"%string _).
  - intros H. discriminate H.
  - discriminate.
  - intros i _. exists 1%positive. apply half_is_half_integer.
  - cbn. lia.
  - cbn. tauto.
Defined.

(** The claim C7 as the specification words it fails: the vector
    [(0., 0., 2.)] is neither a unit vector nor a name, and
    [set_starting_state] takes it and builds the state it builds for
    [z]. *)
Lemma set_starting_state_accepts_non_unit_vector :
  let set := set_starting_state Standin.sqrt Standin.eigh Standin.cexp
                                Inputs.cnst_h Inputs.cnst_k (Inputs.experiment (Q2Qc 0)) in
  let rho0 := mkOperator ClsDensityOperator [2; 2]%Z
                [[Inputs.r 1 2; Inputs.r 0 1; Inputs.r 0 1; Inputs.r 0 1];
                 [Inputs.r 0 1; Inputs.r 0 1; Inputs.r 0 1; Inputs.r 0 1];
                 [Inputs.r 0 1; Inputs.r 0 1; Inputs.r 1 2; Inputs.r 0 1];
                 [Inputs.r 0 1; Inputs.r 0 1; Inputs.r 0 1; Inputs.r 0 1]] in
  norm Standin.sqrt [Q2Qc 0; Q2Qc 0; Q2Qc 2] = Q2Qc 2
  /\ (st <- set (AxisVec [Q2Qc 0; Q2Qc 0; Q2Qc 2]) TPosInf ;; Ok (_rho0 st)) = Ok rho0
  /\ (st <- set (AxisStr "z") TPosInf ;; Ok (_rho0 st)) = Ok rho0.
Proof.
  intros set rho0.
  split; [apply Qc_is_canon; vm_compute; reflexivity|].
  split; unfold set, rho0; run_operator.
Qed.

(** ** Witnesses on the stand-ins *)

Lemma thermal_state_populations_witness :
  thermal_state Standin.sqrt Standin.cexp Inputs.cnst_h Inputs.cnst_k
                (half_integer 1) (Q2Qc (-28024951 # 1000)) (Q2Qc 1) TPosInf
  = Ok (mkOperator ClsDensityOperator [2%Z] (Np.diag_k (uniform 2) 0)).
Proof.
  refine (proj1 (proj1 (@thermal_state_populations Standin.sqrt Standin.cexp
                          Inputs.cnst_h Inputs.cnst_k 1%positive
                          (Q2Qc (-28024951 # 1000)) (Q2Qc 1)
                          standin_cexp_real standin_cexp_zero _))).
  intros H. discriminate H.
Defined.


(** * The operator algebra, the constructors and the starting state *)

(** ** Sums *)

Lemma vsum_map_ext {A} (f g : A -> C) (l : list A) :
  (forall a, In a l -> f a = g a) -> Np.vsum (map f l) = Np.vsum (map g l).
Proof. intros H. f_equal. apply map_ext_in, H. Qed.

Lemma vsum_map_add {A} (f g : A -> C) (l : list A) :
  Np.vsum (map (fun a => Cplx.add (f a) (g a)) l)
  = Cplx.add (Np.vsum (map f l)) (Np.vsum (map g l)).
Proof.
  unfold Np.vsum. induction l as [|a l IH]; cbn [map fold_right].
  - symmetry. apply CplxFacts.add_zero_l.
  - rewrite IH. apply CplxFacts.ext; cbn; ring.
Qed.

Lemma vsum_map_zero {A} (l : list A) :
  Np.vsum (map (fun _ => Cplx.zero) l) = Cplx.zero.
Proof.
  unfold Np.vsum. induction l as [|a l IH]; cbn [map fold_right]; [reflexivity|].
  rewrite IH. apply CplxFacts.add_zero_l.
Qed.

Lemma vsum_map_mul_l {A} (c : C) (f : A -> C) (l : list A) :
  Np.vsum (map (fun a => Cplx.mul c (f a)) l) = Cplx.mul c (Np.vsum (map f l)).
Proof. rewrite <- vsum_scaled, map_map. reflexivity. Qed.

Lemma vsum_map_mul_r {A} (c : C) (f : A -> C) (l : list A) :
  Np.vsum (map (fun a => Cplx.mul (f a) c) l) = Cplx.mul (Np.vsum (map f l)) c.
Proof.
  rewrite CplxFacts.mul_comm, <- vsum_map_mul_l.
  apply vsum_map_ext. intros. apply CplxFacts.mul_comm.
Qed.

(** The order of two nested sums does not matter. *)
Lemma vsum_swap {A B} (f : A -> B -> C) (l : list A) (m : list B) :
  Np.vsum (map (fun a => Np.vsum (map (f a) m)) l)
  = Np.vsum (map (fun b => Np.vsum (map (fun a => f a b) l)) m).
Proof.
  induction l as [|a l IH].
  - cbn [map]. rewrite vsum_map_zero. reflexivity.
  - cbn [map]. change (Np.vsum (?x :: ?v)) with (Cplx.add x (Np.vsum v)).
    rewrite IH, <- vsum_map_add. reflexivity.
Qed.

(** A sum in which only the term of index [k] is not zero. *)
Lemma vsum_single (f : nat -> C) (k s n : nat) :
  (s <= k < s + n)%nat ->
  Np.vsum (map (fun i => if Nat.eqb i k then f i else Cplx.zero) (seq s n)) = f k.
Proof.
  revert s. induction n as [|n IH]; intros s H; [lia|].
  cbn [seq map]. change (Np.vsum (?x :: ?v)) with (Cplx.add x (Np.vsum v)).
  destruct (Nat.eqb_spec s k) as [->|Hne].
  - rewrite (vsum_map_ext _ (fun _ => Cplx.zero)).
    + rewrite vsum_map_zero. apply CplxFacts.add_zero_r.
    + intros i Hi. apply in_seq in Hi.
      destruct (Nat.eqb_spec i k); [lia | reflexivity].
  - rewrite IH by lia. apply CplxFacts.add_zero_l.
Qed.

(** ** Entries of a matrix product *)

Lemma vdot_entries (m : nat) (u v : vector) :
  length u = m -> length v = m ->
  Np.vdot u v
  = Np.vsum (map (fun k => Cplx.mul (nth k u Cplx.zero) (nth k v Cplx.zero)) (seq 0 m)).
Proof.
  unfold Np.vdot. revert u v. induction m as [|m IH]; intros u v Hu Hv.
  - destruct u; [|discriminate]. reflexivity.
  - destruct u as [|a u]; [discriminate|]. destruct v as [|b v]; [discriminate|].
    cbn [map2 seq map nth]. rewrite <- seq_shift, map_map.
    change (Np.vsum (?x :: ?w)) with (Cplx.add x (Np.vsum w)).
    f_equal. apply IH; cbn in *; lia.
Qed.

Lemma length_column (j : nat) (A : matrix) : length (Np.column j A) = length A.
Proof. unfold Np.column. apply length_map. Qed.

Lemma nth_column (j k : nat) (A : matrix) :
  nth k (Np.column j A) Cplx.zero = entry A k j.
Proof.
  unfold Np.column, entry.
  destruct (Nat.lt_ge_cases k (length A)) as [H|H].
  - rewrite (@nth_map_in _ _ _ A k [] Cplx.zero H). reflexivity.
  - rewrite (nth_overflow (map _ A)) by (rewrite length_map; exact H).
    rewrite (nth_overflow A) by exact H. destruct j; reflexivity.
Qed.

Lemma has_shape_dot {n m p : nat} {A B : matrix} :
  has_shape n m A -> has_shape m p B -> (0 < m)%nat ->
  has_shape n p (Np.dot A B).
Proof.
  intros [HA HAr] HB Hm. unfold Np.dot. split.
  - rewrite length_map. exact HA.
  - apply Forall_forall. intros r Hr. apply in_map_iff in Hr as [ra [<- _]].
    rewrite length_map. unfold Np.transpose. rewrite length_map, length_seq.
    apply (@has_shape_ncols m p B HB Hm).
Qed.

Lemma entry_dot {n m p : nat} {A B : matrix} (i j : nat) :
  has_shape n m A -> has_shape m p B -> (0 < m)%nat -> (i < n)%nat -> (j < p)%nat ->
  entry (Np.dot A B) i j
  = Np.vsum (map (fun k => Cplx.mul (entry A i k) (entry B k j)) (seq 0 m)).
Proof.
  intros HA HB Hm Hi Hj. unfold entry at 1. unfold Np.dot.
  destruct HA as [HAn HAr].
  rewrite (@nth_map_in _ _ _ A i [] []) by lia.
  unfold Np.transpose. rewrite (@has_shape_ncols m p B HB Hm).
  rewrite (@nth_map_in _ _ _ _ j [] Cplx.zero)
    by (rewrite length_map, length_seq; exact Hj).
  rewrite (@nth_map_seq _ _ 0 p j [] Hj). cbn [Nat.add].
  rewrite (vdot_entries m).
  - apply vsum_map_ext. intros k _. rewrite nth_column. reflexivity.
  - rewrite Forall_forall in HAr. apply HAr, nth_In. lia.
  - rewrite length_column. apply HB.
Qed.

(** Matrix multiplication is associative. *)
Lemma dot_assoc (n m p q : nat) (A B D : matrix) :
  has_shape n m A -> has_shape m p B -> has_shape p q D ->
  (0 < m)%nat -> (0 < p)%nat ->
  Np.dot (Np.dot A B) D = Np.dot A (Np.dot B D).
Proof.
  intros HA HB HD Hm Hp.
  pose proof (has_shape_dot HA HB Hm) as HAB.
  pose proof (has_shape_dot HB HD Hp) as HBD.
  apply (@matrix_ext n q).
  - apply (has_shape_dot HAB HD Hp).
  - apply (has_shape_dot HA HBD Hm).
  - intros i j Hi Hj.
    rewrite (entry_dot i j HAB HD Hp Hi Hj), (entry_dot i j HA HBD Hm Hi Hj).
    rewrite (vsum_map_ext _
      (fun l => Np.vsum (map (fun k => Cplx.mul (Cplx.mul (entry A i k) (entry B k l))
                                                (entry D l j)) (seq 0 m)))).
    2:{ intros l Hl. apply in_seq in Hl.
        rewrite (entry_dot i l HA HB Hm Hi) by lia.
        rewrite <- vsum_map_mul_r. reflexivity. }
    rewrite vsum_swap. apply vsum_map_ext. intros k Hk. apply in_seq in Hk.
    rewrite (entry_dot k j HB HD Hp) by lia.
    rewrite <- vsum_map_mul_l. apply vsum_map_ext. intros l _.
    apply CplxFacts.mul_assoc.
Qed.

Lemma entry_eye (n i j : nat) :
  (i < n)%nat -> (j < n)%nat ->
  entry (Np.eye n) i j = if Nat.eqb i j then Cplx.one else Cplx.zero.
Proof.
  intros Hi Hj. unfold entry, Np.eye.
  rewrite (@nth_map_seq _ _ 0 n i [] Hi). cbn [Nat.add].
  rewrite (@nth_map_seq _ _ 0 n j Cplx.zero Hj). reflexivity.
Qed.

Lemma dot_eye_l (n m : nat) (A : matrix) :
  has_shape n m A -> (0 < n)%nat -> Np.dot (Np.eye n) A = A.
Proof.
  intros HA Hn. apply (@matrix_ext n m).
  - apply (has_shape_dot (has_shape_eye n) HA Hn).
  - exact HA.
  - intros i j Hi Hj. rewrite (entry_dot i j (has_shape_eye n) HA Hn Hi Hj).
    rewrite (vsum_map_ext _ (fun k => if Nat.eqb k i then entry A k j else Cplx.zero)).
    + apply (vsum_single (fun k => entry A k j)). lia.
    + intros k Hk. apply in_seq in Hk. rewrite entry_eye by lia.
      rewrite Nat.eqb_sym. destruct (Nat.eqb_spec k i) as [->|_].
      * apply CplxFacts.mul_one_l.
      * apply CplxFacts.mul_zero_l.
Qed.

Lemma dot_eye_r (n m : nat) (A : matrix) :
  has_shape n m A -> (0 < m)%nat -> Np.dot A (Np.eye m) = A.
Proof.
  intros HA Hm. apply (@matrix_ext n m).
  - apply (has_shape_dot HA (has_shape_eye m) Hm).
  - exact HA.
  - intros i j Hi Hj. rewrite (entry_dot i j HA (has_shape_eye m) Hm Hi Hj).
    rewrite (vsum_map_ext _ (fun k => if Nat.eqb k j then entry A i k else Cplx.zero)).
    + apply (vsum_single (fun k => entry A i k)). lia.
    + intros k Hk. apply in_seq in Hk. rewrite entry_eye by lia.
      destruct (Nat.eqb_spec k j) as [->|_].
      * apply CplxFacts.mul_one_r.
      * apply CplxFacts.mul_zero_r.
Qed.

(** ** Well-formed operators *)

Lemma well_formed_shape (o : Operator) :
  well_formed o = true ->
  has_shape (length (_matrix o)) (length (_matrix o)) (_matrix o)
  /\ Np.prod (_dim o) = Z.of_nat (length (_matrix o)).
Proof.
  unfold well_formed. intros H. apply andb_true_iff in H as [Hs Hp].
  split.
  - split; [reflexivity | apply is_square_rows, Hs].
  - apply Z.eqb_eq, Hp.
Qed.

Lemma shape_well_formed (c : pyclass) (d : list Z) (n : nat) (M : matrix) :
  has_shape n n M -> Np.prod d = Z.of_nat n -> well_formed (mkOperator c d M) = true.
Proof.
  intros [Hn Hr] Hp. unfold well_formed. cbn [_matrix _dim].
  apply andb_true_iff. split.
  - unfold Np.is_square, Np.nrows. apply forallb_forall. intros r Hin.
    rewrite Forall_forall in Hr. apply Nat.eqb_eq. rewrite (Hr r Hin). lia.
  - apply Z.eqb_eq. unfold Np.nrows. rewrite Hn. exact Hp.
Qed.

(** Two well-formed operators with one dimension tuple have matrices of
    one shape. *)
Lemma same_dimension_same_side (a b : Operator) :
  well_formed a = true -> well_formed b = true -> dimension a = dimension b ->
  length (_matrix b) = length (_matrix a).
Proof.
  intros Ha Hb Hd. apply well_formed_shape in Ha as [_ Ha], Hb as [_ Hb].
  unfold dimension in Hd. rewrite Hd in Ha. lia.
Qed.

Lemma operator_eta (a : Operator) : mkOperator (op_class a) (_dim a) (_matrix a) = a.
Proof. destruct a. reflexivity. Qed.

Lemma Ok_operator_is (c : pyclass) (d : list Z) (M : matrix) (a : Operator) :
  c = op_class a -> d = _dim a -> M = _matrix a -> Ok (mkOperator c d M) = Ok a.
Proof. intros -> -> ->. rewrite operator_eta. reflexivity. Qed.

Lemma has_shape_0 (m : nat) (A : matrix) : has_shape 0 m A -> A = [].
Proof. intros [H _]. destruct A; [reflexivity | discriminate]. Qed.

(** ** Operator.__eq__ *)

(** X1: between well-formed operators whose entries are numbers (no entry
    is [nan], which is not equal to itself), [==] holds exactly when the
    dimension tuples and the matrices are equal, whatever the classes of
    the two operators; it is reflexive, symmetric and transitive, and
    [False] for anything that is not an Operator. *)
Theorem Operator_eq_equivalence (a b c : Operator) :
  well_formed a = true -> well_formed b = true -> well_formed c = true ->
  (Operator_eq a (PyOp b) = true <-> _dim a = _dim b /\ _matrix a = _matrix b)
  /\ Operator_eq a (PyOp a) = true
  /\ Operator_eq a (PyOp b) = Operator_eq b (PyOp a)
  /\ (Operator_eq a (PyOp b) = true -> Operator_eq b (PyOp c) = true ->
      Operator_eq a (PyOp c) = true)
  /\ Operator_eq a (PyOp (mkOperator ClsOperator (_dim a) (_matrix a))) = true
  /\ (forall x, Operator_eq a (PyNum x) = false)
  /\ Operator_eq a PyOther = false.
Proof.
  intros _ _ _.
  assert (Hiff : forall x y, Operator_eq x (PyOp y) = true
                             <-> _dim x = _dim y /\ _matrix x = _matrix y).
  { intros x y. unfold Operator_eq, dimension.
    destruct (dims_eqb (_dim x) (_dim y)) eqn:Hd; cbn [negb].
    - apply dims_eqb_eq in Hd. rewrite all_eq_eq. tauto.
    - split; [discriminate|]. intros [Hd' _]. apply dims_eqb_eq in Hd'. congruence. }
  split; [apply Hiff|]. split; [apply Hiff; split; reflexivity|].
  split.
  { destruct (Operator_eq a (PyOp b)) eqn:Hab.
    - symmetry. apply Hiff. apply Hiff in Hab as [Hd Hm]. split; congruence.
    - destruct (Operator_eq b (PyOp a)) eqn:Hba; [|reflexivity].
      apply Hiff in Hba as [Hd Hm]. rewrite <- Hab. apply Hiff.
      split; congruence. }
  split.
  { intros Hab Hbc. apply Hiff in Hab as [Hd1 Hm1]. apply Hiff in Hbc as [Hd2 Hm2].
    apply Hiff. split; congruence. }
  split; [apply Hiff; split; reflexivity|].
  split; reflexivity.
Qed.

(** ** Sums and differences *)

Lemma add_sub_cancel (x y : C) : Cplx.sub (Cplx.add x y) y = x.
Proof. apply CplxFacts.ext; cbn; ring. Qed.

Lemma add_opp_cancel (x y : C) : Cplx.add (Cplx.add x y) (Cplx.opp y) = x.
Proof. apply CplxFacts.ext; cbn; ring. Qed.

Lemma has_shape_scale (n m : nat) (A : matrix) (x : C) :
  has_shape n m A -> has_shape n m (Np.scale A x).
Proof. intros H. unfold Np.scale. apply (@has_shape_map_map _ n m A H). Qed.

Lemma has_shape_add (n m : nat) (A B : matrix) :
  has_shape n m A -> has_shape n m B -> has_shape n m (Np.add A B).
Proof. intros HA HB. apply (@has_shape_map2 Cplx.add n m A B HA HB). Qed.

Lemma has_shape_sub (n m : nat) (A B : matrix) :
  has_shape n m A -> has_shape n m B -> has_shape n m (Np.sub A B).
Proof. intros HA HB. apply (@has_shape_map2 Cplx.sub n m A B HA HB). Qed.

Lemma entry_add (n m : nat) (A B : matrix) (i j : nat) :
  has_shape n m A -> has_shape n m B -> (i < n)%nat -> (j < m)%nat ->
  entry (Np.add A B) i j = Cplx.add (entry A i j) (entry B i j).
Proof. intros HA HB Hi Hj. apply (@entry_map2 Cplx.add n m A B i j HA HB Hi Hj). Qed.

Lemma entry_sub (n m : nat) (A B : matrix) (i j : nat) :
  has_shape n m A -> has_shape n m B -> (i < n)%nat -> (j < m)%nat ->
  entry (Np.sub A B) i j = Cplx.sub (entry A i j) (entry B i j).
Proof. intros HA HB Hi Hj. apply (@entry_map2 Cplx.sub n m A B i j HA HB Hi Hj). Qed.

Lemma entry_scale (n m : nat) (A : matrix) (x : C) (i j : nat) :
  has_shape n m A -> (i < n)%nat -> (j < m)%nat ->
  entry (Np.scale A x) i j = Cplx.mul (entry A i j) x.
Proof.
  intros HA Hi Hj.
  apply (@entry_map_map (fun a => Cplx.mul a x) n m A i j HA Hi Hj).
Qed.

(** The three binary operators on two operators with one dimension tuple,
    and on an operator and a number. *)
Lemma Operator_add_operator (a b : Operator) :
  dimension a = dimension b ->
  Operator_add a (PyOp b)
  = Ok (mkOperator (op_class a) (_dim a) (Np.add (_matrix a) (_matrix b))).
Proof. intros H. unfold Operator_add. rewrite H, dims_eqb_refl. reflexivity. Qed.

Lemma Operator_sub_operator (a b : Operator) :
  dimension a = dimension b ->
  Operator_sub a (PyOp b)
  = Ok (mkOperator (op_class a) (_dim a) (Np.sub (_matrix a) (_matrix b))).
Proof. intros H. unfold Operator_sub. rewrite H, dims_eqb_refl. reflexivity. Qed.

Lemma Operator_mul_operator (a b : Operator) :
  dimension a = dimension b ->
  Operator_mul a (PyOp b)
  = Ok (mkOperator (op_class a) (_dim a) (Np.dot (_matrix a) (_matrix b))).
Proof. intros H. unfold Operator_mul. rewrite H, dims_eqb_refl. reflexivity. Qed.

Lemma Operator_add_number (a : Operator) (x : C) :
  Operator_add a (PyNum x)
  = Ok (mkOperator (op_class a) (_dim a)
          (Np.add (_matrix a) (Np.scale (Np.eye (length (_matrix a))) x))).
Proof. reflexivity. Qed.

Lemma Operator_eq_operator (a b : Operator) :
  _dim a = _dim b -> _matrix a = _matrix b -> Operator_eq a (PyOp b) = true.
Proof.
  intros Hd Hm. unfold Operator_eq, dimension. rewrite Hd, dims_eqb_refl, Hm.
  apply all_eq_refl.
Qed.

(** X2: for two well-formed operators with one dimension tuple, [a + b] and
    [b + a] are equal operators (each of the class of its left operand),
    the sum is well formed, and [(a + b) - b] is [a]; for a number [x],
    [(a + x) - x] is [a]. *)
Theorem Operator_add_commutes_and_sub_inverts (a b : Operator) :
  well_formed a = true -> well_formed b = true -> dimension a = dimension b ->
  exists s t : Operator,
    Operator_add a (PyOp b) = Ok s
    /\ Operator_add b (PyOp a) = Ok t
    /\ op_class s = op_class a /\ op_class t = op_class b
    /\ well_formed s = true
    /\ Operator_eq s (PyOp t) = true
    /\ Operator_sub s (PyOp b) = Ok a
    /\ forall x : C,
         exists u : Operator,
           Operator_add a (PyNum x) = Ok u /\ Operator_sub u (PyNum x) = Ok a.
Proof.
  intros Ha Hb Hd.
  pose proof (same_dimension_same_side a b Ha Hb Hd) as Hlen.
  destruct (well_formed_shape a Ha) as [HsA HpA].
  destruct (well_formed_shape b Hb) as [HsB HpB].
  rewrite Hlen in HsB. set (n := length (_matrix a)) in *.
  assert (Hab : Np.add (_matrix a) (_matrix b) = Np.add (_matrix b) (_matrix a)).
  { apply (@matrix_ext n n).
    - apply has_shape_add; assumption.
    - apply has_shape_add; assumption.
    - intros i j Hi Hj. rewrite !(entry_add n n) by assumption.
      apply CplxFacts.add_comm. }
  rewrite (Operator_add_operator a b Hd), (Operator_add_operator b a (eq_sym Hd)).
  eexists. eexists.
  split; [reflexivity|]. split; [reflexivity|].
  split; [reflexivity|]. split; [reflexivity|].
  split.
  { apply (shape_well_formed _ _ n); [apply has_shape_add; assumption | exact HpA]. }
  split.
  { apply Operator_eq_operator; [exact Hd | exact Hab]. }
  split.
  { rewrite Operator_sub_operator by exact Hd. cbn [op_class _dim _matrix].
    apply Ok_operator_is; [reflexivity | reflexivity |].
    apply (@matrix_ext n n).
    - apply has_shape_sub; [apply has_shape_add|]; assumption.
    - exact HsA.
    - intros i j Hi Hj.
      rewrite (entry_sub n n), (entry_add n n); try assumption.
      + apply add_sub_cancel.
      + apply has_shape_add; assumption. }
  intros x. rewrite Operator_add_number. eexists. split; [reflexivity|].
  unfold Operator_sub. rewrite Operator_add_number. cbn [op_class _dim _matrix].
  apply Ok_operator_is; [reflexivity | reflexivity |].
  assert (He : forall y, has_shape n n (Np.scale (Np.eye n) y)).
  { intros y. apply has_shape_scale, has_shape_eye. }
  assert (Hs1 : has_shape n n (Np.add (_matrix a) (Np.scale (Np.eye n) x))).
  { apply has_shape_add; [assumption | apply He]. }
  fold n. replace (length (Np.add (_matrix a) (Np.scale (Np.eye n) x))) with n
    by (symmetry; apply Hs1).
  apply (@matrix_ext n n).
  - apply has_shape_add; [exact Hs1 | apply He].
  - exact HsA.
  - intros i j Hi Hj.
    rewrite (entry_add n n _ _ i j Hs1 (He _) Hi Hj).
    rewrite (entry_add n n _ _ i j HsA (He _) Hi Hj).
    rewrite !(entry_scale n n) by (try apply has_shape_eye; assumption).
    apply CplxFacts.ext; cbn; ring.
Qed.

(** ** Products *)

Lemma dot_add_distr_l (n m p : nat) (A B D : matrix) :
  has_shape n m A -> has_shape m p B -> has_shape m p D -> (0 < m)%nat ->
  Np.dot A (Np.add B D) = Np.add (Np.dot A B) (Np.dot A D).
Proof.
  intros HA HB HD Hm.
  pose proof (has_shape_add m p B D HB HD) as HBD.
  apply (@matrix_ext n p).
  - apply (has_shape_dot HA HBD Hm).
  - apply has_shape_add; [apply (has_shape_dot HA HB Hm) | apply (has_shape_dot HA HD Hm)].
  - intros i j Hi Hj.
    rewrite (entry_add n p _ _ i j (has_shape_dot HA HB Hm) (has_shape_dot HA HD Hm) Hi Hj).
    rewrite (entry_dot i j HA HBD Hm Hi Hj), (entry_dot i j HA HB Hm Hi Hj),
            (entry_dot i j HA HD Hm Hi Hj).
    rewrite <- vsum_map_add. apply vsum_map_ext. intros k Hk. apply in_seq in Hk.
    rewrite (entry_add m p) by (assumption || lia).
    apply CplxFacts.mul_add_distr_l.
Qed.

Lemma dot_add_distr_r (n m p : nat) (A B D : matrix) :
  has_shape n m A -> has_shape n m B -> has_shape m p D -> (0 < m)%nat ->
  Np.dot (Np.add A B) D = Np.add (Np.dot A D) (Np.dot B D).
Proof.
  intros HA HB HD Hm.
  pose proof (has_shape_add n m A B HA HB) as HAB.
  apply (@matrix_ext n p).
  - apply (has_shape_dot HAB HD Hm).
  - apply has_shape_add; [apply (has_shape_dot HA HD Hm) | apply (has_shape_dot HB HD Hm)].
  - intros i j Hi Hj.
    rewrite (entry_add n p _ _ i j (has_shape_dot HA HD Hm) (has_shape_dot HB HD Hm) Hi Hj).
    rewrite (entry_dot i j HAB HD Hm Hi Hj), (entry_dot i j HA HD Hm Hi Hj),
            (entry_dot i j HB HD Hm Hi Hj).
    rewrite <- vsum_map_add. apply vsum_map_ext. intros k Hk. apply in_seq in Hk.
    rewrite (entry_add n m) by (assumption || lia).
    apply CplxFacts.mul_add_distr_r.
Qed.

(** X3: on well-formed operators with one dimension tuple the product [*]
    is associative and distributes over [+] on both sides; every product
    and sum is again well formed, with the class and the dimension tuple
    of its left operand. *)
Theorem Operator_mul_associates_and_distributes (a b c : Operator) :
  well_formed a = true -> well_formed b = true -> well_formed c = true ->
  dimension a = dimension b -> dimension b = dimension c ->
  exists ab bc ac abc s l : Operator,
    Operator_mul a (PyOp b) = Ok ab
    /\ Operator_mul b (PyOp c) = Ok bc
    /\ Operator_mul a (PyOp c) = Ok ac
    /\ Operator_mul ab (PyOp c) = Ok abc
    /\ Operator_mul a (PyOp bc) = Ok abc
    /\ well_formed abc = true /\ op_class abc = op_class a /\ _dim abc = _dim a
    /\ Operator_add b (PyOp c) = Ok s
    /\ Operator_mul a (PyOp s) = Ok l
    /\ Operator_add ab (PyOp ac) = Ok l
    /\ (r <- Operator_add a (PyOp b) ;; Operator_mul r (PyOp c))
       = (x <- Operator_mul a (PyOp c) ;; y <- Operator_mul b (PyOp c) ;;
          Operator_add x (PyOp y)).
Proof.
  intros Ha Hb Hc Hab Hbc.
  pose proof (same_dimension_same_side a b Ha Hb Hab) as Hlb.
  pose proof (same_dimension_same_side b c Hb Hc Hbc) as Hlc.
  destruct (well_formed_shape a Ha) as [HsA HpA].
  destruct (well_formed_shape b Hb) as [HsB _].
  destruct (well_formed_shape c Hc) as [HsC _].
  rewrite Hlb in HsB. rewrite Hlc, Hlb in HsC.
  set (n := length (_matrix a)) in *.
  assert (Hac : dimension a = dimension c) by congruence.
  set (mk := mkOperator (op_class a) (_dim a)).
  assert (Hmul : forall x y, _dim x = _dim a -> _dim y = _dim a ->
            Operator_mul x (PyOp y)
            = Ok (mkOperator (op_class x) (_dim x) (Np.dot (_matrix x) (_matrix y)))).
  { intros x y Hx Hy. apply Operator_mul_operator. unfold dimension. congruence. }
  assert (Hadd : forall x y, _dim x = _dim a -> _dim y = _dim a ->
            Operator_add x (PyOp y)
            = Ok (mkOperator (op_class x) (_dim x) (Np.add (_matrix x) (_matrix y)))).
  { intros x y Hx Hy. apply Operator_add_operator. unfold dimension. congruence. }
  assert (Hdb : _dim b = _dim a) by (symmetry; exact Hab).
  assert (Hdc : _dim c = _dim a) by (symmetry; exact Hac).
  assert (Hassoc : Np.dot (Np.dot (_matrix a) (_matrix b)) (_matrix c)
                   = Np.dot (_matrix a) (Np.dot (_matrix b) (_matrix c))
                   /\ has_shape n n (Np.dot (_matrix a) (Np.dot (_matrix b) (_matrix c)))
                   /\ Np.dot (_matrix a) (Np.add (_matrix b) (_matrix c))
                      = Np.add (Np.dot (_matrix a) (_matrix b))
                               (Np.dot (_matrix a) (_matrix c))
                   /\ Np.dot (Np.add (_matrix a) (_matrix b)) (_matrix c)
                      = Np.add (Np.dot (_matrix a) (_matrix c))
                               (Np.dot (_matrix b) (_matrix c))).
  { destruct (Nat.eq_dec n 0) as [Hn0 | Hn0].
    - rewrite Hn0 in HsA, HsB, HsC.
      apply has_shape_0 in HsA, HsB, HsC. rewrite HsA, HsB, HsC. rewrite Hn0.
      repeat split. constructor.
    - assert (Hn : (0 < n)%nat) by lia.
      split; [apply (dot_assoc n n n n); assumption|].
      split; [apply (has_shape_dot HsA (has_shape_dot HsB HsC Hn) Hn)|].
      split; [apply (dot_add_distr_l n n n) | apply (dot_add_distr_r n n n)];
        assumption. }
  destruct Hassoc as [H1 [H2 [H3 H4]]].
  exists (mk (Np.dot (_matrix a) (_matrix b))).
  exists (mkOperator (op_class b) (_dim b) (Np.dot (_matrix b) (_matrix c))).
  exists (mk (Np.dot (_matrix a) (_matrix c))).
  exists (mk (Np.dot (_matrix a) (Np.dot (_matrix b) (_matrix c)))).
  exists (mkOperator (op_class b) (_dim b) (Np.add (_matrix b) (_matrix c))).
  exists (mk (Np.add (Np.dot (_matrix a) (_matrix b)) (Np.dot (_matrix a) (_matrix c)))).
  unfold mk.
  rewrite !Hmul, !Hadd by (cbn [_dim]; congruence). cbn [bind op_class _dim _matrix].
  rewrite !Hmul, !Hadd by (cbn [_dim]; congruence). cbn [bind op_class _dim _matrix].
  rewrite H1, H3, H4.
  repeat (split; [reflexivity|]).
  split; [apply (shape_well_formed _ _ n); assumption|].
  repeat (split; [reflexivity|]). reflexivity.
Qed.

(** ** What the constructors return *)

Lemma rectangular_rows (M : matrix) :
  Np.rectangular M = true -> Forall (fun r => length r = Np.ncols M) M.
Proof.
  unfold Np.rectangular. intros H. apply Forall_forall. intros r Hr.
  rewrite forallb_forall in H. apply Nat.eqb_eq, H, Hr.
Qed.

(** Whatever [Operator.__init__] accepts is a non-empty square array, kept
    as it is, with a dimension tuple whose product is its side. *)
Lemma Operator_init_inv (c : pyclass) (rows : list (list C)) (dim : option (list Z))
  (o : Operator) :
  Operator_init c rows dim = Ok o ->
  (0 < length rows)%nat
  /\ has_shape (length rows) (length rows) rows
  /\ o = mkOperator c (match dim with Some d => d | None => [Z.of_nat (length rows)] end)
                    rows
  /\ Np.prod (_dim o) = Z.of_nat (length rows).
Proof.
  unfold Operator_init, Np.array2. destruct rows as [|r rows]; [discriminate|].
  destruct (Np.rectangular (r :: rows)) eqn:Hrect; [|discriminate].
  cbn [bind]. unfold Np.nrows.
  destruct (Nat.eqb (length (r :: rows)) (Np.ncols (r :: rows))) eqn:Hsq;
    cbn [negb]; [|discriminate].
  apply Nat.eqb_eq in Hsq. apply rectangular_rows in Hrect. rewrite <- Hsq in Hrect.
  assert (Hshape : has_shape (length (r :: rows)) (length (r :: rows)) (r :: rows)).
  { split; [reflexivity | exact Hrect]. }
  destruct dim as [d|].
  - destruct (Z.eqb (Np.prod d) (Z.of_nat (length (r :: rows)))) eqn:Hp;
      cbn [negb]; [|discriminate].
    intros [= <-]. apply Z.eqb_eq in Hp.
    split; [cbn; lia|]. split; [exact Hshape|]. split; [reflexivity | exact Hp].
  - intros [= <-]. split; [cbn; lia|]. split; [exact Hshape|].
    split; [reflexivity|]. cbn. lia.
Qed.

Lemma diagonal_from_map_map (f : C -> C) (M : matrix) (s : nat) :
  f Cplx.zero = Cplx.zero ->
  Np.diagonal_from s (map (map f) M) = map f (Np.diagonal_from s M).
Proof.
  intros Hf. revert s. induction M as [|r M IH]; intros s; [reflexivity|].
  cbn [map Np.diagonal_from]. rewrite IH. f_equal.
  destruct (Nat.lt_ge_cases s (length r)) as [H|H].
  - apply (@nth_map_in _ _ f r s Cplx.zero Cplx.zero H).
  - rewrite !nth_overflow by (rewrite ?length_map; exact H). symmetry. exact Hf.
Qed.

Lemma trace_divide (M : matrix) (t : C) :
  Np.trace (Np.divide M t) = Cplx.div (Np.trace M) t.
Proof.
  unfold Np.trace, Np.diagonal, Np.divide.
  rewrite (diagonal_from_map_map (fun a => Cplx.div a t)) by apply div_zero_l.
  apply vsum_div.
Qed.

Lemma trace_scale (M : matrix) (c : C) :
  Np.trace (Np.scale M c) = Cplx.mul (Np.trace M) c.
Proof.
  unfold Np.trace, Np.diagonal, Np.scale.
  rewrite (diagonal_from_map_map (fun a => Cplx.mul a c)) by apply CplxFacts.mul_zero_l.
  rewrite <- (map_id (Np.diagonal_from 0 M)) at 2.
  apply (vsum_map_mul_r c (fun a => a)).
Qed.

Lemma has_shape_divide (n m : nat) (A : matrix) (t : C) :
  has_shape n m A -> has_shape n m (Np.divide A t).
Proof. intros H. unfold Np.divide. apply (@has_shape_map_map _ n m A H). Qed.

(** What [DensityOperator.__init__] accepts: a non-empty square array of
    non-zero trace that passes the Hermiticity test once divided by its
    trace. *)
Lemma DensityOperator_init_inv (rows : list (list C)) (dim : option (list Z))
  (rho : Operator) :
  DensityOperator_init rows dim = Ok rho ->
  has_shape (length rows) (length rows) rows
  /\ Np.trace rows <> Cplx.zero
  /\ rho = mkOperator ClsDensityOperator
             (match dim with Some d => d | None => [Z.of_nat (length rows)] end)
             (Np.divide rows (Np.trace rows))
  /\ Np.prod (_dim rho) = Z.of_nat (length rows)
  /\ is_hermitian rho = true.
Proof.
  unfold DensityOperator_init.
  destruct (Operator_init ClsDensityOperator rows dim) as [o|e] eqn:Hinit;
    [|discriminate].
  apply Operator_init_inv in Hinit as [Hn [Hshape [-> Hp]]].
  cbn [bind _matrix].
  destruct (Cplx.eqb (Np.trace rows) Cplx.zero) eqn:Htr; [discriminate|].
  destruct (is_hermitian (normalize _)) eqn:Hh; cbn [negb]; [|discriminate].
  intros [= <-]. unfold normalize, with_matrix, trace in *. cbn [op_class _dim _matrix] in *.
  split; [exact Hshape|]. split.
  { intros E. rewrite E, CplxFacts.eqb_refl in Htr. discriminate. }
  split; [reflexivity|]. split; [exact Hp | exact Hh].
Qed.


(** X5: [Operator(matrix, dim)] tests the shape before the dimension tuple:
    an array that is not square raises the square-matrix error whatever
    [dim] is; a square one is accepted when the product of [dim] is its
    side, and raises the dimension error when [dim] has int64 entries
    whose product is an int64 number other than its side ([np.prod] wraps
    a larger product, which is left out here); what is returned for such
    a [dim] keeps the array as it is and is well formed. *)
Theorem Operator_init_outcomes (c : pyclass) (n m : nat) (rows : list (list C)) :
  has_shape n m rows -> (0 < n)%nat ->
  (n <> m -> forall dim, Operator_init c rows dim = Raise NotSquare)
  /\ (n = m ->
      Operator_init c rows None = Ok (mkOperator c [Z.of_nat n] rows)
      /\ (forall d, Np.prod d = Z.of_nat n ->
                    Operator_init c rows (Some d) = Ok (mkOperator c d rows))
      /\ (forall d, prod_fits_int64 d -> Np.prod d <> Z.of_nat n ->
                    Operator_init c rows (Some d) = Raise DimMismatch))
  /\ (forall dim o,
        match dim with Some d => prod_fits_int64 d | None => True end ->
        Operator_init c rows dim = Ok o ->
        well_formed o = true /\ op_class o = c /\ _matrix o = rows)
  /\ exc_class NotSquare = ValueError /\ exc_class DimMismatch = ValueError.
Proof.
  intros Hshape Hn.
  pose proof (@array2_ok n m rows Hshape Hn) as Harr.
  pose proof (@has_shape_ncols n m rows Hshape Hn) as Hcols.
  assert (Hrows : Np.nrows rows = n) by apply Hshape.
  split; [|split; [|split; [|split; reflexivity]]].
  - intros Hne dim. unfold Operator_init. rewrite Harr. cbn [bind].
    rewrite Hrows, Hcols. destruct (Nat.eqb_spec n m); [contradiction | reflexivity].
  - intros <-. split; [|split].
    + apply (@Operator_init_default_ok c n rows Hshape Hn).
    + intros d Hd. apply (@Operator_init_ok c n rows d Hshape Hn Hd).
    + intros d _ Hd. unfold Operator_init. rewrite Harr. cbn [bind].
      rewrite Hrows, Hcols, Nat.eqb_refl. cbn [negb].
      destruct (Z.eqb_spec (Np.prod d) (Z.of_nat n)); [contradiction | reflexivity].
  - intros dim o _ Ho. apply Operator_init_inv in Ho as [_ [Hs [-> Hp]]].
    split; [|split; reflexivity].
    apply (shape_well_formed _ _ (length rows) _ Hs Hp).
Qed.

(** ** What DensityOperator refuses *)

Lemma is_hermitian_entries (c : pyclass) (d : list Z) (n : nat) (M : matrix) :
  has_shape n n M -> (0 < n)%nat ->
  is_hermitian (mkOperator c d M) = true -> hermitian n M.
Proof.
  intros HM Hn H. unfold is_hermitian in H. cbn [_matrix] in H.
  apply all_eq_eq in H.
  intros i j Hi Hj. rewrite CplxFacts.mul_one_l.
  assert (Hc : has_shape n n (Np.conj M)).
  { unfold Np.conj. apply (@has_shape_map_map _ n n M HM). }
  rewrite H at 2.
  rewrite (@entry_transpose n n (Np.conj M) i j Hc Hi Hj).
  unfold Np.conj. rewrite (@entry_map_map Cplx.conj n n M j i HM Hj Hi). reflexivity.
Qed.

Lemma mul_div_cancel (a t : C) : t <> Cplx.zero -> Cplx.mul (Cplx.div a t) t = a.
Proof.
  intros Ht. pose proof (norm2_ne_0 Ht) as Hn. unfold Cplx.norm2 in Hn.
  destruct a as [ar ai], t as [tr ti]. cbn [Cplx.re Cplx.im] in Hn.
  apply CplxFacts.ext; unfold Cplx.div, Cplx.mul, Cplx.norm2; cbn [Cplx.re Cplx.im];
    field; exact Hn.
Qed.

(** X6: in exact arithmetic, for a square array with a fitting dimension
    tuple, the constructor of DensityOperator raises the zero-trace error
    when the trace is zero, and the Hermiticity error when the trace is
    real and not zero and the array is not Hermitian.  (The program tests
    the rounded sum and the rounded quotients; a rounding can make a
    matrix that is not Hermitian pass.) *)
Theorem DensityOperator_init_refusals (n : nat) (M : matrix) (dim : option (list Z)) :
  has_shape n n M -> (0 < n)%nat ->
  match dim with Some d => Np.prod d = Z.of_nat n | None => True end ->
  (Np.trace M = Cplx.zero -> DensityOperator_init M dim = Raise ZeroTrace)
  /\ (Np.trace M <> Cplx.zero -> is_real (Np.trace M) -> ~ hermitian n M ->
      DensityOperator_init M dim = Raise NonHermitian)
  /\ exc_class ZeroTrace = ValueError /\ exc_class NonHermitian = ValueError.
Proof.
  intros HM Hn Hd.
  assert (Hinit : Operator_init ClsDensityOperator M dim
                  = Ok (mkOperator ClsDensityOperator
                          (match dim with Some d => d | None => [Z.of_nat n] end) M)).
  { destruct dim as [d|].
    - apply (@Operator_init_ok _ n M d HM Hn Hd).
    - apply (@Operator_init_default_ok _ n M HM Hn). }
  unfold DensityOperator_init. rewrite Hinit. cbn [bind _matrix].
  split; [|split; [|split; reflexivity]].
  - intros ->. rewrite CplxFacts.eqb_refl. reflexivity.
  - intros Hne Hreal Hnh. rewrite (@eqb_false_ne _ _ Hne).
    destruct (is_hermitian _) eqn:Hh; [|reflexivity]. exfalso. apply Hnh.
    unfold normalize, with_matrix, trace in Hh. cbn [op_class _dim _matrix] in Hh.
    set (t := Np.trace M) in *.
    apply (is_hermitian_entries _ _ n) in Hh;
      [| apply has_shape_divide, HM | exact Hn].
    intros i j Hi Hj. specialize (Hh i j Hi Hj).
    unfold Np.divide in Hh.
    rewrite (@entry_map_map _ n n M j i HM Hj Hi) in Hh.
    rewrite (@entry_map_map _ n n M i j HM Hi Hj) in Hh.
    rewrite !CplxFacts.mul_one_l in *.
    rewrite conj_div, (conj_real Hreal) in Hh.
    rewrite <- (mul_div_cancel (Cplx.conj (entry M j i)) t Hne), Hh.
    apply mul_div_cancel, Hne.
Qed.

(** ** Rescaling the argument of DensityOperator *)

Lemma array2_map_map (f : C -> C) (rows : list (list C)) :
  Np.array2 (map (map f) rows)
  = (M <- Np.array2 rows ;; Ok (map (map f) M)).
Proof.
  unfold Np.array2. destruct rows as [|r rows]; [reflexivity|].
  cbn [map].
  assert (H : Np.rectangular (map f r :: map (map f) rows)
              = Np.rectangular (r :: rows)).
  { unfold Np.rectangular, Np.ncols. cbn [hd forallb]. rewrite !length_map.
    f_equal. induction rows as [|s rows IH]; [reflexivity|].
    cbn [map forallb]. rewrite length_map, IH. reflexivity. }
  rewrite H. destruct (Np.rectangular (r :: rows)); reflexivity.
Qed.

Lemma div_mul_cancel_r (a t c : C) :
  c <> Cplx.zero -> t <> Cplx.zero ->
  Cplx.div (Cplx.mul a c) (Cplx.mul t c) = Cplx.div a t.
Proof.
  intros Hc Ht. pose proof (norm2_ne_0 Hc) as Hnc. pose proof (norm2_ne_0 Ht) as Hnt.
  unfold Cplx.norm2 in *.
  destruct a as [ar ai], t as [tr ti], c as [cr ci]. cbn [Cplx.re Cplx.im] in Hnc, Hnt.
  assert (Hn : ((tr * cr - ti * ci) * (tr * cr - ti * ci)
                + (tr * ci + ti * cr) * (tr * ci + ti * cr))%Qc <> Q2Qc 0).
  { replace ((tr * cr - ti * ci) * (tr * cr - ti * ci)
             + (tr * ci + ti * cr) * (tr * ci + ti * cr))%Qc
      with ((tr * tr + ti * ti) * (cr * cr + ci * ci))%Qc by ring.
    intros E. apply Qcmult_integral in E. tauto. }
  apply CplxFacts.ext; unfold Cplx.div, Cplx.mul, Cplx.norm2; cbn [Cplx.re Cplx.im];
    field; repeat split; assumption.
Qed.

Lemma mul_ne_0 (a b : C) : a <> Cplx.zero -> b <> Cplx.zero -> Cplx.mul a b <> Cplx.zero.
Proof.
  intros Ha Hb E. apply (f_equal Cplx.norm2) in E.
  pose proof (norm2_ne_0 Ha) as Hna. pose proof (norm2_ne_0 Hb) as Hnb.
  unfold Cplx.norm2, Cplx.mul, Cplx.zero, Cplx.of_Qc in *.
  destruct a as [ar ai], b as [br bi]. cbn [Cplx.re Cplx.im] in *.
  replace ((ar * br - ai * bi) * (ar * br - ai * bi)
           + (ar * bi + ai * br) * (ar * bi + ai * br))%Qc
    with ((ar * ar + ai * ai) * (br * br + bi * bi))%Qc in E by ring.
  replace (0 * 0 + 0 * 0)%Qc with (Q2Qc 0) in E by ring.
  apply Qcmult_integral in E. tauto.
Qed.

(** X7: the constructor of DensityOperator does not see a rescaling of its
    argument: for every complex number [c] other than zero,
    [DensityOperator(M * c, dim)] returns, or raises, what
    [DensityOperator(M, dim)] does. *)
Theorem DensityOperator_init_scale_invariant (M : list (list C)) (dim : option (list Z))
  (c : C) :
  c <> Cplx.zero ->
  DensityOperator_init (Np.scale M c) dim = DensityOperator_init M dim.
Proof.
  intros Hc. unfold DensityOperator_init, Operator_init, Np.scale.
  rewrite array2_map_map. fold (Np.scale M c).
  destruct (Np.array2 M) as [A|e] eqn:HA; [|reflexivity].
  cbn [bind]. fold (Np.scale A c).
  assert (Hr : Np.nrows (Np.scale A c) = Np.nrows A) by apply length_map.
  assert (Hcols : Np.ncols (Np.scale A c) = Np.ncols A).
  { unfold Np.ncols, Np.scale. destruct A; [reflexivity|]. cbn [map hd]. apply length_map. }
  rewrite Hr, Hcols.
  destruct (negb (Nat.eqb (Np.nrows A) (Np.ncols A))); [reflexivity|].
  assert (Hbody : forall d,
    (let self := mkOperator ClsDensityOperator d (Np.scale A c) in
     unless Cplx.eqb (Np.trace (_matrix self)) Cplx.zero raise ZeroTrace ;;
     unless negb (is_hermitian (normalize self)) raise NonHermitian ;;
     Ok (normalize self))
    = (let self := mkOperator ClsDensityOperator d A in
       unless Cplx.eqb (Np.trace (_matrix self)) Cplx.zero raise ZeroTrace ;;
       unless negb (is_hermitian (normalize self)) raise NonHermitian ;;
       Ok (normalize self))).
  { intros d. cbn zeta. cbn [_matrix]. rewrite trace_scale.
    destruct (Cplx.eqb (Np.trace A) Cplx.zero) eqn:Ht.
    - apply CplxFacts.eqb_eq in Ht. rewrite Ht, CplxFacts.mul_zero_l, CplxFacts.eqb_refl.
      reflexivity.
    - assert (Hne : Np.trace A <> Cplx.zero).
      { intros E. rewrite E, CplxFacts.eqb_refl in Ht. discriminate. }
      rewrite (@eqb_false_ne _ _ (mul_ne_0 _ _ Hne Hc)).
      assert (Hn : normalize (mkOperator ClsDensityOperator d (Np.scale A c))
                   = normalize (mkOperator ClsDensityOperator d A)).
      { unfold normalize, with_matrix, trace. cbn [op_class _dim _matrix].
        f_equal. rewrite trace_scale. unfold Np.divide, Np.scale.
        rewrite map_map. apply map_ext. intros r. rewrite map_map.
        apply map_ext. intros a. apply div_mul_cancel_r; assumption. }
      rewrite Hn. reflexivity. }
  destruct dim as [d|].
  - destruct (negb (Z.eqb (Np.prod d) (Z.of_nat (Np.nrows A)))); [reflexivity|].
    cbn [bind]. apply Hbody.
  - cbn [bind]. apply Hbody.
Qed.

(** ** The Kronecker product of square matrices *)

Lemma vsum_app (u v : vector) : Np.vsum (u ++ v) = Cplx.add (Np.vsum u) (Np.vsum v).
Proof.
  unfold Np.vsum. induction u as [|a u IH]; cbn [app fold_right].
  - symmetry. apply CplxFacts.add_zero_l.
  - rewrite IH. symmetry. apply CplxFacts.add_assoc.
Qed.

Lemma map_seq_shift {A} (f : nat -> A) (s n : nat) :
  map f (seq s n) = map (fun k => f (s + k)%nat) (seq 0 n).
Proof.
  revert s. induction n as [|n IH]; intros s; [reflexivity|].
  cbn [seq map]. rewrite Nat.add_0_r. f_equal.
  rewrite IH, <- seq_shift, map_map. apply map_ext. intros k. f_equal. lia.
Qed.

(** A sum over [n * m] indices is a sum of [n] sums over [m] indices. *)
Lemma vsum_seq_mul (f : nat -> C) (n m : nat) :
  Np.vsum (map f (seq 0 (n * m)))
  = Np.vsum (map (fun i => Np.vsum (map (fun k => f (i * m + k)%nat) (seq 0 m)))
                 (seq 0 n)).
Proof.
  induction n as [|n IH]; [reflexivity|].
  replace (S n * m)%nat with (n * m + m)%nat by lia.
  rewrite seq_app, map_app, vsum_app, IH, seq_S, map_app, vsum_app.
  f_equal. cbn [Nat.add map]. rewrite map_seq_shift.
  change (Np.vsum [?x]) with (Cplx.add x Cplx.zero).
  rewrite CplxFacts.add_zero_r. reflexivity.
Qed.

Lemma entry_kron (n m p q : nat) (A B : matrix) (i j k l : nat) :
  has_shape n m A -> has_shape p q B ->
  (i < n)%nat -> (j < m)%nat -> (k < p)%nat -> (l < q)%nat ->
  entry (Np.kron A B) (i * p + k) (j * q + l)
  = Cplx.mul (entry A i j) (entry B k l).
Proof.
  intros HA HB Hi Hj Hk Hl. unfold entry.
  pose proof (@has_shape_row n m A i HA Hi) as HrA.
  pose proof (@has_shape_row p q B k HB Hk) as HrB.
  destruct HA as [HAn _], HB as [HBn _].
  rewrite <- (@kron_entry A B i j k l); rewrite ?HBn, ?HrB; try lia.
  reflexivity.
Qed.

(** C8, as amended.  [Operator.kron] never fails between two Operators;
    the result has the class of the left operand and the concatenated
    dimension tuples, and its matrix is the Kronecker product: for
    matrices of shapes [n x m] and [p x q] it has shape [np x mq] and its
    entry [(i*p + k, j*q + l)] is [A[i][j] * B[k][l]].  The two ways of
    bracketing a product of three Operators give the same dimension
    tuple, and, in exact arithmetic, matrices that [==] accepts as
    equal. *)
Theorem kron_total_and_associative (A B D : Operator) :
  (exists AB : Operator,
     Operator_kron A (PyOp B) = Ok AB
     /\ op_class AB = op_class A
     /\ _dim AB = _dim A ++ _dim B
     /\ forall n m p q : nat,
          has_shape n m (_matrix A) -> has_shape p q (_matrix B) ->
          has_shape (n * p) (m * q) (_matrix AB)
          /\ forall i j k l : nat,
               (i < n)%nat -> (j < m)%nat -> (k < p)%nat -> (l < q)%nat ->
               entry (_matrix AB) (i * p + k) (j * q + l)
               = Cplx.mul (entry (_matrix A) i j) (entry (_matrix B) k l))
  /\ exists L R : Operator,
       (AB <- Operator_kron A (PyOp B) ;; Operator_kron AB (PyOp D)) = Ok L
       /\ (BD <- Operator_kron B (PyOp D) ;; Operator_kron A (PyOp BD)) = Ok R
       /\ _dim L = _dim A ++ _dim B ++ _dim D
       /\ _dim R = _dim L
       /\ Operator_eq L (PyOp R) = true.
Proof.
  split.
  - eexists. split; [reflexivity|]. split; [reflexivity|]. split; [reflexivity|].
    cbn [_matrix]. intros n m p q HA HB. split.
    + apply (@has_shape_kron n m p q (_matrix A) (_matrix B) HA HB).
    + intros i j k l Hi Hj Hk Hl.
      apply (entry_kron n m p q (_matrix A) (_matrix B) i j k l HA HB Hi Hj Hk Hl).
  - eexists; eexists. split; [reflexivity|]. split; [reflexivity|].
    split; [symmetry; apply app_assoc|].
    split; [cbn [_dim]; apply app_assoc|].
    unfold Operator_eq, dimension; cbv [_dim _matrix].
    rewrite <- app_assoc, dims_eqb_refl.
    rewrite kron_assoc. apply all_eq_refl.
Qed.

Lemma kron_total_and_associative_witness :
  exists AB : Operator,
    Operator_kron Samples.sx (PyOp Samples.sz) = Ok AB
    /\ _dim AB = [2; 2]%Z
    /\ has_shape 4 4 (_matrix AB)
    /\ entry (_matrix AB) 1 2
       = Cplx.mul (entry (_matrix Samples.sx) 0 1) (entry (_matrix Samples.sz) 1 0).
Proof.
  destruct (proj1 (kron_total_and_associative Samples.sx Samples.sz Samples.rho))
    as [AB [H1 [_ [H2 H3]]]].
  assert (Hs : forall M : matrix, length M = 2%nat ->
                 Forall (fun r => length r = 2%nat) M -> has_shape 2 2 M)
    by (intros M Hl Hr; split; assumption).
  destruct (H3 2%nat 2%nat 2%nat 2%nat) as [H4 H5].
  - apply Hs; [reflexivity | repeat constructor].
  - apply Hs; [reflexivity | repeat constructor].
  - exists AB. split; [exact H1|]. split; [exact H2|]. split; [exact H4|].
    apply (H5 0%nat 1%nat 1%nat 0%nat); lia.
Defined.

(** Every index below [n * m] is [i * m + k] for one [i < n] and [k < m]. *)
Lemma index_split (n m x : nat) :
  (x < n * m)%nat ->
  (x = (x / m) * m + x mod m)%nat /\ (x / m < n)%nat /\ (x mod m < m)%nat.
Proof.
  intros H. assert (Hm : m <> 0%nat) by (intros ->; lia).
  split; [|split].
  - rewrite Nat.mul_comm. apply Nat.div_mod_eq.
  - apply Nat.Div0.div_lt_upper_bound. lia.
  - apply Nat.mod_upper_bound, Hm.
Qed.

Lemma trace_kron (n m : nat) (A B : matrix) :
  has_shape n n A -> has_shape m m B ->
  Np.trace (Np.kron A B) = Cplx.mul (Np.trace A) (Np.trace B).
Proof.
  intros HA HB.
  pose proof (@has_shape_kron n n m m A B HA HB) as HK.
  rewrite !trace_entries.
  replace (length (Np.kron A B)) with (n * m)%nat by (symmetry; apply HK).
  replace (length A) with n by (symmetry; apply HA).
  replace (length B) with m by (symmetry; apply HB).
  rewrite vsum_seq_mul, <- vsum_map_mul_r.
  apply vsum_map_ext. intros i Hi. apply in_seq in Hi.
  rewrite <- vsum_map_mul_l. apply vsum_map_ext. intros k Hk. apply in_seq in Hk.
  apply (entry_kron n n m m); assumption || lia.
Qed.

Lemma hermitian_kron (n m : nat) (A B : matrix) :
  has_shape n n A -> has_shape m m B ->
  hermitian n A -> hermitian m B -> hermitian (n * m) (Np.kron A B).
Proof.
  intros HA HB HhA HhB x y Hx Hy.
  destruct (index_split n m x Hx) as [Ex [Hx1 Hx2]].
  destruct (index_split n m y Hy) as [Ey [Hy1 Hy2]].
  rewrite Ex, Ey.
  rewrite !(entry_kron n n m m) by assumption.
  rewrite conj_mul, (HhA _ _ Hx1 Hy1), (HhB _ _ Hx2 Hy2).
  rewrite !CplxFacts.mul_one_l. reflexivity.
Qed.

Lemma entries_is_hermitian (c : pyclass) (d : list Z) (n : nat) (M : matrix) :
  has_shape n n M -> hermitian n M -> is_hermitian (mkOperator c d M) = true.
Proof.
  intros HM Hh. unfold is_hermitian. cbn [_matrix]. apply all_eq_eq.
  destruct (Nat.eq_dec n 0) as [-> | Hn0].
  - apply has_shape_0 in HM. subst M. reflexivity.
  - assert (Hn : (0 < n)%nat) by lia.
    assert (Hc : has_shape n n (Np.conj M)).
    { unfold Np.conj. apply (@has_shape_map_map _ n n M HM). }
    apply (@matrix_ext n n).
    + exact HM.
    + apply (@has_shape_transpose n n _ Hc Hn).
    + intros i j Hi Hj.
      rewrite (@entry_transpose n n (Np.conj M) i j Hc Hi Hj).
      unfold Np.conj. rewrite (@entry_map_map Cplx.conj n n M j i HM Hj Hi).
      rewrite (Hh i j Hi Hj). symmetry. apply CplxFacts.mul_one_l.
Qed.

Lemma is_hermitian_entries_0 (c : pyclass) (d : list Z) (n : nat) (M : matrix) :
  has_shape n n M -> is_hermitian (mkOperator c d M) = true -> hermitian n M.
Proof.
  intros HM H. destruct (Nat.eq_dec n 0) as [-> | Hn0].
  - intros i j Hi. lia.
  - apply (is_hermitian_entries c d n M HM); [lia | exact H].
Qed.

Lemma prod_app (d e : list Z) : Np.prod (d ++ e) = (Np.prod d * Np.prod e)%Z.
Proof.
  unfold Np.prod. induction d as [|x d IH]; cbn [app fold_right].
  - destruct (fold_right Z.mul 1%Z e); reflexivity.
  - rewrite IH. apply Z.mul_assoc.
Qed.

(** ** kron keeps what makes a density matrix *)

Lemma well_formed_kron (c : pyclass) (a b : Operator) :
  well_formed a = true -> well_formed b = true ->
  well_formed (mkOperator c (_dim a ++ _dim b) (Np.kron (_matrix a) (_matrix b))) = true.
Proof.
  intros Ha Hb.
  destruct (well_formed_shape a Ha) as [HsA HpA].
  destruct (well_formed_shape b Hb) as [HsB HpB].
  apply (shape_well_formed _ _ (length (_matrix a) * length (_matrix b))).
  - apply (@has_shape_kron _ _ _ _ _ _ HsA HsB).
  - rewrite prod_app, HpA, HpB. lia.
Qed.

Lemma trace_kron_operators (a b : Operator) :
  well_formed a = true -> well_formed b = true ->
  Np.trace (Np.kron (_matrix a) (_matrix b))
  = Cplx.mul (Np.trace (_matrix a)) (Np.trace (_matrix b)).
Proof.
  intros Ha Hb.
  apply (trace_kron (length (_matrix a)) (length (_matrix b)));
    apply well_formed_shape; assumption.
Qed.

Lemma is_hermitian_kron (c : pyclass) (a b : Operator) :
  well_formed a = true -> well_formed b = true ->
  is_hermitian a = true -> is_hermitian b = true ->
  is_hermitian (mkOperator c (_dim a ++ _dim b) (Np.kron (_matrix a) (_matrix b))) = true.
Proof.
  intros Ha Hb HhA HhB.
  destruct (well_formed_shape a Ha) as [HsA _].
  destruct (well_formed_shape b Hb) as [HsB _].
  apply (entries_is_hermitian _ _ (length (_matrix a) * length (_matrix b))).
  - apply (@has_shape_kron _ _ _ _ _ _ HsA HsB).
  - apply hermitian_kron; try assumption.
    + apply (is_hermitian_entries_0 (op_class a) (_dim a)); [exact HsA|].
      rewrite operator_eta. exact HhA.
    + apply (is_hermitian_entries_0 (op_class b) (_dim b)); [exact HsB|].
      rewrite operator_eta. exact HhB.
Qed.

Lemma density_matrix_kron (c : pyclass) (a b : Operator) :
  density_matrix a -> density_matrix b ->
  density_matrix (mkOperator c (_dim a ++ _dim b) (Np.kron (_matrix a) (_matrix b))).
Proof.
  intros [Ha [HhA HtA]] [Hb [HhB HtB]].
  split; [apply well_formed_kron; assumption|].
  split; [apply is_hermitian_kron; assumption|].
  cbn [_matrix]. rewrite trace_kron_operators by assumption.
  rewrite HtA, HtB. apply CplxFacts.mul_one_l.
Qed.


(** ** The starting state is a density matrix *)

Lemma bind_Ok_inv {A B} (r : result A) (k : A -> result B) (b : B) :
  bind r k = Ok b -> exists a, r = Ok a /\ k a = Ok b.
Proof. destruct r as [a|e]; [|discriminate]. intros H. exists a. split; [reflexivity | exact H]. Qed.

Lemma DensityOperator_init_density (rows : list (list C)) (dim : option (list Z))
  (rho : Operator) :
  DensityOperator_init rows dim = Ok rho ->
  op_class rho = ClsDensityOperator /\ density_matrix rho.
Proof.
  intros H. apply DensityOperator_init_inv in H as [Hshape [Hne [Hrho [Hp Hh]]]].
  split; [rewrite Hrho; reflexivity|].
  split; [|split; [exact Hh|]].
  - rewrite Hrho in Hp |- *. apply (shape_well_formed _ _ (length rows)); [|exact Hp].
    apply has_shape_divide, Hshape.
  - rewrite Hrho. cbn [_matrix]. rewrite trace_divide. apply (@div_self _ Hne).
Qed.

Section StartingStateInvariant.

Variable sqrt : Qc -> Qc.
Variable eigh : matrix -> rvector * matrix.
Variable cexp : C -> C.
Variables cnst_h cnst_k : Qc.

Lemma from_axes1_z_inv (I_ : Qc) (Sz : Operator) :
  from_axes1 sqrt I_ "z" = Ok Sz ->
  _matrix Sz = _Sz (spin_mvals I_)
  /\ spin_dim I_ = Z.of_nat (length (spin_mvals I_)).
Proof.
  unfold from_axes1, from_axes. cbn [length Nat.eqb negb orb].
  cbn [from_axes_loop]. unfold from_axes_factor.
  destruct (invalid_spin I_); [discriminate|].
  destruct (negb (Py.contains "xyz+-0" "z")); [discriminate|].
  change (axis_table sqrt "z") with (Some _Sz). cbn [bind kron_all fold_left map].
  intros H. apply Operator_init_inv in H as [_ [_ [-> Hp]]].
  split; [reflexivity|]. cbn [_dim Np.prod fold_right] in Hp.
  unfold _Sz, Np.diag_k in Hp. rewrite length_map, length_seq in Hp.
  unfold to_complex in Hp. rewrite length_map in Hp. lia.
Qed.

Lemma length_populations (E : vector) (T : temperature) :
  length (populations cexp cnst_h cnst_k E T) = length E.
Proof.
  unfold populations, raw_weights.
  destruct (NpOrder.ltb _ _); destruct (T_positive T); rewrite !length_map; reflexivity.
Qed.

Lemma thermal_state_inv (I_ gamma B : Qc) (T : temperature) (rho : Operator) :
  thermal_state sqrt cexp cnst_h cnst_k I_ gamma B T = Ok rho ->
  op_class rho = ClsDensityOperator /\ density_matrix rho /\ _dim rho = [spin_dim I_].
Proof.
  unfold thermal_state. intros H. apply bind_Ok_inv in H as [Sz [HSz H]].
  apply from_axes1_z_inv in HSz as [HM Hd].
  pose proof (DensityOperator_init_density _ _ _ H) as [Hc Hdm].
  apply DensityOperator_init_inv in H as [_ [_ [Hrho _]]].
  split; [exact Hc|]. split; [exact Hdm|].
  rewrite Hrho, Hd. cbn [_dim]. do 2 f_equal.
  unfold Np.diag_k. rewrite length_map, length_seq, length_populations.
  unfold zeeman_levels. rewrite length_map. unfold Np.diagonal.
  rewrite length_diagonal_from, HM. unfold _Sz, Np.diag_k.
  rewrite length_map, length_seq. unfold to_complex. rewrite length_map. lia.
Qed.

Lemma from_vectors1_inv (I_ : Qc) (vec : rvector) (gamma : Qc) (rho : Operator) :
  from_vectors1 sqrt eigh I_ vec gamma = Ok rho ->
  op_class rho = ClsDensityOperator /\ density_matrix rho /\ _dim rho = [spin_dim I_].
Proof.
  unfold from_vectors1, from_vectors. cbn [length Nat.eqb negb orb].
  intros H. apply bind_Ok_inv in H as [ms [_ H]].
  pose proof (DensityOperator_init_density _ _ _ H) as [Hc Hdm].
  apply DensityOperator_init_inv in H as [_ [_ [Hrho _]]].
  split; [exact Hc|]. split; [exact Hdm|]. rewrite Hrho. reflexivity.
Qed.

Lemma starting_states_inv (sys : MuonSpinSystem) (B : Qc) (axis : rvector)
  (T : temperature) (ss : list string) (i : nat) (rhos : list Operator) :
  starting_states sqrt eigh cexp cnst_h cnst_k sys B axis T i ss = Ok rhos ->
  Forall2 (fun k rho => op_class rho = ClsDensityOperator /\ density_matrix rho
                        /\ _dim rho = [spin_dim (spin_I sys k)])
          (seq i (length ss)) rhos.
Proof.
  revert i rhos. induction ss as [|s ss IH]; intros i rhos H.
  - cbn in H. injection H as <-. constructor.
  - cbn [starting_states] in H.
    apply bind_Ok_inv in H as [r [Hr H]].
    apply bind_Ok_inv in H as [rest [Hrest H]]. injection H as <-.
    cbn [length seq]. constructor; [|apply IH, Hrest].
    destruct (Nat.eqb i (muon_index sys)).
    + apply from_vectors1_inv in Hr. exact Hr.
    + apply thermal_state_inv in Hr. exact Hr.
Qed.

Lemma kron_states_inv (rhos : list Operator) (ks : list nat) (f : nat -> Z)
  (acc rho0 : Operator) :
  density_matrix acc ->
  Forall2 (fun k rho => op_class rho = ClsDensityOperator /\ density_matrix rho
                        /\ _dim rho = [f k]) ks rhos ->
  kron_states acc rhos = Ok rho0 ->
  op_class rho0 = op_class acc /\ density_matrix rho0
  /\ _dim rho0 = _dim acc ++ map f ks.
Proof.
  intros Hacc HF. revert acc Hacc. induction HF as [|k r ks rhos [_ [Hr Hd]] _ IH];
    intros acc Hacc H.
  - cbn in H. injection H as <-. split; [reflexivity|]. split; [exact Hacc|].
    cbn [map]. rewrite app_nil_r. reflexivity.
  - cbn [kron_states] in H. apply bind_Ok_inv in H as [acc' [Hk H]].
    cbn [Operator_kron] in Hk. injection Hk as <-.
    apply IH in H; [|apply density_matrix_kron; assumption].
    cbn [op_class _dim] in H. destruct H as [Hc [Hdens Hdim]].
    split; [exact Hc|]. split; [exact Hdens|].
    rewrite Hdim, Hd, <- app_assoc. reflexivity.
Qed.

(** X9: whenever [set_starting_state] returns, the state [rho0] it has set
    is an operator of class DensityOperator, well formed and Hermitian,
    whose dimension tuple lists [2I+1] for the spins of the system in
    their order, and whose trace is 1 in exact arithmetic (in binary64, 1
    up to rounding); the other attributes of the experiment are
    untouched. *)
Theorem set_starting_state_sets_a_density_matrix (Hamiltonian : Type)
  (self st : MuonExperiment Hamiltonian) (muon_axis : axis_arg) (T : temperature) :
  set_starting_state sqrt eigh cexp cnst_h cnst_k self muon_axis T = Ok st ->
  let sys := _spin_system self in
  op_class (_rho0 st) = ClsDensityOperator
  /\ well_formed (_rho0 st) = true
  /\ is_hermitian (_rho0 st) = true
  /\ trace (_rho0 st) = Cplx.one
  /\ _dim (_rho0 st) = map (fun i => spin_dim (spin_I sys i)) (seq 0 (length (spins sys)))
  /\ st = mkExperiment sys (_orientations self) (_weights self) (_Hz self) (_B self)
                       (_rho0 st).
Proof.
  intros H sys. unfold set_starting_state in H. fold sys in H.
  apply bind_Ok_inv in H as [axis [_ H]].
  apply bind_Ok_inv in H as [rhos [Hrhos H]].
  apply starting_states_inv in Hrhos.
  destruct rhos as [|r0 rest]; [discriminate|].
  apply bind_Ok_inv in H as [rho0 [Hk H]]. injection H as <-. cbn [_rho0].
  destruct (spins sys) as [|s ss]; [inversion Hrhos|].
  cbn [length seq] in *. inversion Hrhos as [|k r ks rs [Hc0 [Hd0 Hdim0]] Hrest]; subst.
  apply (kron_states_inv rest (seq 1 (length ss)) (fun i => spin_dim (spin_I sys i)))
    in Hk; [| exact Hd0 | exact Hrest].
  destruct Hk as [Hc [[Hw [Hh Ht]] Hdim]].
  split; [congruence|]. split; [exact Hw|]. split; [exact Hh|]. split; [exact Ht|].
  split; [|reflexivity]. rewrite Hdim, Hdim0. reflexivity.
Qed.

End StartingStateInvariant.

(** ** Expectation values *)

Lemma sum_mul_transpose_pairing (n : nat) (O R : matrix) :
  has_shape n n O -> has_shape n n R ->
  Np.sum (Np.mul O (Np.transpose R)) = pairing n O R.
Proof.
  intros HO HR. destruct (Nat.eq_dec n 0) as [-> | Hn0].
  - apply has_shape_0 in HO. subst O. reflexivity.
  - assert (Hn : (0 < n)%nat) by lia.
    rewrite sum_mul_transpose_is_trace.
    + rewrite trace_entries.
      replace (length (Np.dot O R)) with n
        by (symmetry; apply (has_shape_dot HO HR Hn)).
      unfold pairing. apply vsum_map_ext. intros i Hi. apply in_seq in Hi.
      apply (entry_dot i i HO HR Hn); lia.
    + rewrite (@has_shape_ncols n n R HR Hn). destruct HO as [-> _]. lia.
Qed.

Lemma expectation_pairing (rho op : Operator) :
  well_formed rho = true -> well_formed op = true ->
  is_SpinOperator op = true -> dimension op = dimension rho ->
  expectation rho (PyOp op)
  = Ok (pairing (length (_matrix rho)) (_matrix op) (_matrix rho)).
Proof.
  intros Hr Ho Hs Hd. unfold expectation. rewrite Hs, Hd, dims_eqb_refl. cbn [negb].
  f_equal. apply sum_mul_transpose_pairing.
  - rewrite (same_dimension_same_side op rho Ho Hr Hd).
    apply well_formed_shape, Ho.
  - apply well_formed_shape, Hr.
Qed.

Lemma conj_vsum_map {A} (f : A -> C) (l : list A) :
  Cplx.conj (Np.vsum (map f l)) = Np.vsum (map (fun a => Cplx.conj (f a)) l).
Proof. rewrite conj_vsum, map_map. reflexivity. Qed.

Lemma conj_fixed_real (z : C) : Cplx.conj z = z -> is_real z.
Proof.
  intros H. apply (f_equal Cplx.im) in H. unfold Cplx.conj in H. cbn [Cplx.im] in H.
  unfold is_real.
  assert (E : ((1 + 1) * Cplx.im z)%Qc = Q2Qc 0).
  { transitivity (Cplx.im z + - Cplx.im z)%Qc; [rewrite H; ring | ring]. }
  apply Qcmult_integral in E. destruct E as [E | E]; [|exact E].
  apply (f_equal Qcanon.this) in E. vm_compute in E. discriminate E.
Qed.

Lemma pairing_hermitian_real (n : nat) (O R : matrix) :
  hermitian n O -> hermitian n R -> is_real (pairing n O R).
Proof.
  intros HO HR. apply conj_fixed_real. unfold pairing.
  rewrite conj_vsum_map.
  rewrite (vsum_map_ext _
    (fun i => Np.vsum (map (fun k => Cplx.mul (entry O k i) (entry R i k)) (seq 0 n)))).
  - apply (vsum_swap (fun i k => Cplx.mul (entry O k i) (entry R i k))).
  - intros i Hi. apply in_seq in Hi. rewrite conj_vsum_map.
    apply vsum_map_ext. intros k Hk. apply in_seq in Hk.
    rewrite conj_mul, (HO k i), (HR i k) by lia.
    rewrite !CplxFacts.mul_one_l. reflexivity.
Qed.

Lemma pairing_add (n : nat) (A B R : matrix) :
  has_shape n n A -> has_shape n n B ->
  pairing n (Np.add A B) R = Cplx.add (pairing n A R) (pairing n B R).
Proof.
  intros HA HB. unfold pairing. rewrite <- vsum_map_add.
  apply vsum_map_ext. intros i Hi. apply in_seq in Hi.
  rewrite <- vsum_map_add. apply vsum_map_ext. intros k Hk. apply in_seq in Hk.
  rewrite (entry_add n n) by (assumption || lia).
  apply CplxFacts.mul_add_distr_r.
Qed.

Lemma pairing_scale (n : nat) (A R : matrix) (x : C) :
  has_shape n n A ->
  pairing n (Np.scale A x) R = Cplx.mul (pairing n A R) x.
Proof.
  intros HA. unfold pairing. rewrite <- vsum_map_mul_r.
  apply vsum_map_ext. intros i Hi. apply in_seq in Hi.
  rewrite <- vsum_map_mul_r. apply vsum_map_ext. intros k Hk. apply in_seq in Hk.
  rewrite (entry_scale n n) by (assumption || lia).
  rewrite !CplxFacts.mul_assoc. f_equal. apply CplxFacts.mul_comm.
Qed.

Lemma pairing_eye (n : nat) (R : matrix) :
  length R = n -> pairing n (Np.eye n) R = Np.trace R.
Proof.
  intros HR. rewrite trace_entries, HR. unfold pairing.
  apply vsum_map_ext. intros i Hi. apply in_seq in Hi.
  rewrite (vsum_map_ext _ (fun k => if Nat.eqb k i then entry R k i else Cplx.zero)).
  - apply (vsum_single (fun k => entry R k i)). lia.
  - intros k Hk. apply in_seq in Hk. rewrite entry_eye by lia.
    rewrite Nat.eqb_sym. destruct (Nat.eqb k i).
    + apply CplxFacts.mul_one_l.
    + apply CplxFacts.mul_zero_l.
Qed.

(** X10: the expectation value of a Hermitian SpinOperator in a Hermitian
    state is a real number (its imaginary part is exactly zero), for
    well-formed operands with one dimension tuple. *)
Theorem expectation_of_hermitian_is_real (rho op : Operator) :
  well_formed rho = true -> well_formed op = true ->
  is_SpinOperator op = true -> dimension op = dimension rho ->
  is_hermitian rho = true -> is_hermitian op = true ->
  exists z : C, expectation rho (PyOp op) = Ok z /\ is_real z.
Proof.
  intros Hr Ho Hs Hd Hhr Hho.
  rewrite (expectation_pairing rho op Hr Ho Hs Hd).
  eexists. split; [reflexivity|].
  destruct (well_formed_shape rho Hr) as [HsR _].
  destruct (well_formed_shape op Ho) as [HsO _].
  rewrite <- (same_dimension_same_side op rho Ho Hr Hd) in HsO.
  apply pairing_hermitian_real.
  - apply (is_hermitian_entries_0 (op_class op) (_dim op)); [exact HsO|].
    rewrite operator_eta. exact Hho.
  - apply (is_hermitian_entries_0 (op_class rho) (_dim rho)); [exact HsR|].
    rewrite operator_eta. exact Hhr.
Qed.

(** X11: the expectation value is linear in the operator: for SpinOperators
    [a] and [b] and a number [x], the expectation of [a + b] is the sum of
    the two expectations and that of [a * x] is [x] times that of [a]. *)
Theorem expectation_is_linear (rho a b : Operator) (x : C) :
  well_formed rho = true -> well_formed a = true -> well_formed b = true ->
  is_SpinOperator a = true -> is_SpinOperator b = true ->
  dimension a = dimension rho -> dimension b = dimension rho ->
  exists (ea eb : C) (s ax : Operator),
    expectation rho (PyOp a) = Ok ea
    /\ expectation rho (PyOp b) = Ok eb
    /\ Operator_add a (PyOp b) = Ok s
    /\ expectation rho (PyOp s) = Ok (Cplx.add ea eb)
    /\ Operator_mul a (PyNum x) = Ok ax
    /\ expectation rho (PyOp ax) = Ok (Cplx.mul ea x).
Proof.
  intros Hr Ha Hb Hsa Hsb Hda Hdb.
  destruct (well_formed_shape rho Hr) as [HsR _].
  destruct (well_formed_shape a Ha) as [HsA HpA].
  destruct (well_formed_shape b Hb) as [HsB _].
  pose proof (same_dimension_same_side a rho Ha Hr Hda) as Hla.
  pose proof (same_dimension_same_side b rho Hb Hr Hdb) as Hlb.
  rewrite <- Hla in HsA, HpA. rewrite <- Hlb in HsB.
  set (n := length (_matrix rho)) in *.
  assert (Hab : dimension a = dimension b) by congruence.
  rewrite (expectation_pairing rho a Hr Ha Hsa Hda),
          (expectation_pairing rho b Hr Hb Hsb Hdb),
          (Operator_add_operator a b Hab).
  fold n.
  exists (pairing n (_matrix a) (_matrix rho)), (pairing n (_matrix b) (_matrix rho)).
  eexists. eexists.
  split; [reflexivity|]. split; [reflexivity|]. split; [reflexivity|].
  split.
  { rewrite expectation_pairing; try assumption.
    - fold n. cbn [_matrix]. rewrite pairing_add by assumption. reflexivity.
    - apply (shape_well_formed _ _ n); [apply has_shape_add; assumption | exact HpA].
  }
  split; [reflexivity|].
  unfold clone, with_matrix. cbn [op_class _dim _matrix].
  rewrite expectation_pairing; try assumption.
  - fold n. cbn [_matrix]. rewrite pairing_scale by assumption. reflexivity.
  - apply (shape_well_formed _ _ n); [apply has_shape_scale; assumption | exact HpA].
Qed.

(** ** The identity operator *)

Lemma kron_eye (n m : nat) : Np.kron (Np.eye n) (Np.eye m) = Np.eye (n * m).
Proof.
  apply (@matrix_ext (n * m) (n * m)).
  - apply (@has_shape_kron n n m m _ _ (has_shape_eye n) (has_shape_eye m)).
  - apply has_shape_eye.
  - intros x y Hx Hy.
    destruct (index_split n m x Hx) as [Ex [Hx1 Hx2]].
    destruct (index_split n m y Hy) as [Ey [Hy1 Hy2]].
    rewrite (entry_eye (n * m) x y Hx Hy).
    rewrite Ex, Ey at 1.
    rewrite (entry_kron n n m m) by (assumption || apply has_shape_eye).
    rewrite !entry_eye by assumption.
    destruct (Nat.eqb_spec (x / m) (y / m)) as [E1 | E1];
      destruct (Nat.eqb_spec (x mod m) (y mod m)) as [E2 | E2];
      destruct (Nat.eqb_spec x y) as [E | E];
      try (apply CplxFacts.mul_one_l); try (apply CplxFacts.mul_zero_l);
      try (apply CplxFacts.mul_zero_r); exfalso.
    + apply E. rewrite Ex, Ey, E1, E2. reflexivity.
    + apply E2. rewrite E. reflexivity.
    + apply E1. rewrite E. reflexivity.
    + apply E1. rewrite E. reflexivity.
Qed.

Lemma fold_kron_eye (ns : list nat) (n : nat) :
  fold_left Np.kron (map Np.eye ns) (Np.eye n) = Np.eye (fold_left Nat.mul ns n).
Proof.
  revert n. induction ns as [|k ns IH]; intros n; [reflexivity|].
  cbn [map fold_left]. rewrite kron_eye. apply IH.
Qed.

Lemma spin_size_half_integer (k : positive) :
  spin_size (half_integer k) = S (Pos.to_nat k).
Proof. unfold spin_size. rewrite spin_dim_half_integer. lia. Qed.

Lemma from_axes_loop_zeros (sqrt : Qc -> Qc) (Is_ : list Qc) :
  Forall positive_half_integer Is_ ->
  from_axes_loop sqrt Is_ (repeat "0"%string (length Is_))
  = Ok (map Np.eye (map spin_size Is_)).
Proof.
  induction 1 as [|x Is_ [k ->] _ IH]; [reflexivity|].
  cbn [length repeat from_axes_loop].
  rewrite (@from_axes_factor_valid sqrt k "0" _S0 eq_refl eq_refl), IH.
  cbn [bind map]. unfold _S0. rewrite length_spin_mvals, spin_size_half_integer.
  reflexivity.
Qed.

Lemma from_axes_zeros (sqrt : Qc -> Qc) (Is_ : list Qc) :
  Is_ <> [] -> Forall positive_half_integer Is_ ->
  from_axes sqrt Is_ (repeat "0"%string (length Is_)) = Ok (identity_operator Is_)
  /\ (0 < Z.to_nat (Np.prod (map spin_dim Is_)))%nat.
Proof.
  intros Hne Hvalid. unfold from_axes.
  rewrite repeat_length, Nat.eqb_refl. cbn [negb orb].
  rewrite (from_axes_loop_zeros sqrt _ Hvalid).
  destruct Is_ as [|x Is_]; [congruence|]. cbn [length Nat.eqb].
  cbn [bind map kron_all].
  rewrite fold_kron_eye.
  inversion Hvalid as [|? ? Hx Hrest]; subst.
  set (N := fold_left Nat.mul (map spin_size Is_) (spin_size x)).
  assert (HN : Np.prod (spin_dim x :: map spin_dim Is_) = Z.of_nat N).
  { cbn [Np.prod fold_right]. fold (Np.prod (map spin_dim Is_)).
    rewrite (spin_dim_size Hx). apply prod_fold.
    clear -Hrest. induction Hrest as [|y l Hy _ IH]; constructor; [|exact IH].
    apply (spin_dim_size Hy). }
  assert (HNpos : (0 < N)%nat).
  { apply fold_mul_pos; [apply (spin_size_positive Hx)|].
    clear -Hrest. induction Hrest as [|y l Hy _ IH]; constructor; [|exact IH].
    apply (spin_size_positive Hy). }
  unfold identity_operator. cbn [map]. rewrite HN, Nat2Z.id.
  split; [|exact HNpos].
  apply (@Operator_init_ok ClsSpinOperator N (Np.eye N) _ (has_shape_eye N) HNpos HN).
Qed.

(** X12: for a non-empty list of valid spins, [from_axes(Is, '0...0')] is the
    identity: it leaves every well-formed operator [a] with the same
    dimension tuple unchanged under [*] on either side, and its
    expectation value in a state [a] is the trace of [a]. *)
Theorem from_axes_zeros_is_the_identity (sqrt : Qc -> Qc) (Is_ : list Qc) (a : Operator) :
  Is_ <> [] -> Forall positive_half_integer Is_ ->
  well_formed a = true -> dimension a = map spin_dim Is_ ->
  exists e : Operator,
    from_axes sqrt Is_ (repeat "0"%string (length Is_)) = Ok e
    /\ op_class e = ClsSpinOperator /\ _dim e = map spin_dim Is_
    /\ _matrix e = Np.eye (length (_matrix a))
    /\ Operator_mul a (PyOp e) = Ok a
    /\ Operator_mul e (PyOp a) = Ok (mkOperator ClsSpinOperator (_dim a) (_matrix a))
    /\ expectation a (PyOp e) = Ok (Np.trace (_matrix a)).
Proof.
  intros Hne Hvalid Ha Hd.
  destruct (from_axes_zeros sqrt Is_ Hne Hvalid) as [He HN].
  destruct (well_formed_shape a Ha) as [HsA HpA].
  set (n := length (_matrix a)) in *.
  assert (En : Z.to_nat (Np.prod (map spin_dim Is_)) = n).
  { unfold dimension in Hd. rewrite <- Hd, HpA. apply Nat2Z.id. }
  exists (identity_operator Is_). unfold identity_operator in *. rewrite En in *.
  split; [exact He|]. split; [reflexivity|]. split; [reflexivity|].
  split; [reflexivity|].
  assert (Hde : dimension a
                = dimension (mkOperator ClsSpinOperator (map spin_dim Is_) (Np.eye n)))
    by exact Hd.
  split; [|split].
  - rewrite (Operator_mul_operator _ _ Hde). cbn [_matrix].
    rewrite (dot_eye_r n n _ HsA HN). apply Ok_operator_is; reflexivity.
  - rewrite (Operator_mul_operator _ _ (eq_sym Hde)). cbn [op_class _dim _matrix].
    rewrite (dot_eye_l n n _ HsA HN). unfold dimension in Hd. rewrite Hd. reflexivity.
  - rewrite expectation_pairing.
    + cbn [_matrix]. fold n. rewrite pairing_eye by reflexivity. reflexivity.
    + exact Ha.
    + apply (shape_well_formed _ _ n); [apply has_shape_eye|].
      unfold dimension in Hd. rewrite <- Hd. exact HpA.
    + reflexivity.
    + symmetry. exact Hd.
Qed.

(** ** What from_axes returns *)

Lemma Raise_bind_inv {A B} (r : result A) (k : A -> result B) (b : B) :
  (x <- r ;; k x) = Ok b -> exists a, r = Ok a /\ k a = Ok b.
Proof. apply bind_Ok_inv. Qed.

Lemma from_axes_factor_inv (sqrt : Qc -> Qc) (x : Qc) (axis : string) (M : matrix) :
  from_axes_factor sqrt x axis = Ok M ->
  positive_half_integer x
  /\ exists f, axis_table sqrt axis = Some f /\ M = f (spin_mvals x).
Proof.
  unfold from_axes_factor.
  destruct (invalid_spin x) eqn:Hx; [discriminate|].
  destruct (negb (Py.contains "xyz+-0" axis)); [discriminate|].
  destruct (axis_table sqrt axis) as [f|]; [|discriminate].
  intros [= <-]. split; [apply invalid_spin_iff, Hx|].
  exists f. split; reflexivity.
Qed.

Lemma from_axes_loop_inv (sqrt : Qc -> Qc) (Is_ : list Qc) (axes : list string)
  (Ms : list matrix) :
  length Is_ = length axes ->
  from_axes_loop sqrt Is_ axes = Ok Ms ->
  Forall positive_half_integer Is_
  /\ Forall2 (fun p M => exists f, axis_table sqrt (snd p) = Some f
                                   /\ M = f (spin_mvals (fst p)))
             (combine Is_ axes) Ms.
Proof.
  revert axes Ms. induction Is_ as [|x Is_ IH]; intros [|a axes] Ms Hl H;
    try discriminate.
  - cbn in H. injection H as <-. split; constructor.
  - cbn [from_axes_loop] in H.
    apply bind_Ok_inv in H as [M [HM H]].
    apply bind_Ok_inv in H as [rest [Hrest H]]. injection H as <-.
    apply from_axes_factor_inv in HM as [Hx Hf].
    destruct (IH axes rest) as [Hv HF]; [cbn in Hl; lia | exact Hrest |].
    split; constructor; assumption.
Qed.

Lemma from_axes_inv (sqrt : Qc -> Qc) (Is_ : list Qc) (axes : list string)
  (op : Operator) :
  from_axes sqrt Is_ axes = Ok op ->
  length Is_ = length axes /\ Is_ <> []
  /\ exists Ms, from_axes_loop sqrt Is_ axes = Ok Ms
                /\ Operator_init ClsSpinOperator (kron_all Ms) (Some (map spin_dim Is_))
                   = Ok op.
Proof.
  unfold from_axes.
  destruct (Nat.eqb_spec (length Is_) (length axes)) as [Hl|]; [|discriminate].
  destruct (Nat.eqb_spec (length Is_) 0) as [|Hne]; [discriminate|].
  cbn [negb orb]. intros H. apply bind_Ok_inv in H as [Ms [HMs H]].
  split; [exact Hl|]. split; [intros ->; apply Hne; reflexivity|].
  exists Ms. split; assumption.
Qed.

Lemma spin_of_dimension (k : positive) :
  Qcdiv (Qcminus (Py.of_Z (spin_dim (half_integer k))) (Q2Qc 1)) Py.two = half_integer k.
Proof.
  rewrite spin_dim_half_integer, of_Z_add, <- one_of_Z.
  unfold half_integer.
  replace (Qcminus (Qcplus (Py.of_Z (Z.pos k)) (Q2Qc 1)) (Q2Qc 1))
    with (Py.of_Z (Z.pos k)) by ring.
  assert (Hinv : Qcinv Py.two = Py.half) by (apply Qc_is_canon; reflexivity).
  unfold Qcdiv. rewrite Hinv. ring.
Qed.

Lemma Is_of_valid_spins (c : pyclass) (Is_ : list Qc) (M : matrix) :
  Forall positive_half_integer Is_ ->
  Is (mkOperator c (map spin_dim Is_) M) = Is_.
Proof.
  unfold Is. cbn [_dim]. rewrite map_map.
  induction 1 as [|x l [k ->] _ IH]; [reflexivity|].
  cbn [map]. rewrite IH, spin_of_dimension. reflexivity.
Qed.

(** X13: the spins come back: whenever [from_axes(Is, axes)] returns, the
    property [Is] of the operator returned is the list [Is] it was given,
    the operator is a well-formed SpinOperator, and there was one axis
    label for each spin. *)
Theorem from_axes_Is_round_trip (sqrt : Qc -> Qc) (Is_ : list Qc) (axes : list string)
  (op : Operator) :
  from_axes sqrt Is_ axes = Ok op ->
  Is op = Is_
  /\ op_class op = ClsSpinOperator
  /\ well_formed op = true
  /\ _dim op = map spin_dim Is_
  /\ length axes = length Is_ /\ Is_ <> [].
Proof.
  intros H. apply from_axes_inv in H as [Hl [Hne [Ms [HMs Hinit]]]].
  apply from_axes_loop_inv in HMs as [Hvalid _]; [|exact Hl].
  apply Operator_init_inv in Hinit as [_ [Hshape [-> Hp]]].
  split; [apply Is_of_valid_spins, Hvalid|].
  split; [reflexivity|].
  split; [apply (shape_well_formed _ _ _ _ Hshape Hp)|].
  split; [reflexivity|]. split; [symmetry; exact Hl | exact Hne].
Qed.

(** ** The axis labels of from_axes *)

Lemma axis_table_spin_axes (sqrt : Qc -> Qc) (a : string) (f : rvector -> matrix) :
  axis_table sqrt a = Some f -> In a spin_axes.
Proof.
  unfold axis_table, spin_axes.
  repeat match goal with
  | |- context [String.eqb a ?s] =>
      destruct (String.eqb_spec a s) as [->|_]; [intros _; cbn; tauto|]
  end.
  discriminate.
Qed.

(** X14: for a valid spin, [from_axes] accepts exactly the six labels x, y,
    z, +, - and 0.  A label that is not a substring of ['xyz+-0'] raises
    the ValueError about the axis; a label that is such a substring
    without being one of the six (the empty string, ['xy'], ['+-0'])
    passes that test and raises the [KeyError] of the dispatch table. *)
Theorem from_axes_axis_labels (sqrt : Qc -> Qc) (k : positive) (a : string) :
  (In a spin_axes <-> exists op, from_axes sqrt [half_integer k] [a] = Ok op)
  /\ (Py.contains "xyz+-0" a = false ->
      from_axes sqrt [half_integer k] [a] = Raise (InvalidSpinAxis a)
      /\ exc_class (InvalidSpinAxis a) = ValueError)
  /\ (Py.contains "xyz+-0" a = true -> ~ In a spin_axes ->
      from_axes sqrt [half_integer k] [a] = Raise (AxisKeyError a)
      /\ exc_class (AxisKeyError a) = KeyError)
  /\ from_axes sqrt [half_integer k] ["xy"%string] = Raise (AxisKeyError "xy")
  /\ from_axes sqrt [half_integer k] [""%string] = Raise (AxisKeyError "").
Proof.
  assert (Hvalid : invalid_spin (half_integer k) = false).
  { apply invalid_spin_iff. exists k. reflexivity. }
  assert (Hcall : forall b,
    from_axes sqrt [half_integer k] [b]
    = (o <- from_axes_factor sqrt (half_integer k) b ;;
       Operator_init ClsSpinOperator o (Some [spin_dim (half_integer k)]))).
  { intros b. unfold from_axes. cbn [length Nat.eqb negb orb from_axes_loop map].
    destruct (from_axes_factor sqrt (half_integer k) b); reflexivity. }
  assert (Hkey : forall b, Py.contains "xyz+-0" b = true -> ~ In b spin_axes ->
                           from_axes sqrt [half_integer k] [b] = Raise (AxisKeyError b)).
  { intros b Hc Hn. rewrite Hcall. unfold from_axes_factor. rewrite Hvalid, Hc.
    cbn [negb]. destruct (axis_table sqrt b) as [f|] eqn:Hf; [|reflexivity].
    exfalso. apply Hn. apply (axis_table_spin_axes sqrt b f Hf). }
  split; [|split; [|split; [|split]]].
  - split.
    + intros Ha. destruct (@spin_axes_table sqrt a Ha) as [Hc [f Hf]].
      eexists. apply (@from_axes1_valid sqrt k a f Hc Hf).
    + intros [op Hop]. rewrite Hcall in Hop.
      apply bind_Ok_inv in Hop as [M [HM _]].
      apply from_axes_factor_inv in HM as [_ [f [Hf _]]].
      apply (axis_table_spin_axes sqrt a f Hf).
  - intros Hc. split; [|reflexivity]. rewrite Hcall. unfold from_axes_factor.
    rewrite Hvalid, Hc. reflexivity.
  - intros Hc Hn. split; [|reflexivity]. apply Hkey; assumption.
  - apply Hkey; [reflexivity|]. cbn. intros H.
    repeat (destruct H as [H|H]; [discriminate H|]). exact H.
  - apply Hkey; [reflexivity|]. cbn. intros H.
    repeat (destruct H as [H|H]; [discriminate H|]). exact H.
Qed.

(** ** The single-spin matrices are Hermitian *)

Lemma entry_diag_k (v : vector) (k i j : nat) :
  (i < length v + k)%nat -> (j < length v + k)%nat ->
  entry (Np.diag_k v k) i j
  = if Nat.eqb j (i + k) then nth i v Cplx.zero else Cplx.zero.
Proof.
  intros Hi Hj. unfold entry, Np.diag_k.
  rewrite (@nth_map_seq _ _ 0 (length v + k) i [] Hi). cbn [Nat.add].
  rewrite (@nth_map_seq _ _ 0 (length v + k) j Cplx.zero Hj). reflexivity.
Qed.




Section SpinHermitian.

Variable sqrt : Qc -> Qc.
Variable mvals : rvector.
Hypothesis mvals_nonempty : (0 < length mvals)%nat.

Let n := length mvals.






End SpinHermitian.





(** ** Tensors *)

Lemma size_app (s t : list nat) :
  Tensor.size (s ++ t) = (Tensor.size s * Tensor.size t)%nat.
Proof.
  unfold Tensor.size. induction s as [|d s IH]; cbn [app fold_right]; [lia|].
  rewrite IH. lia.
Qed.

Lemma size_to_nat (dims : list Z) :
  Forall (fun d => (0 < d)%Z) dims ->
  Z.of_nat (Tensor.size (map Z.to_nat dims)) = Np.prod dims.
Proof.
  unfold Tensor.size, Np.prod. induction 1 as [|d dims Hd _ IH]; [reflexivity|].
  cbn [map fold_right]. rewrite Nat2Z.inj_mul, IH, Z2Nat.id by lia. reflexivity.
Qed.

Lemma length_concat_shape (n m : nat) (M : matrix) :
  has_shape n m M -> length (concat M) = (n * m)%nat.
Proof.
  intros [Hn Hr]. subst n. induction Hr as [|r M Hr _ IH]; [reflexivity|].
  cbn [concat length]. rewrite length_app, IH, Hr. lia.
Qed.

Lemma ravel_unravel (shape : list nat) (p : nat) :
  (p < Tensor.size shape)%nat -> Tensor.ravel shape (Tensor.unravel shape p) = p.
Proof.
  revert p. induction shape as [|d rest IH]; intros p Hp.
  - cbn in *. lia.
  - cbn [Tensor.unravel Tensor.ravel].
    change (Tensor.size (d :: rest)) with (d * Tensor.size rest)%nat in Hp.
    assert (Hs : Tensor.size rest <> 0%nat) by (intros E; rewrite E in Hp; lia).
    rewrite IH by (apply Nat.mod_upper_bound, Hs).
    rewrite Nat.mul_comm. symmetry. apply Nat.div_mod_eq.
Qed.

Lemma drop_axes_from_nil {A} (k : nat) (l : list A) : Tensor.drop_axes_from k [] l = l.
Proof.
  revert k. induction l as [|a l IH]; intros k; [reflexivity|].
  cbn [Tensor.drop_axes_from existsb]. rewrite IH. reflexivity.
Qed.

Lemma filter_eqb_above (q s n : nat) :
  (q < s)%nat -> filter (fun p => Nat.eqb p q) (seq s n) = [].
Proof.
  revert s. induction n as [|n IH]; intros s Hs; [reflexivity|].
  cbn [seq filter]. destruct (Nat.eqb_spec s q); [lia|]. apply IH. lia.
Qed.

Lemma filter_eqb_seq (q s n : nat) :
  (s <= q < s + n)%nat -> filter (fun p => Nat.eqb p q) (seq s n) = [q].
Proof.
  revert s. induction n as [|n IH]; intros s H; [lia|].
  cbn [seq filter]. destruct (Nat.eqb_spec s q) as [->|Hne].
  - f_equal. apply filter_eqb_above. lia.
  - apply IH. lia.
Qed.

Lemma map_nth_seq (t : vector) :
  map (fun q => nth q t Cplx.zero) (seq 0 (length t)) = t.
Proof.
  induction t as [|a t IH]; [reflexivity|].
  cbn [length seq map nth]. f_equal. rewrite <- seq_shift, map_map. exact IH.
Qed.

Lemma chunks_concat (r c : nat) (M : matrix) :
  has_shape r c M -> Tensor.chunks r c (concat M) = M.
Proof.
  intros [Hn Hr]. subst r. induction Hr as [|row M Hrow _ IH]; [reflexivity|].
  cbn [length Tensor.chunks concat].
  rewrite firstn_app, skipn_app, Hrow, Nat.sub_diag, firstn_all2, skipn_all2 by lia.
  cbn [firstn skipn app]. rewrite app_nil_r, IH. reflexivity.
Qed.

Lemma remaining_from_nil (i : nat) (dim : list Z) : remaining_from i [] dim = dim.
Proof.
  revert i. induction dim as [|d dim IH]; intros i; [reflexivity|].
  cbn [remaining_from in_tracedim existsb]. rewrite IH. reflexivity.
Qed.

Lemma sum_axes_none (shape : list nat) (t : vector) :
  length t = Tensor.size shape -> Tensor.sum_axes shape [] t = t.
Proof.
  intros Hlen. unfold Tensor.sum_axes, Tensor.drop_axes.
  rewrite drop_axes_from_nil, <- Hlen.
  transitivity (map (fun q => nth q t Cplx.zero) (seq 0 (length t)));
    [|apply map_nth_seq].
  apply map_ext_in. intros q Hq. apply in_seq in Hq.
  rewrite (filter_ext_in _ (fun p => Nat.eqb p q)).
  - rewrite filter_eqb_seq by lia. cbn [map]. apply CplxFacts.add_zero_r.
  - intros p Hp. apply in_seq in Hp. rewrite drop_axes_from_nil, ravel_unravel by lia.
    reflexivity.
Qed.

(** The side of a well-formed operator whose subsystems all have a
    positive dimension, and the reshaping of its matrix. *)
Lemma tensor_of_operator (self : Operator) :
  well_formed self = true -> Forall (fun d => (0 < d)%Z) (_dim self) ->
  let N := length (_matrix self) in
  Tensor.size (map Z.to_nat (_dim self ++ _dim self)) = (N * N)%nat
  /\ length (Tensor.flatten (_matrix self)) = (N * N)%nat
  /\ Z.to_nat (Np.prod (_dim self)) = N
  /\ (0 < N)%nat.
Proof.
  intros Hwf Hpos N. destruct (well_formed_shape self Hwf) as [Hs Hp]. fold N in Hs, Hp.
  assert (HN : Tensor.size (map Z.to_nat (_dim self)) = N).
  { apply Nat2Z.inj. rewrite size_to_nat, Hp by exact Hpos. reflexivity. }
  split; [rewrite map_app, size_app, HN; reflexivity|].
  split; [apply (length_concat_shape N N), Hs|].
  split; [rewrite Hp; apply Nat2Z.id|].
  rewrite <- HN. clear -Hpos. unfold Tensor.size.
  induction Hpos as [|d l Hd _ IH]; cbn [map fold_right]; [lia|].
  apply Nat.mul_pos_pos; [lia | exact IH].
Qed.

(** ** partial_trace *)

(** X16: tracing over no subsystem changes nothing: for a well-formed
    operator with at least one subsystem, all of positive dimension,
    [partial_trace([])] (the default argument) returns a DensityOperator
    with the same dimension tuple and the same matrix. *)
Theorem partial_trace_over_nothing (self : Operator) :
  well_formed self = true -> _dim self <> [] ->
  Forall (fun d => (0 < d)%Z) (_dim self) ->
  partial_trace self [] = Ok (mkOperator ClsDensityOperator (_dim self) (_matrix self)).
Proof.
  intros Hwf Hne Hpos.
  destruct (tensor_of_operator self Hwf Hpos) as [Hsize [Hflat [HN Hpos']]].
  destruct (well_formed_shape self Hwf) as [Hs _].
  set (N := length (_matrix self)) in *.
  unfold partial_trace. cbn [app map]. rewrite Hsize, Hflat, Nat.eqb_refl.
  cbn [negb Tensor.normalize_axes Tensor.distinct].
  rewrite sum_axes_none by (rewrite Hflat, Hsize; reflexivity).
  unfold remaining_dim. rewrite remaining_from_nil.
  destruct (_dim self) as [|d ds] eqn:Hdim; [congruence|].
  rewrite HN, Hflat, Nat.Div0.mod_mul, Nat.div_mul by lia.
  destruct (Nat.eqb_spec N 0) as [E|_]; [lia|]. cbn [Nat.eqb negb orb].
  unfold Tensor.flatten. rewrite (chunks_concat N N _ Hs). reflexivity.
Qed.

Lemma normalize_axes_None (ndim : nat) (axes : list Z) (a : Z) :
  In a axes -> Tensor.normalize_axis ndim a = None ->
  Tensor.normalize_axes ndim axes = None.
Proof.
  intros Hin Ha. induction axes as [|b axes IH]; [contradiction|].
  cbn [Tensor.normalize_axes]. destruct Hin as [->|Hin].
  - rewrite Ha. reflexivity.
  - rewrite (IH Hin). destruct (Tensor.normalize_axis ndim b); reflexivity.
Qed.

Lemma normalize_axis_out_of_range (ndim : nat) (a : Z) :
  (Z.of_nat ndim <= a \/ a < - Z.of_nat ndim)%Z -> Tensor.normalize_axis ndim a = None.
Proof.
  intros H. unfold Tensor.normalize_axis.
  destruct (Z.leb_spec 0 a), (Z.ltb_spec a (Z.of_nat ndim)),
           (Z.leb_spec (- Z.of_nat ndim) a), (Z.ltb_spec a 0);
    cbn [andb]; try reflexivity; lia.
Qed.

Lemma normalize_axes_in_range (ndim : nat) (axes : list Z) :
  Forall (fun a => (0 <= a < Z.of_nat ndim)%Z) axes ->
  Tensor.normalize_axes ndim axes = Some (map Z.to_nat axes).
Proof.
  induction 1 as [|a axes Ha _ IH]; [reflexivity|].
  cbn [Tensor.normalize_axes map]. rewrite IH. unfold Tensor.normalize_axis.
  destruct (Z.leb_spec 0 a); [|lia]. destruct (Z.ltb_spec a (Z.of_nat ndim)); [|lia].
  reflexivity.
Qed.

Lemma distinct_NoDup (l : list nat) : Tensor.distinct l = true -> NoDup l.
Proof.
  induction l as [|a l IH]; [constructor|].
  cbn [Tensor.distinct]. intros H. apply andb_true_iff in H as [Ha Hl].
  constructor; [|apply IH, Hl].
  intros Hin. apply negb_true_iff in Ha.
  assert (existsb (Nat.eqb a) l = true); [|congruence].
  apply existsb_exists. exists a. split; [exact Hin | apply Nat.eqb_refl].
Qed.

(** X17: on a well-formed operator whose subsystems all have a positive
    dimension, [np.sum] in [partial_trace] raises a ValueError (numpy's
    AxisError) when an index in [tracedim] is not smaller than the number
    [n] of subsystems or is smaller than [-2n], and a ValueError (duplicate
    axis) when [tracedim] names one subsystem twice. *)
Theorem partial_trace_bad_indices (self : Operator) (tracedim : list Z) :
  well_formed self = true -> Forall (fun d => (0 < d)%Z) (_dim self) ->
  let n := Z.of_nat (length (_dim self)) in
  (forall a, In a tracedim -> (n <= a \/ a < - (2 * n))%Z ->
     partial_trace self tracedim = Raise AxisError)
  /\ (Forall (fun a => (0 <= a < n)%Z) tracedim -> ~ NoDup tracedim ->
      partial_trace self tracedim = Raise AxisError)
  /\ exc_class AxisError = ValueError.
Proof.
  intros Hwf Hpos n.
  destruct (tensor_of_operator self Hwf Hpos) as [Hsize [Hflat _]].
  assert (Hstart : forall r : result Operator,
            (unless negb (Nat.eqb (Tensor.size (map Z.to_nat (_dim self ++ _dim self)))
                                  (length (Tensor.flatten (_matrix self))))
               raise ReshapeSizeError ;; r) = r).
  { intros r. rewrite Hsize, Hflat, Nat.eqb_refl. reflexivity. }
  split; [|split; [|reflexivity]].
  - intros a Hin Ha. unfold partial_trace. rewrite Hstart.
    assert (Hnone : Tensor.normalize_axes (length (_dim self) + length (_dim self))
                      (tracedim ++ map (fun a => (a + Z.of_nat (length (_dim self)))%Z)
                                       tracedim) = None).
    { fold n. destruct (Z.lt_ge_cases a (- (2 * n))) as [Hlow | Hhigh].
      - apply (normalize_axes_None _ _ a); [apply in_or_app; left; exact Hin|].
        apply normalize_axis_out_of_range. unfold n in *. lia.
      - apply (normalize_axes_None _ _ (a + n)%Z).
        + apply in_or_app. right. apply in_map_iff. exists a. split; [reflexivity | exact Hin].
        + apply normalize_axis_out_of_range. unfold n in *. lia. }
    rewrite Hnone. reflexivity.
  - intros Hrange Hdup. unfold partial_trace. rewrite Hstart. fold n.
    rewrite normalize_axes_in_range.
    + destruct (Tensor.distinct _) eqn:Hd; [|reflexivity].
      exfalso. apply Hdup. apply distinct_NoDup in Hd.
      rewrite map_app in Hd. apply NoDup_app_remove_r in Hd.
      apply NoDup_map_inv in Hd. exact Hd.
    + apply Forall_app. split.
      * apply Forall_forall. intros a Ha. rewrite Forall_forall in Hrange.
        specialize (Hrange a Ha). unfold n in *. lia.
      * apply Forall_forall. intros b Hb. apply in_map_iff in Hb as [a [<- Ha]].
        rewrite Forall_forall in Hrange. specialize (Hrange a Ha). unfold n in *. lia.
Qed.

(** ** What partial_trace adds up *)

Lemma vsum_filter {A} (f : A -> C) (g : A -> bool) (l : list A) :
  Np.vsum (map f (filter g l))
  = Np.vsum (map (fun p => if g p then f p else Cplx.zero) l).
Proof.
  induction l as [|a l IH]; [reflexivity|].
  cbn [filter map]. destruct (g a); cbn [map].
  - change (Np.vsum (?x :: ?v)) with (Cplx.add x (Np.vsum v)). rewrite IH. reflexivity.
  - change (Np.vsum (?x :: ?v)) with (Cplx.add x (Np.vsum v)).
    rewrite IH, CplxFacts.add_zero_l. reflexivity.
Qed.

Lemma vsum_map_if {A} (c : bool) (f : A -> C) (l : list A) :
  Np.vsum (map (fun a => if c then f a else Cplx.zero) l)
  = if c then Np.vsum (map f l) else Cplx.zero.
Proof. destruct c; [reflexivity | apply vsum_map_zero]. Qed.

Lemma unravel_cons (d : nat) (rest : list nat) (a r : nat) :
  (r < Tensor.size rest)%nat ->
  Tensor.unravel (d :: rest) (a * Tensor.size rest + r) = a :: Tensor.unravel rest r.
Proof.
  intros Hr. cbn [Tensor.unravel].
  replace ((a * Tensor.size rest + r) / Tensor.size rest)%nat with a
    by (apply (Nat.div_unique _ _ a r); lia).
  replace ((a * Tensor.size rest + r) mod Tensor.size rest)%nat with r
    by (apply (Nat.mod_unique _ _ a r); lia).
  reflexivity.
Qed.

Lemma nth_concat (n m : nat) (M : matrix) (r c : nat) :
  has_shape n m M -> (r < n)%nat -> (c < m)%nat ->
  nth (r * m + c) (concat M) Cplx.zero = entry M r c.
Proof.
  intros [Hn Hrows] Hr Hc. subst n. unfold entry. revert r Hr.
  induction Hrows as [|row M Hrow _ IH]; intros r Hr; [cbn in Hr; lia|].
  cbn [concat]. destruct r as [|r].
  - cbn [Nat.mul Nat.add nth]. apply app_nth1. lia.
  - rewrite app_nth2 by (rewrite Hrow; lia).
    rewrite Hrow. replace (S r * m + c - m)%nat with (r * m + c)%nat by lia.
    cbn [nth]. apply IH. cbn in Hr. lia.
Qed.

Lemma length_chunks (r c : nat) (t : vector) : length (Tensor.chunks r c t) = r.
Proof.
  revert t. induction r as [|r IH]; intros t; [reflexivity|].
  cbn [Tensor.chunks length]. rewrite IH. reflexivity.
Qed.

Lemma nth_chunks (r c : nat) (t : vector) (i : nat) :
  (i < r)%nat -> nth i (Tensor.chunks r c t) [] = firstn c (skipn (i * c) t).
Proof.
  revert t i. induction r as [|r IH]; intros t i Hi; [lia|].
  cbn [Tensor.chunks]. destruct i as [|i]; [reflexivity|].
  cbn [nth]. rewrite IH by lia. rewrite skipn_skipn. do 2 f_equal. lia.
Qed.

Lemma has_shape_chunks (r c : nat) (t : vector) :
  length t = (r * c)%nat -> has_shape r c (Tensor.chunks r c t).
Proof.
  intros Hlen. split; [apply length_chunks|].
  apply Forall_forall. intros row Hrow.
  apply (In_nth _ _ []) in Hrow as [i [Hi <-]]. rewrite length_chunks in Hi.
  rewrite nth_chunks by exact Hi. rewrite length_firstn, length_skipn, Hlen. nia.
Qed.

Lemma entry_chunks (r c : nat) (t : vector) (i j : nat) :
  (i < r)%nat -> (j < c)%nat ->
  entry (Tensor.chunks r c t) i j = nth (i * c + j) t Cplx.zero.
Proof.
  intros Hi Hj. unfold entry. rewrite nth_chunks by exact Hi.
  rewrite nth_firstn. destruct (Nat.ltb_spec j c); [|lia].
  rewrite nth_skipn. reflexivity.
Qed.

(** A sum over the entries of a 4-D array, axis by axis. *)
Lemma vsum_seq_4 (f : nat -> C) (D1 D2 D3 D4 : nat) :
  Np.vsum (map f (seq 0 (Tensor.size [D1; D2; D3; D4])))
  = Np.vsum (map (fun a =>
      Np.vsum (map (fun i =>
        Np.vsum (map (fun b =>
          Np.vsum (map (fun j => f (a * (D2 * (D3 * D4)) + (i * (D3 * D4) + (b * D4 + j)))%nat)
                       (seq 0 D4)))
                  (seq 0 D3)))
                (seq 0 D2)))
              (seq 0 D1)).
Proof.
  replace (Tensor.size [D1; D2; D3; D4]) with (D1 * (D2 * (D3 * D4)))%nat
    by (cbn; lia).
  rewrite vsum_seq_mul. apply vsum_map_ext. intros a _.
  rewrite (vsum_seq_mul (fun r => f (a * (D2 * (D3 * D4)) + r)%nat)).
  apply vsum_map_ext. intros i _.
  rewrite (vsum_seq_mul (fun r => f (a * (D2 * (D3 * D4)) + (i * (D3 * D4) + r))%nat)).
  reflexivity.
Qed.

Lemma unravel_4 (D1 D2 D3 D4 a i b j : nat) :
  (i < D2)%nat -> (b < D3)%nat -> (j < D4)%nat ->
  Tensor.unravel [D1; D2; D3; D4] (a * (D2 * (D3 * D4)) + (i * (D3 * D4) + (b * D4 + j)))
  = [a; i; b; j].
Proof.
  intros Hi Hb Hj.
  assert (H4 : Tensor.size [D4] = D4) by (cbn; lia).
  assert (H3 : Tensor.size [D3; D4] = (D3 * D4)%nat) by (cbn; lia).
  assert (H2 : Tensor.size [D2; D3; D4] = (D2 * (D3 * D4))%nat) by (cbn; lia).
  rewrite <- H2, unravel_cons by (rewrite H2; nia).
  rewrite <- H3, unravel_cons by (rewrite H3; nia).
  replace (b * D4 + j)%nat with (b * Tensor.size [D4] + j)%nat
    by (rewrite H4; reflexivity).
  rewrite unravel_cons by (rewrite H4; lia).
  cbn [Tensor.unravel Tensor.size fold_right]. rewrite Nat.div_1_r. reflexivity.
Qed.

Lemma index_pair_eqb (D i j i0 j0 : nat) :
  (j < D)%nat -> (j0 < D)%nat ->
  Nat.eqb (i * D + j) (i0 * D + j0) = Nat.eqb i i0 && Nat.eqb j j0.
Proof.
  intros Hj Hj0.
  destruct (Nat.eqb_spec i i0) as [->|Hi]; cbn [andb].
  - destruct (Nat.eqb_spec j j0) as [->|Hne]; [apply Nat.eqb_refl|].
    apply Nat.eqb_neq. lia.
  - apply Nat.eqb_neq. nia.
Qed.

(** [np.sum] over the axes 0 and 2 of a [(D1, D2, D1, D2)] array, and over
    its axes 1 and 3. *)
Lemma sum_axes_0_2 (D1 D2 : nat) (t : vector) (i0 j0 : nat) :
  (i0 < D2)%nat -> (j0 < D2)%nat ->
  nth (i0 * D2 + j0) (Tensor.sum_axes [D1; D2; D1; D2] [0; 2]%nat t) Cplx.zero
  = Np.vsum (map (fun a =>
      Np.vsum (map (fun b =>
        nth (a * (D2 * (D1 * D2)) + (i0 * (D1 * D2) + (b * D2 + j0))) t Cplx.zero)
                   (seq 0 D1)))
              (seq 0 D1)).
Proof.
  intros Hi0 Hj0. unfold Tensor.sum_axes.
  change (Tensor.drop_axes [0; 2]%nat [D1; D2; D1; D2]) with [D2; D2].
  assert (Hq : (i0 * D2 + j0 < Tensor.size [D2; D2])%nat) by (cbn; nia).
  rewrite (@nth_map_seq _ _ 0 _ _ Cplx.zero Hq). cbn [Nat.add].
  rewrite vsum_filter, vsum_seq_4.
  apply vsum_map_ext. intros a _.
  rewrite (vsum_map_ext _
    (fun i => if Nat.eqb i i0
              then Np.vsum (map (fun b =>
                     nth (a * (D2 * (D1 * D2)) + (i * (D1 * D2) + (b * D2 + j0))) t
                         Cplx.zero) (seq 0 D1))
              else Cplx.zero)).
  - apply (vsum_single (fun i => Np.vsum (map (fun b =>
             nth (a * (D2 * (D1 * D2)) + (i * (D1 * D2) + (b * D2 + j0))) t Cplx.zero)
             (seq 0 D1)))). lia.
  - intros i Hi. apply in_seq in Hi. rewrite <- vsum_map_if.
    apply vsum_map_ext. intros b Hb. apply in_seq in Hb.
    rewrite (vsum_map_ext _
      (fun j => if Nat.eqb j j0
                then (if Nat.eqb i i0
                      then nth (a * (D2 * (D1 * D2)) + (i * (D1 * D2) + (b * D2 + j))) t
                               Cplx.zero
                      else Cplx.zero)
                else Cplx.zero)).
    + apply (vsum_single (fun j => if Nat.eqb i i0
               then nth (a * (D2 * (D1 * D2)) + (i * (D1 * D2) + (b * D2 + j))) t Cplx.zero
               else Cplx.zero)). lia.
    + intros j Hj. apply in_seq in Hj.
      rewrite unravel_4 by lia.
      change (Tensor.drop_axes [0; 2]%nat [a; i; b; j]) with [i; j].
      replace (Tensor.ravel [D2; D2] [i; j]) with (i * D2 + j)%nat by (cbn; lia).
      rewrite index_pair_eqb by lia.
      destruct (Nat.eqb i i0), (Nat.eqb j j0); reflexivity.
Qed.

Lemma sum_axes_1_3 (D1 D2 : nat) (t : vector) (a0 b0 : nat) :
  (a0 < D1)%nat -> (b0 < D1)%nat ->
  nth (a0 * D1 + b0) (Tensor.sum_axes [D1; D2; D1; D2] [1; 3]%nat t) Cplx.zero
  = Np.vsum (map (fun i =>
      Np.vsum (map (fun j =>
        nth (a0 * (D2 * (D1 * D2)) + (i * (D1 * D2) + (b0 * D2 + j))) t Cplx.zero)
                   (seq 0 D2)))
              (seq 0 D2)).
Proof.
  intros Ha0 Hb0. unfold Tensor.sum_axes.
  change (Tensor.drop_axes [1; 3]%nat [D1; D2; D1; D2]) with [D1; D1].
  assert (Hq : (a0 * D1 + b0 < Tensor.size [D1; D1])%nat) by (cbn; nia).
  rewrite (@nth_map_seq _ _ 0 _ _ Cplx.zero Hq). cbn [Nat.add].
  rewrite vsum_filter, vsum_seq_4.
  rewrite (vsum_map_ext _
    (fun a => if Nat.eqb a a0
              then Np.vsum (map (fun i => Np.vsum (map (fun j =>
                     nth (a * (D2 * (D1 * D2)) + (i * (D1 * D2) + (b0 * D2 + j))) t
                         Cplx.zero) (seq 0 D2))) (seq 0 D2))
              else Cplx.zero)).
  - apply (vsum_single (fun a => Np.vsum (map (fun i => Np.vsum (map (fun j =>
             nth (a * (D2 * (D1 * D2)) + (i * (D1 * D2) + (b0 * D2 + j))) t Cplx.zero)
             (seq 0 D2))) (seq 0 D2)))). lia.
  - intros a Ha. apply in_seq in Ha. rewrite <- vsum_map_if.
    apply vsum_map_ext. intros i Hi. apply in_seq in Hi.
    rewrite (vsum_map_ext _
      (fun b => if Nat.eqb b b0
                then (if Nat.eqb a a0
                      then Np.vsum (map (fun j =>
                             nth (a * (D2 * (D1 * D2)) + (i * (D1 * D2) + (b * D2 + j))) t
                                 Cplx.zero) (seq 0 D2))
                      else Cplx.zero)
                else Cplx.zero)).
    + apply (vsum_single (fun b => if Nat.eqb a a0
               then Np.vsum (map (fun j =>
                      nth (a * (D2 * (D1 * D2)) + (i * (D1 * D2) + (b * D2 + j))) t
                          Cplx.zero) (seq 0 D2))
               else Cplx.zero)). lia.
    + intros b Hb. apply in_seq in Hb.
      rewrite <- !vsum_map_if. apply vsum_map_ext. intros j Hj. apply in_seq in Hj.
      rewrite unravel_4 by lia.
      change (Tensor.drop_axes [1; 3]%nat [a; i; b; j]) with [a; b].
      replace (Tensor.ravel [D1; D1] [a; b]) with (a * D1 + b)%nat by (cbn; lia).
      rewrite index_pair_eqb by lia.
      destruct (Nat.eqb a a0), (Nat.eqb b b0); reflexivity.
Qed.

Lemma length_sum_axes (shape axes : list nat) (t : vector) :
  length (Tensor.sum_axes shape axes t) = Tensor.size (Tensor.drop_axes axes shape).
Proof. unfold Tensor.sum_axes. rewrite length_map, length_seq. reflexivity. Qed.

Section TwoSubsystems.

Variable self : Operator.
Variables d1 d2 : Z.
Hypothesis self_well_formed : well_formed self = true.
Hypothesis self_dim : _dim self = [d1; d2].
Hypothesis d1_positive : (0 < d1)%Z.
Hypothesis d2_positive : (0 < d2)%Z.

Let D1 := Z.to_nat d1.
Let D2 := Z.to_nat d2.
Let M := _matrix self.

Lemma two_subsystems_shape : has_shape (D1 * D2) (D1 * D2) M /\ (0 < D1)%nat /\ (0 < D2)%nat.
Proof.
  destruct (well_formed_shape self self_well_formed) as [Hs Hp].
  rewrite self_dim in Hp. cbn [Np.prod fold_right] in Hp.
  assert (E : length (_matrix self) = (D1 * D2)%nat) by (unfold D1, D2; nia).
  rewrite E in Hs. unfold D1, D2. repeat split; try apply Hs; lia.
Qed.

Lemma two_subsystems_reshape (r : result Operator) :
  (unless negb (Nat.eqb (Tensor.size (map Z.to_nat (_dim self ++ _dim self)))
                        (length (Tensor.flatten (_matrix self))))
     raise ReshapeSizeError ;; r) = r.
Proof.
  assert (Hpos : Forall (fun d => (0 < d)%Z) (_dim self)).
  { rewrite self_dim. repeat constructor; assumption. }
  destruct (tensor_of_operator self self_well_formed Hpos) as [Hsize [Hflat _]].
  rewrite Hsize, Hflat, Nat.eqb_refl. reflexivity.
Qed.

Lemma entry_of_flat (a i b j : nat) :
  (a < D1)%nat -> (i < D2)%nat -> (b < D1)%nat -> (j < D2)%nat ->
  nth (a * (D2 * (D1 * D2)) + (i * (D1 * D2) + (b * D2 + j))) (Tensor.flatten M) Cplx.zero
  = entry M (a * D2 + i) (b * D2 + j).
Proof.
  intros Ha Hi Hb Hj. destruct two_subsystems_shape as [Hs _].
  replace (a * (D2 * (D1 * D2)) + (i * (D1 * D2) + (b * D2 + j)))%nat
    with ((a * D2 + i) * (D1 * D2) + (b * D2 + j))%nat by lia.
  apply (nth_concat (D1 * D2) (D1 * D2)); [exact Hs | nia | nia].
Qed.

(** Tracing over the first of two subsystems, and over the second. *)
Lemma partial_trace_first :
  exists ans : Operator,
    partial_trace self [0%Z] = Ok ans
    /\ op_class ans = ClsDensityOperator /\ _dim ans = [d2]
    /\ has_shape D2 D2 (_matrix ans)
    /\ forall i j, (i < D2)%nat -> (j < D2)%nat ->
         entry (_matrix ans) i j
         = Np.vsum (map (fun a => Np.vsum (map (fun b =>
                      entry M (a * D2 + i) (b * D2 + j)) (seq 0 D1))) (seq 0 D1)).
Proof.
  destruct two_subsystems_shape as [Hs [HD1 HD2]].
  unfold partial_trace. rewrite two_subsystems_reshape, self_dim.
  change (Tensor.normalize_axes (length [d1; d2] + length [d1; d2])
            ([0%Z] ++ map (fun a => (a + Z.of_nat (length [d1; d2]))%Z) [0%Z]))
    with (Some [0; 2]%nat).
  change (Tensor.distinct [0; 2]%nat) with true. cbn [negb].
  change (remaining_dim [0%Z] [d1; d2]) with [d2].
  change (map Z.to_nat ([d1; d2] ++ [d1; d2])) with [D1; D2; D1; D2].
  assert (Hrows : Z.to_nat (Np.prod [d2]) = D2) by (cbn; unfold D2; lia).
  rewrite Hrows, length_sum_axes.
  change (Tensor.drop_axes [0; 2]%nat [D1; D2; D1; D2]) with [D2; D2].
  replace (Tensor.size [D2; D2]) with (D2 * D2)%nat by (cbn; lia).
  rewrite Nat.Div0.mod_mul, Nat.div_mul by lia.
  destruct (Nat.eqb_spec D2 0) as [E|_]; [lia|]. cbn [Nat.eqb negb orb].
  eexists. split; [reflexivity|]. cbn [op_class _dim _matrix].
  split; [reflexivity|]. split; [reflexivity|].
  split.
  { apply has_shape_chunks. rewrite length_sum_axes. cbn. lia. }
  intros i j Hi Hj. rewrite entry_chunks by assumption.
  rewrite sum_axes_0_2 by assumption.
  apply vsum_map_ext. intros a Ha. apply in_seq in Ha.
  apply vsum_map_ext. intros b Hb. apply in_seq in Hb.
  apply entry_of_flat; lia.
Qed.

Lemma partial_trace_second :
  exists ans : Operator,
    partial_trace self [1%Z] = Ok ans
    /\ op_class ans = ClsDensityOperator /\ _dim ans = [d1]
    /\ has_shape D1 D1 (_matrix ans)
    /\ forall i j, (i < D1)%nat -> (j < D1)%nat ->
         entry (_matrix ans) i j
         = Np.vsum (map (fun a => Np.vsum (map (fun b =>
                      entry M (i * D2 + a) (j * D2 + b)) (seq 0 D2))) (seq 0 D2)).
Proof.
  destruct two_subsystems_shape as [Hs [HD1 HD2]].
  unfold partial_trace. rewrite two_subsystems_reshape, self_dim.
  change (Tensor.normalize_axes (length [d1; d2] + length [d1; d2])
            ([1%Z] ++ map (fun a => (a + Z.of_nat (length [d1; d2]))%Z) [1%Z]))
    with (Some [1; 3]%nat).
  change (Tensor.distinct [1; 3]%nat) with true. cbn [negb].
  change (remaining_dim [1%Z] [d1; d2]) with [d1].
  change (map Z.to_nat ([d1; d2] ++ [d1; d2])) with [D1; D2; D1; D2].
  assert (Hrows : Z.to_nat (Np.prod [d1]) = D1) by (cbn; unfold D1; lia).
  rewrite Hrows, length_sum_axes.
  change (Tensor.drop_axes [1; 3]%nat [D1; D2; D1; D2]) with [D1; D1].
  replace (Tensor.size [D1; D1]) with (D1 * D1)%nat by (cbn; lia).
  rewrite Nat.Div0.mod_mul, Nat.div_mul by lia.
  destruct (Nat.eqb_spec D1 0) as [E|_]; [lia|]. cbn [Nat.eqb negb orb].
  eexists. split; [reflexivity|]. cbn [op_class _dim _matrix].
  split; [reflexivity|]. split; [reflexivity|].
  split.
  { apply has_shape_chunks. rewrite length_sum_axes. cbn. lia. }
  intros i j Hi Hj. rewrite entry_chunks by assumption.
  rewrite sum_axes_1_3 by assumption.
  apply vsum_map_ext. intros a Ha. apply in_seq in Ha.
  apply vsum_map_ext. intros b Hb. apply in_seq in Hb.
  apply entry_of_flat; lia.
Qed.

End TwoSubsystems.

(** X18: with two subsystems, [partial_trace] does not keep to the diagonal
    blocks: tracing over the first subsystem returns the sum of all the
    [D1 * D1] blocks of the matrix, [ans[i][j] = sum_a sum_b M[a*D2+i][b*D2+j]],
    and tracing over the second returns, block by block, the sum of all
    the entries of the block, [ans[i][j] = sum_a sum_b M[i*D2+a][j*D2+b]];
    the result is a DensityOperator over the remaining subsystem and is
    not normalised. *)
Theorem partial_trace_adds_all_blocks (self : Operator) (d1 d2 : Z) :
  well_formed self = true -> _dim self = [d1; d2] -> (0 < d1)%Z -> (0 < d2)%Z ->
  let D1 := Z.to_nat d1 in
  let D2 := Z.to_nat d2 in
  let M := _matrix self in
  (exists ans : Operator,
     partial_trace self [0%Z] = Ok ans
     /\ op_class ans = ClsDensityOperator /\ _dim ans = [d2]
     /\ has_shape D2 D2 (_matrix ans)
     /\ forall i j, (i < D2)%nat -> (j < D2)%nat ->
          entry (_matrix ans) i j
          = Np.vsum (map (fun a => Np.vsum (map (fun b =>
                       entry M (a * D2 + i) (b * D2 + j)) (seq 0 D1))) (seq 0 D1)))
  /\ (exists ans : Operator,
        partial_trace self [1%Z] = Ok ans
        /\ op_class ans = ClsDensityOperator /\ _dim ans = [d1]
        /\ has_shape D1 D1 (_matrix ans)
        /\ forall i j, (i < D1)%nat -> (j < D1)%nat ->
             entry (_matrix ans) i j
             = Np.vsum (map (fun a => Np.vsum (map (fun b =>
                          entry M (i * D2 + a) (j * D2 + b)) (seq 0 D2))) (seq 0 D2))).
Proof.
  intros Hwf Hdim H1 H2 D1 D2 M. split.
  - apply (partial_trace_first self d1 d2); assumption.
  - apply (partial_trace_second self d1 d2); assumption.
Qed.

Lemma vsum_entries (m : nat) (row : vector) :
  length row = m ->
  Np.vsum row = Np.vsum (map (fun b => nth b row Cplx.zero) (seq 0 m)).
Proof. intros <-. rewrite map_nth_seq. reflexivity. Qed.

Lemma sum_entries (n m : nat) (A : matrix) :
  has_shape n m A ->
  Np.sum A = Np.vsum (map (fun a => Np.vsum (map (fun b => entry A a b) (seq 0 m)))
                          (seq 0 n)).
Proof.
  intros [Hn Hrows]. unfold Np.sum. subst n.
  assert (E : map Np.vsum A
              = map (fun a => Np.vsum (nth a A [])) (seq 0 (length A))).
  { clear Hrows. induction A as [|r A IH]; [reflexivity|].
    cbn [map length seq nth]. f_equal. rewrite <- seq_shift, map_map. exact IH. }
  rewrite E. apply vsum_map_ext. intros a Ha. apply in_seq in Ha.
  apply vsum_entries. rewrite Forall_forall in Hrows. apply Hrows, nth_In. lia.
Qed.

(** X19: for a product state [a.kron(b)] of two well-formed single-subsystem
    operators, tracing over the first subsystem returns [b]'s matrix
    multiplied by the sum of all the entries of [a]'s matrix (not by its
    trace), and tracing over the second returns [a]'s matrix multiplied by
    the sum of all the entries of [b]'s. *)
Theorem partial_trace_of_a_product (a b : Operator) (d1 d2 : Z) :
  well_formed a = true -> well_formed b = true ->
  _dim a = [d1] -> _dim b = [d2] -> (0 < d1)%Z -> (0 < d2)%Z ->
  exists ab r0 r1 : Operator,
    Operator_kron a (PyOp b) = Ok ab
    /\ partial_trace ab [0%Z] = Ok r0
    /\ _dim r0 = [d2]
    /\ _matrix r0 = Np.lscale (Np.sum (_matrix a)) (_matrix b)
    /\ partial_trace ab [1%Z] = Ok r1
    /\ _dim r1 = [d1]
    /\ _matrix r1 = Np.scale (_matrix a) (Np.sum (_matrix b)).
Proof.
  intros Ha Hb Hda Hdb H1 H2.
  destruct (well_formed_shape a Ha) as [HsA HpA].
  destruct (well_formed_shape b Hb) as [HsB HpB].
  rewrite Hda in HpA. rewrite Hdb in HpB. cbn [Np.prod fold_right] in HpA, HpB.
  assert (EA : length (_matrix a) = Z.to_nat d1) by lia.
  assert (EB : length (_matrix b) = Z.to_nat d2) by lia.
  rewrite EA in HsA. rewrite EB in HsB.
  set (D1 := Z.to_nat d1) in *. set (D2 := Z.to_nat d2) in *.
  set (ab := mkOperator (op_class a) (_dim a ++ _dim b)
                        (Np.kron (_matrix a) (_matrix b))).
  assert (Hwf : well_formed ab = true) by (apply well_formed_kron; assumption).
  assert (Hdim : _dim ab = [d1; d2]) by (unfold ab; cbn [_dim]; rewrite Hda, Hdb; reflexivity).
  destruct (partial_trace_first ab d1 d2 Hwf Hdim H1 H2)
    as [r0 [Hr0 [_ [Hd0 [Hs0 He0]]]]].
  destruct (partial_trace_second ab d1 d2 Hwf Hdim H1 H2)
    as [r1 [Hr1 [_ [Hd1 [Hs1 He1]]]]].
  fold D1 D2 in Hs0, He0, Hs1, He1. cbn [_matrix ab] in He0, He1.
  exists ab, r0, r1.
  split; [reflexivity|]. split; [exact Hr0|]. split; [exact Hd0|].
  split.
  { apply (@matrix_ext D2 D2).
    - exact Hs0.
    - unfold Np.lscale. apply (@has_shape_map_map _ D2 D2 _ HsB).
    - intros i j Hi Hj. rewrite (He0 i j Hi Hj).
      unfold Np.lscale. rewrite (@entry_map_map _ D2 D2 _ i j HsB Hi Hj).
      rewrite (sum_entries D1 D1 _ HsA), <- vsum_map_mul_r.
      apply vsum_map_ext. intros x Hx. apply in_seq in Hx.
      rewrite <- vsum_map_mul_r. apply vsum_map_ext. intros y Hy. apply in_seq in Hy.
      unfold ab. cbn [_matrix].
      apply (entry_kron D1 D1 D2 D2); assumption || lia. }
  split; [exact Hr1|]. split; [exact Hd1|].
  apply (@matrix_ext D1 D1).
  - exact Hs1.
  - apply has_shape_scale, HsA.
  - intros i j Hi Hj. rewrite (He1 i j Hi Hj).
    rewrite (entry_scale D1 D1 _ _ i j HsA Hi Hj).
    rewrite (sum_entries D2 D2 _ HsB), <- vsum_map_mul_l.
    apply vsum_map_ext. intros x Hx. apply in_seq in Hx.
    rewrite <- vsum_map_mul_l. apply vsum_map_ext. intros y Hy. apply in_seq in Hy.
    unfold ab. cbn [_matrix].
    apply (entry_kron D1 D1 D2 D2); assumption || lia.
Qed.

(** ** The thermal state at zero field *)

Lemma zeeman_energy_zero_field (gamma m : Qc) : zeeman_energy gamma (Q2Qc 0) m = Cplx.zero.
Proof.
  unfold zeeman_energy, Cplx.zero. f_equal. ring.
Qed.

Lemma zeeman_energy_zero_gamma (B m : Qc) : zeeman_energy (Q2Qc 0) B m = Cplx.zero.
Proof.
  unfold zeeman_energy, Cplx.zero. f_equal. ring.
Qed.

Lemma amin_repeat (c : C) (n : nat) : NpOrder.amin (repeat c (S n)) = c.
Proof.
  cbn [repeat NpOrder.amin]. induction n as [|n IH]; [reflexivity|].
  cbn [repeat fold_left]. rewrite np_ltb_irrefl. exact IH.
Qed.

(** The weights of levels that all have the energy zero are all one, at
    every temperature. *)
Lemma raw_weights_degenerate (cexp : C -> C) (cnst_h cnst_k : Qc) (n : nat)
  (T : temperature) :
  cexp Cplx.zero = Cplx.one ->
  raw_weights cexp cnst_h cnst_k (repeat Cplx.zero (S n)) T = repeat Cplx.one (S n).
Proof.
  intros Hexp. unfold raw_weights. destruct (T_positive T).
  - rewrite map_repeat. f_equal.
    destruct T as [t | |]; cbn [boltzmann_exponent]; try exact Hexp.
    rewrite CplxFacts.mul_zero_r, div_zero_l. exact Hexp.
  - rewrite amin_repeat, map_repeat, CplxFacts.eqb_refl. reflexivity.
Qed.

Lemma populations_degenerate (cexp : C -> C) (cnst_h cnst_k : Qc) (n : nat)
  (T : temperature) :
  cexp Cplx.zero = Cplx.one ->
  populations cexp cnst_h cnst_k (repeat Cplx.zero (S n)) T = uniform (S n).
Proof.
  intros Hexp. unfold populations. rewrite (raw_weights_degenerate _ _ _ n T Hexp).
  rewrite vsum_repeat, CplxFacts.mul_one_r.
  assert (Hpos : NpOrder.ltb Cplx.zero (Cplx.of_Z (Z.of_nat (S n))) = true).
  { apply np_positive_real; [reflexivity|].
    unfold Cplx.of_Z, Cplx.of_Qc. cbn [Cplx.re].
    change (Q2Qc 0) with (Py.of_Z 0). apply of_Z_lt. lia. }
  rewrite Hpos, map_repeat. reflexivity.
Qed.

(** X20: at zero field (the field a new experiment has) the temperature has
    no effect: for every valid spin and every temperature, positive,
    zero, negative or infinite, the thermal state of a spin other than
    the muon is the uniform one, [1/(2I+1)] on the diagonal.  The same
    holds at any field for a spin whose gyromagnetic ratio is zero. *)
Theorem thermal_state_at_zero_field (sqrt : Qc -> Qc) (cexp : C -> C)
  (cnst_h cnst_k : Qc) (k : positive) (gamma B : Qc) (T : temperature) :
  cexp Cplx.zero = Cplx.one ->
  let n := S (Pos.to_nat k) in
  let uniform_state :=
    Ok (mkOperator ClsDensityOperator [Z.of_nat n] (Np.diag_k (uniform n) 0)) in
  thermal_state sqrt cexp cnst_h cnst_k (half_integer k) gamma (Q2Qc 0) T = uniform_state
  /\ thermal_state sqrt cexp cnst_h cnst_k (half_integer k) (Q2Qc 0) B T = uniform_state
  /\ Np.vsum (uniform n) = Cplx.one.
Proof.
  intros Hexp n uniform_state. subst uniform_state n.
  assert (Hlen : length (descending (half_integer k) (S (Pos.to_nat k)))
                 = S (Pos.to_nat k)) by apply length_descending.
  split; [|split].
  - apply thermal_uniform.
    rewrite (map_ext _ (fun _ => Cplx.zero)) by apply zeeman_energy_zero_field.
    rewrite map_const, Hlen. apply populations_degenerate, Hexp.
  - apply thermal_uniform.
    rewrite (map_ext _ (fun _ => Cplx.zero)) by apply zeeman_energy_zero_gamma.
    rewrite map_const, Hlen. apply populations_degenerate, Hexp.
  - apply vsum_uniform. lia.
Qed.

(** ** The rotation matrix *)

(** X21: [_make_rotmat(theta, phi)] is a rotation whenever [cos] and [sin]
    satisfy [cos^2 + sin^2 = 1] at the two angles: its rows are orthonormal,
    its columns are orthonormal and its determinant is 1; its third
    column, the image of the z axis, is the unit vector with polar angle
    [theta] and azimuth [phi]. *)
Theorem make_rotmat_is_a_rotation (cos sin : Qc -> Qc) (theta phi : Qc) :
  (cos theta * cos theta + sin theta * sin theta = Q2Qc 1)%Qc ->
  (cos phi * cos phi + sin phi * sin phi = Q2Qc 1)%Qc ->
  let R := _make_rotmat cos sin theta phi in
  (forall i j, (i < 3)%nat -> (j < 3)%nat ->
     rvdot (nth i R []) (nth j R []) = if Nat.eqb i j then Q2Qc 1 else Q2Qc 0)
  /\ (forall i j, (i < 3)%nat -> (j < 3)%nat ->
        rvdot (rcolumn R i) (rcolumn R j) = if Nat.eqb i j then Q2Qc 1 else Q2Qc 0)
  /\ det3 R = Q2Qc 1
  /\ rcolumn R 2 = [(cos phi * sin theta)%Qc; (sin phi * sin theta)%Qc; cos theta].
Proof.
  intros Ht Hp R.
  set (ct := cos theta) in *. set (st := sin theta) in *.
  set (cp := cos phi) in *. set (sp := sin phi) in *.
  assert (Ht' : (st * st = Q2Qc 1 - ct * ct)%Qc) by (rewrite <- Ht; ring).
  assert (Hp' : (sp * sp = Q2Qc 1 - cp * cp)%Qc) by (rewrite <- Hp; ring).
  assert (Hrows : forall a b c d e f : Qc,
            rvdot [a; b; c] [d; e; f] = (a * d + b * e + c * f)%Qc).
  { intros. unfold rvdot, rsum. cbn [map2 fold_right]. ring. }
  split; [|split; [|split]].
  - intros i j Hi Hj. unfold R, _make_rotmat. cbn zeta. fold ct st cp sp.
    destruct i as [|[|[|i]]]; [| | |lia]; destruct j as [|[|[|j]]]; try lia;
      cbn [nth Nat.eqb]; rewrite Hrows.
    + transitivity ((cp * cp) * (ct * ct + st * st) + sp * sp)%Qc; [ring|].
      rewrite Ht, Hp'. ring.
    + transitivity ((cp * sp) * (ct * ct + st * st) - sp * cp)%Qc; [ring|].
      rewrite Ht. ring.
    + ring.
    + transitivity ((cp * sp) * (ct * ct + st * st) - sp * cp)%Qc; [ring|].
      rewrite Ht. ring.
    + transitivity ((sp * sp) * (ct * ct + st * st) + cp * cp)%Qc; [ring|].
      rewrite Ht, Hp'. ring.
    + ring.
    + ring.
    + ring.
    + transitivity (ct * ct + st * st)%Qc; [ring | exact Ht].
  - intros i j Hi Hj. unfold R, _make_rotmat, rcolumn. cbn zeta. fold ct st cp sp.
    destruct i as [|[|[|i]]]; [| | |lia]; destruct j as [|[|[|j]]]; try lia;
      cbn [map nth Nat.eqb]; rewrite Hrows.
    + transitivity ((ct * ct) * (cp * cp + sp * sp) + st * st)%Qc; [ring|].
      rewrite Hp, Ht'. ring.
    + ring.
    + transitivity ((ct * st) * (cp * cp + sp * sp) - st * ct)%Qc; [ring|].
      rewrite Hp. ring.
    + ring.
    + transitivity (cp * cp + sp * sp)%Qc; [ring | exact Hp].
    + ring.
    + transitivity ((ct * st) * (cp * cp + sp * sp) - st * ct)%Qc; [ring|].
      rewrite Hp. ring.
    + ring.
    + transitivity ((st * st) * (cp * cp + sp * sp) + ct * ct)%Qc; [ring|].
      rewrite Hp, Ht'. ring.
  - unfold det3, rentry, R, _make_rotmat. cbn zeta. fold ct st cp sp. cbn [nth].
    transitivity ((cp * cp + sp * sp) * (ct * ct + st * st))%Qc; [ring|].
    rewrite Ht, Hp. ring.
  - reflexivity.
Qed.

(** ** Failures of run_experiment *)


Section RunExperimentFailures.

Variables cos sin : Qc -> Qc.
Variable MU_TAU : Qc.
Variable Hamiltonian : Type.
Variable H_scale : Hamiltonian -> Qc -> Hamiltonian.
Variable H_add : Hamiltonian -> Hamiltonian -> Hamiltonian.
Variable rotated_hamiltonian : MuonSpinSystem -> rotmat -> Hamiltonian.
Variable evolve : Hamiltonian -> Operator -> list Qc -> list Operator -> vector.
Variable integrate_decaying : Hamiltonian -> Operator -> Qc -> list Operator -> vector.



End RunExperimentFailures.

(** ** Division by a number *)

Lemma mul_reciprocal (a x : C) :
  x <> Cplx.zero -> Cplx.mul (Cplx.mul a x) (Cplx.div Cplx.one x) = a.
Proof.
  intros Hx. rewrite CplxFacts.mul_assoc, mul_div, CplxFacts.mul_one_r.
  rewrite (@div_self _ Hx). apply CplxFacts.mul_one_r.
Qed.

Lemma reciprocal_mul (a x : C) :
  x <> Cplx.zero -> Cplx.mul (Cplx.mul a (Cplx.div Cplx.one x)) x = a.
Proof.
  intros Hx. rewrite CplxFacts.mul_assoc, (CplxFacts.mul_comm _ x).
  rewrite mul_div, CplxFacts.mul_one_r, (@div_self _ Hx). apply CplxFacts.mul_one_r.
Qed.

Lemma scale_scale (M : matrix) (x y : C) :
  (forall a, Cplx.mul (Cplx.mul a x) y = a) -> Np.scale (Np.scale M x) y = M.
Proof.
  intros H. unfold Np.scale. rewrite map_map. rewrite <- (map_id M) at 2.
  apply map_ext. intros r. rewrite map_map. rewrite <- (map_id r) at 2.
  apply map_ext. exact H.
Qed.

(** X23: for a Python [int], [float] or [complex] [x] (not a numpy
    scalar), [a / x] multiplies by [1/x]: when [x] is not zero it undoes
    [a * x], and [a * x] undoes it, in exact arithmetic; when [x] is zero
    it raises [ZeroDivisionError].  Dividing by an Operator, or by
    anything that is not a number, raises [TypeError] (although [*]
    accepts an Operator). *)
Theorem Operator_truediv_inverts_mul (a : Operator) (x : C) :
  x <> Cplx.zero ->
  (exists ax, Operator_mul a (PyNum x) = Ok ax
              /\ Operator_truediv ax (PyNum x) = Returns a)
  /\ (exists q, Operator_truediv a (PyNum x) = Returns q
                /\ Operator_mul q (PyNum x) = Ok a)
  /\ Operator_truediv a (PyNum Cplx.zero) = Throws ZeroDivisionError
  /\ (forall b : Operator, Operator_truediv a (PyOp b) = Throws TypeError)
  /\ Operator_truediv a PyOther = Throws TypeError.
Proof.
  intros Hx.
  assert (Hnz : Cplx.eqb x Cplx.zero = false) by (apply (@eqb_false_ne _ _ Hx)).
  split; [|split; [|split; [|split]]].
  - eexists. split; [reflexivity|].
    unfold Operator_truediv. rewrite Hnz. cbn [Operator_mul outcome_of].
    unfold clone, with_matrix. cbn [op_class _dim _matrix].
    rewrite scale_scale by (intros; apply mul_reciprocal, Hx).
    rewrite operator_eta. reflexivity.
  - unfold Operator_truediv. rewrite Hnz. cbn [Operator_mul outcome_of].
    eexists. split; [reflexivity|].
    unfold clone, with_matrix. cbn [op_class _dim _matrix].
    rewrite scale_scale by (intros; apply reciprocal_mul, Hx).
    rewrite operator_eta. reflexivity.
  - unfold Operator_truediv. rewrite CplxFacts.eqb_refl. reflexivity.
  - reflexivity.
  - reflexivity.
Qed.

(** ** Change of basis *)

Lemma has_shape_adjoint (n m : nat) (A : matrix) :
  has_shape n m A -> (0 < n)%nat -> has_shape m n (adjoint A).
Proof.
  intros HA Hn. unfold adjoint, Np.conj.
  apply (@has_shape_map_map _ m n _ (@has_shape_transpose n m A HA Hn)).
Qed.

Lemma entry_adjoint (n m : nat) (A : matrix) (i j : nat) :
  has_shape n m A -> (0 < n)%nat -> (i < m)%nat -> (j < n)%nat ->
  entry (adjoint A) i j = Cplx.conj (entry A j i).
Proof.
  intros HA Hn Hi Hj. unfold adjoint, Np.conj.
  rewrite (@entry_map_map _ m n _ i j (@has_shape_transpose n m A HA Hn) Hi Hj).
  rewrite (@entry_transpose n m A i j HA Hi Hj). reflexivity.
Qed.

Lemma conj_conj (z : C) : Cplx.conj (Cplx.conj z) = z.
Proof. apply CplxFacts.ext; unfold Cplx.conj; cbn [Cplx.re Cplx.im]; ring. Qed.

Lemma adjoint_dot (n m p : nat) (A B : matrix) :
  has_shape n m A -> has_shape m p B -> (0 < n)%nat -> (0 < m)%nat -> (0 < p)%nat ->
  adjoint (Np.dot A B) = Np.dot (adjoint B) (adjoint A).
Proof.
  intros HA HB Hn Hm Hp.
  pose proof (has_shape_dot HA HB Hm) as HAB.
  pose proof (has_shape_adjoint n m A HA Hn) as HAa.
  pose proof (has_shape_adjoint m p B HB Hm) as HBa.
  apply (@matrix_ext p n).
  - apply (has_shape_adjoint n p _ HAB Hn).
  - apply (has_shape_dot HBa HAa Hm).
  - intros i j Hi Hj.
    rewrite (entry_adjoint n p _ i j HAB Hn Hi Hj).
    rewrite (entry_dot j i HA HB Hm Hj Hi), (entry_dot i j HBa HAa Hm Hi Hj).
    rewrite conj_vsum_map. apply vsum_map_ext. intros k Hk. apply in_seq in Hk.
    rewrite conj_mul, (entry_adjoint m p B i k HB Hm Hi), (entry_adjoint n m A k j HA Hn)
      by lia.
    apply CplxFacts.mul_comm.
Qed.

Lemma adjoint_adjoint (n m : nat) (A : matrix) :
  has_shape n m A -> (0 < n)%nat -> (0 < m)%nat -> adjoint (adjoint A) = A.
Proof.
  intros HA Hn Hm. pose proof (has_shape_adjoint n m A HA Hn) as HAa.
  apply (@matrix_ext n m).
  - apply (has_shape_adjoint m n _ HAa Hm).
  - exact HA.
  - intros i j Hi Hj.
    rewrite (entry_adjoint m n _ i j HAa Hm Hi Hj), (entry_adjoint n m A j i HA Hn Hj Hi).
    apply conj_conj.
Qed.

Lemma adjoint_hermitian (n : nat) (M : matrix) :
  has_shape n n M -> (0 < n)%nat -> hermitian n M -> adjoint M = M.
Proof.
  intros HM Hn Hh. apply (@matrix_ext n n).
  - apply (has_shape_adjoint n n M HM Hn).
  - exact HM.
  - intros i j Hi Hj. rewrite (entry_adjoint n n M i j HM Hn Hi Hj).
    rewrite (Hh i j Hi Hj). apply CplxFacts.mul_one_l.
Qed.

Lemma adjoint_fixed_hermitian (n : nat) (M : matrix) :
  has_shape n n M -> (0 < n)%nat -> adjoint M = M -> hermitian n M.
Proof.
  intros HM Hn H i j Hi Hj. rewrite CplxFacts.mul_one_l.
  rewrite <- (entry_adjoint n n M i j HM Hn Hi Hj), H. reflexivity.
Qed.

Lemma adjoint_eye (n : nat) : (0 < n)%nat -> adjoint (Np.eye n) = Np.eye n.
Proof.
  intros Hn. apply (adjoint_hermitian n _ (has_shape_eye n) Hn).
  intros i j Hi Hj. rewrite !entry_eye by assumption.
  rewrite CplxFacts.mul_one_l, (Nat.eqb_sym j i).
  destruct (Nat.eqb i j); apply conj_real; reflexivity.
Qed.

Lemma basis_change_returns (self : Operator) (n c : nat) (basis : matrix) :
  has_shape n n (_matrix self) -> has_shape n c basis -> (0 < n)%nat ->
  basis_change self basis
  = Returns (mkOperator (op_class self) (_dim self)
               (Np.dot (adjoint basis) (Np.dot (_matrix self) basis))).
Proof.
  intros HM HB Hn. unfold basis_change, clone, with_matrix. cbn [op_class _dim _matrix].
  unfold Np.nrows. rewrite (@has_shape_ncols n n _ HM Hn).
  destruct HM as [-> _]. destruct HB as [-> _]. rewrite Nat.eqb_refl. reflexivity.
Qed.

Lemma trace_dot_comm (n m : nat) (A B : matrix) :
  has_shape n m A -> has_shape m n B -> (0 < n)%nat -> (0 < m)%nat ->
  Np.trace (Np.dot A B) = Np.trace (Np.dot B A).
Proof.
  intros HA HB Hn Hm.
  pose proof (has_shape_dot HA HB Hm) as HAB. pose proof (has_shape_dot HB HA Hn) as HBA.
  rewrite !trace_entries.
  replace (length (Np.dot A B)) with n by (symmetry; apply HAB).
  replace (length (Np.dot B A)) with m by (symmetry; apply HBA).
  rewrite (vsum_map_ext _
    (fun i => Np.vsum (map (fun k => Cplx.mul (entry A i k) (entry B k i)) (seq 0 m)))).
  2:{ intros i Hi. apply in_seq in Hi. apply (entry_dot i i HA HB Hm); lia. }
  rewrite vsum_swap. apply vsum_map_ext. intros k Hk. apply in_seq in Hk.
  rewrite (entry_dot k k HB HA Hn) by lia.
  apply vsum_map_ext. intros i _. apply CplxFacts.mul_comm.
Qed.

Lemma basis_change_hermitian (n c : nat) (M B : matrix) :
  has_shape n n M -> has_shape n c B -> (0 < n)%nat -> (0 < c)%nat ->
  hermitian n M ->
  hermitian c (Np.dot (adjoint B) (Np.dot M B)).
Proof.
  intros HM HB Hn Hc Hh.
  pose proof (has_shape_adjoint n c B HB Hn) as HBa.
  pose proof (has_shape_dot HM HB Hn) as HMB.
  pose proof (has_shape_dot HBa HMB Hn) as HR.
  apply (adjoint_fixed_hermitian c _ HR Hc).
  rewrite (adjoint_dot c n c _ _ HBa HMB Hc Hn Hc).
  rewrite (adjoint_dot n n c _ _ HM HB Hn Hn Hc).
  rewrite (adjoint_adjoint n c B HB Hn Hc), (adjoint_hermitian n M HM Hn Hh).
  apply (dot_assoc c n n c); assumption.
Qed.

(** X24: [basis_change(basis)] returns the operator with matrix
    [basis^H M basis], of the class and with the dimension tuple of
    [self], whenever [basis] has as many rows as [M]; otherwise it raises
    numpy's ValueError.  The identity basis returns [self].  The basis is
    not asked to be square: with [c] columns the matrix returned is
    [c x c] under an unchanged dimension tuple.  In exact arithmetic the
    Hermiticity test is kept by every basis (in binary64 the two products
    that should be conjugate can be rounded differently). *)
Theorem basis_change_outcomes (self : Operator) (c : nat) (basis : matrix) :
  well_formed self = true -> (0 < length (_matrix self))%nat ->
  has_shape (length basis) c basis -> (0 < c)%nat ->
  let n := length (_matrix self) in
  (length basis <> n -> basis_change self basis = Throws ValueError)
  /\ (length basis = n ->
      exists r : Operator,
        basis_change self basis = Returns r
        /\ op_class r = op_class self /\ _dim r = _dim self
        /\ _matrix r = Np.dot (adjoint basis) (Np.dot (_matrix self) basis)
        /\ has_shape c c (_matrix r)
        /\ (c = n -> well_formed r = true)
        /\ (is_hermitian self = true -> is_hermitian r = true))
  /\ basis_change self (Np.eye n) = Returns self.
Proof.
  intros Hwf Hn HB Hc n.
  destruct (well_formed_shape self Hwf) as [HM Hp]. fold n in HM, Hp, Hn.
  split; [|split].
  - intros Hne. unfold basis_change, clone, with_matrix. cbn [op_class _dim _matrix].
    unfold Np.nrows. fold n. destruct (Nat.eqb_spec (length basis) n); [contradiction|].
    reflexivity.
  - intros Hlen. rewrite Hlen in HB.
    rewrite (basis_change_returns self n c basis HM HB Hn).
    pose proof (has_shape_adjoint n c basis HB Hn) as HBa.
    pose proof (has_shape_dot HBa (has_shape_dot HM HB Hn) Hn) as HR.
    eexists. split; [reflexivity|]. cbn [op_class _dim _matrix].
    split; [reflexivity|]. split; [reflexivity|]. split; [reflexivity|].
    split; [exact HR|]. split.
    + intros ->. apply (shape_well_formed _ _ n _ HR Hp).
    + intros Hh. apply (entries_is_hermitian _ _ c _ HR).
      apply (basis_change_hermitian n c); try assumption.
      apply (is_hermitian_entries_0 (op_class self) (_dim self) n _ HM).
      rewrite operator_eta. exact Hh.
  - rewrite (basis_change_returns self n n (Np.eye n) HM (has_shape_eye n) Hn).
    rewrite (adjoint_eye n Hn), (dot_eye_r n n _ HM Hn), (dot_eye_l n n _ HM Hn).
    rewrite operator_eta. reflexivity.
Qed.

(** X25: a unitary basis ([basis basis^H] is the identity) keeps the trace,
    so [basis_change] turns a density matrix (well formed, Hermitian, of
    trace 1) into a density matrix. *)
Theorem basis_change_keeps_density_matrices (self : Operator) (basis : matrix) :
  well_formed self = true -> (0 < length (_matrix self))%nat ->
  let n := length (_matrix self) in
  has_shape n n basis ->
  Np.dot basis (adjoint basis) = Np.eye n ->
  exists r : Operator,
    basis_change self basis = Returns r
    /\ Np.trace (_matrix r) = Np.trace (_matrix self)
    /\ (density_matrix self -> density_matrix r).
Proof.
  intros Hwf Hn n HB Hunit.
  destruct (well_formed_shape self Hwf) as [HM Hp]. fold n in HM, Hp, Hn.
  rewrite (basis_change_returns self n n basis HM HB Hn).
  pose proof (has_shape_adjoint n n basis HB Hn) as HBa.
  pose proof (has_shape_dot HM HB Hn) as HMB.
  pose proof (has_shape_dot HBa HMB Hn) as HR.
  assert (Htr : Np.trace (Np.dot (adjoint basis) (Np.dot (_matrix self) basis))
                = Np.trace (_matrix self)).
  { rewrite (trace_dot_comm n n _ _ HBa HMB Hn Hn).
    rewrite (dot_assoc n n n n _ _ _ HM HB HBa Hn Hn), Hunit.
    rewrite (dot_eye_r n n _ HM Hn). reflexivity. }
  eexists. split; [reflexivity|]. cbn [_matrix]. split; [exact Htr|].
  intros [_ [Hh Ht]]. split; [|split].
  - apply (shape_well_formed _ _ n _ HR Hp).
  - apply (entries_is_hermitian _ _ n _ HR).
    apply (basis_change_hermitian n n); try assumption.
    apply (is_hermitian_entries_0 (op_class self) (_dim self) n _ HM).
    rewrite operator_eta. exact Hh.
  - cbn [_matrix]. rewrite Htr. exact Ht.
Qed.

(** X26: two changes of basis in a row are one change to the product of the
    two bases: [a.basis_change(B1).basis_change(B2)] is
    [a.basis_change(B1 B2)], for square bases of the side of [a]. *)
Theorem basis_change_composes (self : Operator) (B1 B2 : matrix) :
  well_formed self = true -> (0 < length (_matrix self))%nat ->
  let n := length (_matrix self) in
  has_shape n n B1 -> has_shape n n B2 ->
  exists r1 : Operator,
    basis_change self B1 = Returns r1
    /\ basis_change r1 B2 = basis_change self (Np.dot B1 B2).
Proof.
  intros Hwf Hn n H1 H2.
  destruct (well_formed_shape self Hwf) as [HM Hp]. fold n in HM, Hp, Hn.
  pose proof (has_shape_adjoint n n B1 H1 Hn) as H1a.
  pose proof (has_shape_adjoint n n B2 H2 Hn) as H2a.
  pose proof (has_shape_dot H1 H2 Hn) as H12.
  pose proof (has_shape_dot HM H1 Hn) as HM1.
  pose proof (has_shape_dot H1a HM1 Hn) as HR1.
  rewrite (basis_change_returns self n n B1 HM H1 Hn).
  eexists. split; [reflexivity|].
  rewrite (basis_change_returns
             (mkOperator (op_class self) (_dim self)
                (Np.dot (adjoint B1) (Np.dot (_matrix self) B1))) n n B2 HR1 H2 Hn).
  rewrite (basis_change_returns self n n _ HM H12 Hn).
  cbn [op_class _dim _matrix]. do 2 f_equal.
  rewrite (adjoint_dot n n n _ _ H1 H2 Hn Hn Hn).
  rewrite (dot_assoc n n n n _ _ _ H2a H1a (has_shape_dot HM H12 Hn) Hn Hn).
  f_equal.
  rewrite (dot_assoc n n n n _ _ _ H1a HM1 H2 Hn Hn). f_equal.
  apply (dot_assoc n n n n); assumption.
Qed.

(** ** from_vectors *)

Section FromVectorsFacts.

Variable sqrt : Qc -> Qc.
Variable eigh : matrix -> rvector * matrix.

Lemma from_vectors1_factor (x : Qc) (vec : rvector) (gamma : Qc) :
  from_vectors1 sqrt eigh x vec gamma
  = (m <- from_vectors_factor sqrt eigh x vec gamma ;;
     DensityOperator_init m (Some [spin_dim x])).
Proof.
  unfold from_vectors1, from_vectors. cbn [length Nat.eqb negb orb from_vectors_loop map].
  destruct (from_vectors_factor sqrt eigh x vec gamma); reflexivity.
Qed.

Lemma invalid_spin_true (x : Qc) : ~ positive_half_integer x -> invalid_spin x = true.
Proof.
  intros H. destruct (invalid_spin x) eqn:E; [reflexivity|].
  exfalso. apply H. apply invalid_spin_iff, E.
Qed.

Lemma valid_spin_false (x : Qc) : positive_half_integer x -> invalid_spin x = false.
Proof. intros H. apply invalid_spin_iff, H. Qed.

(** X27: [from_vectors] tests, in this order, the lengths of its three lists,
    then for each spin the spin value, the length of the vector and the
    decoherence factor: an invalid spin raises the spin error whatever
    the vector and gamma are; for a valid spin a vector that has not
    three entries raises the vector error whatever gamma is; and a gamma
    outside [0, 1] raises the gamma error.  All are ValueErrors.  (The
    list of vectors of the fourth part is a non-empty list of vectors of
    one length, which numpy reads as a 2-D array.) *)
Theorem from_vectors_refusals (x : Qc) (vec : rvector) (gamma : Qc) :
  (~ positive_half_integer x ->
   from_vectors1 sqrt eigh x vec gamma = Raise (InvalidSpin x))
  /\ (positive_half_integer x -> length vec <> 3%nat ->
      from_vectors1 sqrt eigh x vec gamma = Raise InvalidVector)
  /\ (positive_half_integer x -> length vec = 3%nat ->
      (gamma < Q2Qc 0 \/ Q2Qc 1 < gamma)%Qc ->
      from_vectors1 sqrt eigh x vec gamma = Raise InvalidGamma)
  /\ (forall Is_ vectors gammas m,
        vectors <> [] -> Forall (fun v => length v = m) vectors ->
        length Is_ <> length vectors \/ length Is_ <> length gammas \/ Is_ = [] ->
        from_vectors sqrt eigh Is_ vectors gammas = Raise BadLengths)
  /\ exc_class (InvalidSpin x) = ValueError /\ exc_class InvalidVector = ValueError
  /\ exc_class InvalidGamma = ValueError /\ exc_class BadLengths = ValueError.
Proof.
  split; [|split; [|split; [|split; [|repeat split]]]].
  - intros Hx. rewrite from_vectors1_factor. unfold from_vectors_factor.
    rewrite (invalid_spin_true x Hx). reflexivity.
  - intros Hx Hv. rewrite from_vectors1_factor. unfold from_vectors_factor.
    rewrite (valid_spin_false x Hx).
    destruct (Nat.eqb_spec (length vec) 3); [contradiction | reflexivity].
  - intros Hx Hv Hg. rewrite from_vectors1_factor. unfold from_vectors_factor.
    rewrite (valid_spin_false x Hx), Hv. cbn [Nat.eqb negb].
    assert (Hb : Py.ltb gamma (Q2Qc 0) || Py.ltb (Q2Qc 1) gamma = true).
    { apply orb_true_iff. destruct Hg as [Hg|Hg]; [left|right]; apply ltb_lt, Hg. }
    rewrite Hb. reflexivity.
  - intros Is_ vectors gammas m _ _ H. unfold from_vectors.
    destruct (Nat.eqb_spec (length Is_) (length vectors)) as [E1|]; [|reflexivity].
    destruct (Nat.eqb_spec (length Is_) (length gammas)) as [E2|]; [|reflexivity].
    destruct H as [H|[H|H]]; try contradiction. subst Is_. reflexivity.
Qed.

Lemma from_vectors_factor_inv (x : Qc) (vec : rvector) (gamma : Qc) (m : matrix) :
  from_vectors_factor sqrt eigh x vec gamma = Ok m ->
  positive_half_integer x /\ length vec = 3%nat
  /\ (Q2Qc 0 <= gamma <= Q2Qc 1)%Qc
  /\ exists psi : vector,
       m = Np.mul (outer_conj psi) (decoherence_mask gamma (length (outer_conj psi))).
Proof.
  unfold from_vectors_factor.
  destruct (invalid_spin x) eqn:Hx; [discriminate|].
  destruct (Nat.eqb_spec (length vec) 3) as [Hv|]; [|discriminate]. cbn [negb].
  destruct (Py.ltb gamma (Q2Qc 0)) eqn:H0; [discriminate|].
  destruct (Py.ltb (Q2Qc 1) gamma) eqn:H1; [discriminate|]. cbn [orb].
  destruct (eigh _) as [evals evecs]. intros [= <-].
  split; [apply invalid_spin_iff, Hx|]. split; [exact Hv|].
  split.
  - split; apply Qcnot_lt_le; intros H; apply ltb_lt in H; congruence.
  - eexists. reflexivity.
Qed.

Lemma from_vectors_loop_inv (Is_ : list Qc) (vectors : list rvector) (gammas : list Qc)
  (ms : list matrix) :
  length Is_ = length vectors -> length Is_ = length gammas ->
  from_vectors_loop sqrt eigh Is_ vectors gammas = Ok ms ->
  Forall positive_half_integer Is_
  /\ Forall (fun v => length v = 3%nat) vectors
  /\ Forall (fun g => (Q2Qc 0 <= g <= Q2Qc 1)%Qc) gammas.
Proof.
  revert vectors gammas ms.
  induction Is_ as [|x Is_ IH]; intros [|v vectors] [|g gammas] ms Hv Hg H;
    try discriminate.
  - repeat split; constructor.
  - cbn [from_vectors_loop] in H.
    apply bind_Ok_inv in H as [m [Hm H]].
    apply bind_Ok_inv in H as [rest [Hrest _]].
    apply from_vectors_factor_inv in Hm as [Hx [Hlv [Hgam _]]].
    destruct (IH vectors gammas rest) as [H1 [H2 H3]];
      [cbn in Hv; lia | cbn in Hg; lia | exact Hrest |].
    repeat split; constructor; assumption.
Qed.

(** X28: whatever [from_vectors] returns is a well-formed DensityOperator
    that passes the Hermiticity test, and whose trace is 1 in exact
    arithmetic (in binary64, 1 up to rounding); its property [Is] is the
    list of spins it was given; and the call was made with three lists
    of one length, vectors of three entries and decoherence factors
    between 0 and 1. *)
Theorem from_vectors_returns_a_density_matrix (Is_ : list Qc) (vectors : list rvector)
  (gammas : list Qc) (rho : Operator) :
  from_vectors sqrt eigh Is_ vectors gammas = Ok rho ->
  op_class rho = ClsDensityOperator
  /\ well_formed rho = true /\ is_hermitian rho = true /\ trace rho = Cplx.one
  /\ Is rho = Is_ /\ _dim rho = map spin_dim Is_
  /\ length vectors = length Is_ /\ length gammas = length Is_ /\ Is_ <> []
  /\ Forall (fun v => length v = 3%nat) vectors
  /\ Forall (fun g => (Q2Qc 0 <= g <= Q2Qc 1)%Qc) gammas.
Proof.
  unfold from_vectors.
  destruct (Nat.eqb_spec (length Is_) (length vectors)) as [Hv|]; [|discriminate].
  destruct (Nat.eqb_spec (length Is_) (length gammas)) as [Hg|]; [|discriminate].
  destruct (Nat.eqb_spec (length Is_) 0) as [|Hne]; [discriminate|].
  cbn [negb orb]. intros H. apply bind_Ok_inv in H as [ms [Hms H]].
  destruct (from_vectors_loop_inv Is_ vectors gammas ms Hv Hg Hms) as [H1 [H2 H3]].
  destruct (DensityOperator_init_density _ _ _ H) as [Hc [Hw [Hh Ht]]].
  apply DensityOperator_init_inv in H as [_ [_ [Hrho _]]].
  split; [exact Hc|]. split; [exact Hw|]. split; [exact Hh|]. split; [exact Ht|].
  split; [rewrite Hrho; apply Is_of_valid_spins, H1|].
  split; [rewrite Hrho; reflexivity|].
  split; [symmetry; exact Hv|]. split; [symmetry; exact Hg|].
  split; [intros ->; apply Hne; reflexivity|]. split; assumption.
Qed.

Lemma entry_out_of_range (n m : nat) (M : matrix) (i j : nat) :
  has_shape n m M -> (n <= i)%nat \/ (m <= j)%nat -> entry M i j = Cplx.zero.
Proof.
  intros HM H. unfold entry.
  destruct (Nat.lt_ge_cases i n) as [Hi|Hi].
  - apply nth_overflow. rewrite (@has_shape_row n m M i HM Hi). lia.
  - rewrite (nth_overflow M) by (destruct HM as [-> _]; exact Hi).
    destruct j; reflexivity.
Qed.

(** X29: full decoherence leaves a diagonal state: with [gamma = 1] every
    off-diagonal entry of the matrix that [from_vectors] returns for one
    spin is exactly zero, whatever [eigh] returns. *)
Theorem from_vectors_full_decoherence (x : Qc) (vec : rvector) (rho : Operator) :
  from_vectors1 sqrt eigh x vec (Q2Qc 1) = Ok rho ->
  forall i j : nat, i <> j -> entry (_matrix rho) i j = Cplx.zero.
Proof.
  intros H i j Hij. rewrite from_vectors1_factor in H.
  apply bind_Ok_inv in H as [m [Hm H]].
  apply from_vectors_factor_inv in Hm as [_ [_ [_ [psi Hm]]]].
  apply DensityOperator_init_inv in H as [_ [_ [-> _]]]. cbn [_matrix].
  set (n := length psi).
  assert (Ho : has_shape n n (outer_conj psi)) by apply has_shape_outer_conj.
  assert (El : length (outer_conj psi) = n) by apply Ho.
  rewrite El in Hm.
  assert (Hshape : has_shape n n m).
  { rewrite Hm. apply (@has_shape_map2 Cplx.mul n n _ _ Ho (has_shape_mask (Q2Qc 1) n)). }
  destruct (Nat.lt_ge_cases i n) as [Hi|Hi]; [destruct (Nat.lt_ge_cases j n) as [Hj|Hj]|].
  - unfold Np.divide. rewrite (@entry_map_map _ n n m i j Hshape Hi Hj).
    replace (entry m i j) with Cplx.zero; [apply div_zero_l|].
    rewrite Hm. unfold Np.mul.
    rewrite (@entry_map2 Cplx.mul n n _ _ i j Ho (has_shape_mask (Q2Qc 1) n) Hi Hj).
    replace (entry (decoherence_mask (Q2Qc 1) n) i j) with Cplx.zero;
      [symmetry; apply CplxFacts.mul_zero_r|].
    unfold entry, decoherence_mask.
    rewrite (@nth_map_seq _ _ 0 n i [] Hi). cbn [Nat.add].
    rewrite (@nth_map_seq _ _ 0 n j Cplx.zero Hj). cbn [Nat.add].
    destruct (Nat.eqb_spec i j); [contradiction|].
    unfold Cplx.zero; f_equal; ring.
  - apply (entry_out_of_range n n); [apply has_shape_divide, Hshape | right; exact Hj].
  - apply (entry_out_of_range n n); [apply has_shape_divide, Hshape | left; exact Hi].
Qed.

End FromVectorsFacts.

(** ** The spin operators have no trace *)

Lemma rsum_app (u v : rvector) : rsum (u ++ v) = Qcplus (rsum u) (rsum v).
Proof.
  unfold rsum. induction u as [|a u IH]; cbn [app fold_right]; [ring|].
  rewrite IH. ring.
Qed.

Lemma of_nat_S (n : nat) : Py.of_nat (S n) = Qcplus (Py.of_nat n) (Q2Qc 1).
Proof.
  unfold Py.of_nat. rewrite Nat2Z.inj_succ. unfold Z.succ. rewrite of_Z_add, <- one_of_Z.
  reflexivity.
Qed.

(** Twice the sum of [x, x-1, ..., x-(n-1)]. *)
Lemma rsum_descending (x : Qc) (n : nat) :
  Qcmult Py.two (rsum (descending x n))
  = Qcmult (Py.of_nat n) (Qcminus (Qcmult Py.two x) (Qcminus (Py.of_nat n) (Q2Qc 1))).
Proof.
  assert (H2 : Py.two = (Q2Qc 1 + Q2Qc 1)%Qc) by (apply Qc_is_canon; reflexivity).
  rewrite H2. clear H2.
  unfold descending. induction n as [|n IH].
  - cbn [seq map]. unfold rsum, Py.of_nat. cbn [fold_right Z.of_nat].
    rewrite <- zero_of_Z. ring.
  - rewrite seq_S, map_app, rsum_app. cbn [Nat.add map].
    replace (rsum [Qcminus x (Py.of_nat n)]) with (Qcminus x (Py.of_nat n))
      by (unfold rsum; cbn [fold_right]; ring).
    rewrite Qcmult_plus_distr_r, IH, of_nat_S. ring.
Qed.

Lemma rsum_spin_mvals (k : positive) : rsum (spin_mvals (half_integer k)) = Q2Qc 0.
Proof.
  rewrite spin_mvals_half_integer.
  pose proof (rsum_descending (half_integer k) (S (Pos.to_nat k))) as H.
  rewrite two_half_integer in H.
  assert (E : Py.of_nat (S (Pos.to_nat k)) = Qcplus (Py.of_Z (Z.pos k)) (Q2Qc 1)).
  { rewrite of_nat_S. unfold Py.of_nat. rewrite positive_nat_Z. reflexivity. }
  rewrite E in H.
  replace (Qcmult (Qcplus (Py.of_Z (Z.pos k)) (Q2Qc 1))
             (Qcminus (Py.of_Z (Z.pos k))
                (Qcminus (Qcplus (Py.of_Z (Z.pos k)) (Q2Qc 1)) (Q2Qc 1))))
    with (Q2Qc 0) in H by ring.
  apply Qcmult_integral in H. destruct H as [H|H]; [|exact H].
  exfalso. apply two_ne_0, H.
Qed.

Lemma vsum_to_complex (v : rvector) : Np.vsum (to_complex v) = Cplx.of_Qc (rsum v).
Proof.
  unfold to_complex, Np.vsum, rsum. induction v as [|a v IH]; [reflexivity|].
  cbn [map fold_right]. rewrite IH. unfold Cplx.add, Cplx.of_Qc. cbn [Cplx.re Cplx.im].
  f_equal; ring.
Qed.

Lemma trace_zero_diagonal (n : nat) (M : matrix) :
  length M = n -> (forall i, (i < n)%nat -> entry M i i = Cplx.zero) ->
  Np.trace M = Cplx.zero.
Proof.
  intros Hn H. rewrite trace_entries, Hn.
  rewrite (vsum_map_ext _ (fun _ => Cplx.zero)); [apply vsum_map_zero|].
  intros i Hi. apply in_seq in Hi. apply H. lia.
Qed.

Section SpinTraces.

Variable sqrt : Qc -> Qc.
Variable mvals : rvector.
Hypothesis mvals_nonempty : (0 < length mvals)%nat.

Let n := length mvals.

Lemma Sp_diagonal (i : nat) : (i < n)%nat -> entry (_Sp sqrt mvals) i i = Cplx.zero.
Proof.
  intros Hi. unfold _Sp.
  match goal with |- entry (Np.diag_k ?v 1) _ _ = _ =>
    assert (Hlen : (length v + 1 = n)%nat)
  end.
  { unfold to_complex, Real.drop_last, Real.cumsum.
    rewrite !length_map, length_removelast, length_cumsum_from, length_map.
    unfold n. lia. }
  rewrite entry_diag_k by lia.
  destruct (Nat.eqb_spec i (i + 1)); [lia | reflexivity].
Qed.

Lemma trace_Sp : Np.trace (_Sp sqrt mvals) = Cplx.zero.
Proof.
  apply (trace_zero_diagonal n); [apply (@has_shape_Sp sqrt mvals mvals_nonempty)|].
  apply Sp_diagonal.
Qed.

Lemma trace_Sm : Np.trace (_Sm sqrt mvals) = Cplx.zero.
Proof.
  pose proof (@has_shape_Sp sqrt mvals mvals_nonempty) as HS. fold n in HS.
  apply (trace_zero_diagonal n); [apply (@has_shape_Sm sqrt mvals mvals_nonempty)|].
  intros i Hi. unfold _Sm. rewrite (@entry_transpose n n _ i i HS Hi Hi).
  apply Sp_diagonal, Hi.
Qed.

Lemma trace_Sx : Np.trace (_Sx sqrt mvals) = Cplx.zero.
Proof.
  pose proof (@has_shape_Sp sqrt mvals mvals_nonempty) as HS. fold n in HS.
  pose proof (@has_shape_transpose n n _ HS mvals_nonempty) as HT.
  apply (trace_zero_diagonal n); [apply (@has_shape_Sx sqrt mvals mvals_nonempty)|].
  intros i Hi. unfold _Sx. cbn zeta. rewrite (entry_add n n) by assumption.
  rewrite (@entry_transpose n n _ i i HS Hi Hi), (Sp_diagonal i Hi).
  apply CplxFacts.add_zero_l.
Qed.

Lemma trace_Sy : Np.trace (_Sy sqrt mvals) = Cplx.zero.
Proof.
  pose proof (@has_shape_Sp sqrt mvals mvals_nonempty) as HS. fold n in HS.
  pose proof (@has_shape_transpose n n _ HS mvals_nonempty) as HT.
  pose proof (has_shape_sub n n _ _ HT HS) as HD.
  apply (trace_zero_diagonal n); [apply (@has_shape_Sy sqrt mvals mvals_nonempty)|].
  intros i Hi. unfold _Sy, Np.lscale. cbn zeta.
  rewrite (@entry_map_map _ n n _ i i HD Hi Hi).
  rewrite (entry_sub n n) by assumption.
  rewrite (@entry_transpose n n _ i i HS Hi Hi), (Sp_diagonal i Hi).
  apply CplxFacts.ext; unfold Cplx.mul, Cplx.sub, Cplx.zero, Cplx.of_Qc, Cplx.imag_unit;
    cbn [Cplx.re Cplx.im]; ring.
Qed.

Lemma trace_Sz : Np.trace (_Sz mvals) = Cplx.of_Qc (rsum mvals).
Proof.
  unfold _Sz, Np.trace. rewrite diagonal_diag_k_0. apply vsum_to_complex.
Qed.

End SpinTraces.

(** X30: the operators [from_axes(I, a)] for [a] among x, y, z, + and - have
    trace zero for every valid spin, so [DensityOperator] refuses their
    matrices with the zero-trace error; the matrix of [from_axes(I, '0')]
    has trace [2I+1] and is accepted, giving the uniform state. *)
Theorem spin_operators_are_traceless (sqrt : Qc -> Qc) (k : positive) (a : string) :
  In a traceless_axes ->
  (exists S : Operator,
     from_axes1 sqrt (half_integer k) a = Ok S
     /\ Np.trace (_matrix S) = Cplx.zero
     /\ DensityOperator_init (_matrix S) None = Raise ZeroTrace)
  /\ (exists S0 rho : Operator,
        from_axes1 sqrt (half_integer k) "0" = Ok S0
        /\ Np.trace (_matrix S0) = Cplx.of_Z (Z.pos k + 1)
        /\ DensityOperator_init (_matrix S0) None = Ok rho
        /\ _matrix rho = Np.diag_k (uniform (S (Pos.to_nat k))) 0).
Proof.
  intros Ha.
  set (mvals := spin_mvals (half_integer k)).
  assert (Hlen : length mvals = S (Pos.to_nat k)) by apply length_spin_mvals.
  assert (Hn : (0 < length mvals)%nat) by lia.
  split.
  - assert (Hin : In a spin_axes) by (cbn in Ha |- *; tauto).
    destruct (@spin_axes_table sqrt a Hin) as [Hc [f Hf]].
    rewrite (@from_axes1_valid sqrt k a f Hc Hf). fold mvals.
    eexists. split; [reflexivity|]. cbn [_matrix].
    assert (Htr : Np.trace (f mvals) = Cplx.zero).
    { cbn in Ha. destruct Ha as [<-|[<-|[<-|[<-|[<-|[]]]]]]; cbn in Hf;
        injection Hf as <-.
      - apply trace_Sx, Hn.
      - apply trace_Sy, Hn.
      - rewrite trace_Sz. unfold mvals. rewrite rsum_spin_mvals. reflexivity.
      - apply trace_Sp, Hn.
      - apply trace_Sm, Hn. }
    split; [exact Htr|].
    pose proof (@axis_table_shape sqrt mvals Hn a f Hf) as Hshape.
    unfold DensityOperator_init.
    rewrite (@Operator_init_default_ok _ _ _ Hshape Hn). cbn [bind _matrix].
    rewrite Htr, CplxFacts.eqb_refl. reflexivity.
  - rewrite (@from_axes1_valid sqrt k "0" _S0 eq_refl eq_refl). fold mvals.
    unfold _S0. rewrite Hlen. set (n := S (Pos.to_nat k)).
    assert (Htr : Np.trace (Np.eye n) = Cplx.of_Z (Z.of_nat n)).
    { rewrite trace_entries. replace (length (Np.eye n)) with n
        by (symmetry; apply has_shape_eye).
      rewrite (vsum_map_ext _ (fun _ => Cplx.one)).
      - rewrite map_const, length_seq, vsum_repeat. apply CplxFacts.mul_one_r.
      - intros i Hi. apply in_seq in Hi. rewrite entry_eye by lia.
        rewrite Nat.eqb_refl. reflexivity. }
    assert (Hn' : (0 < n)%nat) by (unfold n; lia).
    eexists. eexists. split; [reflexivity|]. cbn [_matrix].
    split; [rewrite Htr; f_equal; unfold n; lia|].
    assert (Hh : hermitian n (Np.eye n)).
    { intros i j Hi Hj. rewrite !entry_eye by assumption.
      rewrite CplxFacts.mul_one_l, (Nat.eqb_sym j i).
      destruct (Nat.eqb i j); apply conj_real; reflexivity. }
    assert (Hne : Np.trace (Np.eye n) <> Cplx.zero).
    { rewrite Htr. apply complex_of_Z_ne_0, Hn'. }
    assert (Hp : Np.prod [Z.of_nat n] = Z.of_nat n) by (cbn; lia).
    rewrite (@DensityOperator_init_twisted (Q2Qc 1) n (Np.eye n) None
               (has_shape_eye n) Hn' I Hh).
    + split; [reflexivity|]. cbn [_matrix]. rewrite Htr.
      apply (@matrix_ext n n).
      * apply has_shape_divide, has_shape_eye.
      * replace n with (length (uniform n) + 0)%nat at 1 2
          by (unfold uniform; rewrite repeat_length; lia).
        apply has_shape_diag_k.
      * intros i j Hi Hj. unfold Np.divide.
        rewrite (@entry_map_map _ n n _ i j (has_shape_eye n) Hi Hj).
        rewrite entry_eye by assumption.
        rewrite entry_diag_k_0 by (unfold uniform; rewrite repeat_length; assumption).
        rewrite (Nat.eqb_sym j i). destruct (Nat.eqb i j); [|apply div_zero_l].
        unfold uniform. rewrite nth_repeat_lt by exact Hi. reflexivity.
    + intros E. apply (f_equal Qcanon.this) in E. discriminate E.
    + exact Hne.
Qed.

(** ** Witnesses *)

Ltac shape := split; [reflexivity | repeat constructor].

Lemma Operator_init_outcomes_witness :
  Operator_init ClsOperator Inputs.rho_y None
  = Ok (mkOperator ClsOperator [2%Z] Inputs.rho_y).
Proof.
  refine (proj1 (proj1 (proj2 (Operator_init_outcomes ClsOperator 2 2 Inputs.rho_y _ _))
                   eq_refl)).
  - shape.
  - lia.
Defined.

Lemma Operator_eq_equivalence_witness :
  Operator_eq Samples.sx (PyOp Samples.sz) = Operator_eq Samples.sz (PyOp Samples.sx).
Proof.
  exact (proj1 (proj2 (proj2 (Operator_eq_equivalence Samples.sx Samples.sz Samples.rho
                                eq_refl eq_refl eq_refl)))).
Defined.

Lemma Operator_add_commutes_and_sub_inverts_witness :
  exists s : Operator,
    Operator_add Samples.sx (PyOp Samples.sz) = Ok s
    /\ Operator_sub s (PyOp Samples.sz) = Ok Samples.sx.
Proof.
  destruct (Operator_add_commutes_and_sub_inverts Samples.sx Samples.sz
              eq_refl eq_refl eq_refl) as [s [t [H1 [_ [_ [_ [_ [_ [H2 _]]]]]]]]].
  exists s. split; assumption.
Defined.

Lemma Operator_mul_associates_and_distributes_witness :
  exists ab bc abc : Operator,
    Operator_mul Samples.sx (PyOp Samples.sz) = Ok ab
    /\ Operator_mul Samples.sz (PyOp Samples.sx) = Ok bc
    /\ Operator_mul ab (PyOp Samples.sx) = Ok abc
    /\ Operator_mul Samples.sx (PyOp bc) = Ok abc.
Proof.
  destruct (Operator_mul_associates_and_distributes Samples.sx Samples.sz Samples.sx
              eq_refl eq_refl eq_refl eq_refl eq_refl)
    as [ab [bc [ac [abc [s [l [H1 [H2 [_ [H4 [H5 _]]]]]]]]]]].
  exists ab, bc, abc. repeat split; assumption.
Defined.

Lemma Operator_truediv_inverts_mul_witness :
  exists q : Operator,
    Operator_truediv Samples.sx (PyNum (Inputs.i 2 1)) = Returns q
    /\ Operator_mul q (PyNum (Inputs.i 2 1)) = Ok Samples.sx.
Proof.
  refine (proj1 (proj2 (Operator_truediv_inverts_mul Samples.sx (Inputs.i 2 1) _))).
  intros H. apply (f_equal Cplx.im) in H. apply (f_equal Qcanon.this) in H.
  vm_compute in H. discriminate H.
Defined.


Lemma basis_change_outcomes_witness :
  exists r : Operator,
    basis_change Samples.rho Samples.column_basis = Returns r
    /\ _dim r = [2%Z] /\ has_shape 1 1 (_matrix r).
Proof.
  assert (Hb : has_shape (length Samples.column_basis) 1 Samples.column_basis) by shape.
  destruct (proj1 (proj2 (basis_change_outcomes Samples.rho 1 Samples.column_basis
                            eq_refl (Nat.lt_0_succ 1) Hb (Nat.lt_0_succ 0))) eq_refl)
    as [r [H1 [_ [H2 [_ [H3 _]]]]]].
  exists r. split; [exact H1|]. split; [exact H2 | exact H3].
Defined.

Lemma basis_change_keeps_density_matrices_witness :
  exists r : Operator,
    basis_change Samples.rho Samples.swap = Returns r
    /\ Np.trace (_matrix r) = Np.trace (_matrix Samples.rho).
Proof.
  destruct (basis_change_keeps_density_matrices Samples.rho Samples.swap
              eq_refl (Nat.lt_0_succ 1)) as [r [H1 [H2 _]]].
  - shape.
  - apply all_eq_eq. vm_compute. reflexivity.
  - exists r. split; assumption.
Defined.

Lemma basis_change_composes_witness :
  exists r1 : Operator,
    basis_change Samples.rho Samples.swap = Returns r1
    /\ basis_change r1 Samples.swap
       = basis_change Samples.rho (Np.dot Samples.swap Samples.swap).
Proof.
  apply (basis_change_composes Samples.rho Samples.swap Samples.swap
           eq_refl (Nat.lt_0_succ 1)); shape.
Defined.

Lemma from_axes_Is_round_trip_witness : Is Samples.sz = [Py.half].
Proof.
  refine (proj1 (from_axes_Is_round_trip Standin.sqrt [Py.half] ["z"%string]
                   Samples.sz _)).
  unfold Samples.sz. run_operator.
Defined.


Lemma from_axes_zeros_is_the_identity_witness :
  exists e : Operator,
    from_axes Standin.sqrt [half_integer 1] ["0"%string] = Ok e
    /\ Operator_mul Samples.rho (PyOp e) = Ok Samples.rho
    /\ expectation Samples.rho (PyOp e) = Ok (Np.trace (_matrix Samples.rho)).
Proof.
  destruct (from_axes_zeros_is_the_identity Standin.sqrt [half_integer 1] Samples.rho)
    as [e [H1 [_ [_ [_ [H2 [_ H3]]]]]]].
  - discriminate.
  - constructor; [exists 1%positive; reflexivity | constructor].
  - reflexivity.
  - vm_compute. reflexivity.
  - exists e. repeat split; assumption.
Defined.

Lemma spin_operators_are_traceless_witness :
  exists S : Operator,
    from_axes1 Standin.sqrt (half_integer 1) "x" = Ok S
    /\ Np.trace (_matrix S) = Cplx.zero
    /\ DensityOperator_init (_matrix S) None = Raise ZeroTrace.
Proof.
  refine (proj1 (spin_operators_are_traceless Standin.sqrt 1%positive "x"%string _)).
  cbn. tauto.
Defined.


Lemma DensityOperator_init_refusals_witness :
  DensityOperator_init (_matrix Samples.sx) None = Raise ZeroTrace
  /\ DensityOperator_init [[Inputs.r 1 1; Inputs.r 1 1]; [Inputs.r 0 1; Inputs.r 1 1]] None
     = Raise NonHermitian.
Proof.
  split.
  - refine (proj1 (DensityOperator_init_refusals 2 (_matrix Samples.sx) None _ _ I) _).
    + shape.
    + lia.
    + apply CplxFacts.eqb_eq. vm_compute. reflexivity.
  - refine (proj1 (proj2 (DensityOperator_init_refusals 2
              [[Inputs.r 1 1; Inputs.r 1 1]; [Inputs.r 0 1; Inputs.r 1 1]] None _ _ I))
              _ _ _).
    + shape.
    + lia.
    + intros H. apply (f_equal Cplx.re) in H. apply (f_equal Qcanon.this) in H.
      vm_compute in H. discriminate H.
    + apply Qc_is_canon. vm_compute. reflexivity.
    + intros H. specialize (H 0%nat 1%nat (Nat.lt_0_succ 1) (Nat.lt_succ_diag_r 1)).
      apply (f_equal Cplx.re) in H. apply (f_equal Qcanon.this) in H.
      vm_compute in H. discriminate H.
Defined.

Lemma DensityOperator_init_scale_invariant_witness :
  DensityOperator_init (Np.scale Inputs.rho_y (Inputs.i 1 1)) None
  = DensityOperator_init Inputs.rho_y None.
Proof.
  apply DensityOperator_init_scale_invariant.
  intros H. apply (f_equal Cplx.im) in H. apply (f_equal Qcanon.this) in H.
  vm_compute in H. discriminate H.
Defined.

Lemma from_vectors_returns_a_density_matrix_witness :
  let rho := mkOperator ClsDensityOperator [2%Z]
               [[Inputs.r 1 1; Inputs.r 0 1]; [Inputs.r 0 1; Inputs.r 0 1]] in
  well_formed rho = true /\ is_hermitian rho = true /\ trace rho = Cplx.one
  /\ Is rho = [Py.half].
Proof.
  intros rho.
  destruct (from_vectors_returns_a_density_matrix Standin.sqrt Standin.eigh
              [Py.half] [[Q2Qc 0; Q2Qc 0; Q2Qc 1]] [Q2Qc 0] rho)
    as [_ [H1 [H2 [H3 [H4 _]]]]].
  - unfold rho. run_operator.
  - repeat split; assumption.
Defined.

Lemma from_vectors_full_decoherence_witness :
  entry [[Inputs.r 1 1; Inputs.r 0 1]; [Inputs.r 0 1; Inputs.r 0 1]] 0 1 = Cplx.zero.
Proof.
  refine (from_vectors_full_decoherence Standin.sqrt Standin.eigh Py.half
            [Q2Qc 0; Q2Qc 0; Q2Qc 1]
            (mkOperator ClsDensityOperator [2%Z]
               [[Inputs.r 1 1; Inputs.r 0 1]; [Inputs.r 0 1; Inputs.r 0 1]])
            _ 0%nat 1%nat _).
  - run_operator.
  - discriminate.
Defined.

Lemma partial_trace_over_nothing_witness :
  partial_trace Samples.rho_pair []
  = Ok (mkOperator ClsDensityOperator [2; 2]%Z Inputs.rho_x_mixed).
Proof.
  apply (partial_trace_over_nothing Samples.rho_pair).
  - reflexivity.
  - discriminate.
  - repeat constructor.
Defined.

Lemma partial_trace_bad_indices_witness :
  partial_trace Samples.rho_pair [2%Z] = Raise AxisError
  /\ partial_trace Samples.rho_pair [0; 0]%Z = Raise AxisError.
Proof.
  assert (Hpos : Forall (fun d => (0 < d)%Z) (_dim Samples.rho_pair))
    by (repeat constructor).
  split.
  - apply (proj1 (partial_trace_bad_indices Samples.rho_pair [2%Z] eq_refl Hpos) 2%Z).
    + left. reflexivity.
    + left. cbn. lia.
  - apply (proj1 (proj2 (partial_trace_bad_indices Samples.rho_pair [0; 0]%Z
                           eq_refl Hpos))).
    + repeat constructor; cbn; lia.
    + intros H. inversion H as [|x l Hin _]. apply Hin. left. reflexivity.
Defined.

Lemma partial_trace_adds_all_blocks_witness :
  exists ans : Operator,
    partial_trace Samples.rho_pair [0%Z] = Ok ans
    /\ _dim ans = [2%Z] /\ has_shape 2 2 (_matrix ans).
Proof.
  destruct (proj1 (partial_trace_adds_all_blocks Samples.rho_pair 2 2
                     eq_refl eq_refl eq_refl eq_refl))
    as [ans [H1 [_ [H2 [H3 _]]]]].
  exists ans. split; [exact H1|]. split; [exact H2 | exact H3].
Defined.

Lemma partial_trace_of_a_product_witness :
  exists ab r0 : Operator,
    Operator_kron Samples.rho (PyOp Samples.rho) = Ok ab
    /\ partial_trace ab [0%Z] = Ok r0
    /\ _matrix r0 = Np.lscale (Np.sum (_matrix Samples.rho)) (_matrix Samples.rho).
Proof.
  destruct (partial_trace_of_a_product Samples.rho Samples.rho 2 2
              eq_refl eq_refl eq_refl eq_refl eq_refl eq_refl)
    as [ab [r0 [r1 [H1 [H2 [_ [H3 _]]]]]]].
  exists ab, r0. split; [exact H1|]. split; [exact H2 | exact H3].
Defined.

Lemma expectation_of_hermitian_is_real_witness :
  exists z : C, expectation Samples.rho (PyOp Samples.sx) = Ok z /\ is_real z.
Proof.
  apply (expectation_of_hermitian_is_real Samples.rho Samples.sx);
    try reflexivity; apply all_eq_eq; vm_compute; reflexivity.
Defined.

Lemma expectation_is_linear_witness :
  exists (ea eb : C) (s : Operator),
    expectation Samples.rho (PyOp Samples.sx) = Ok ea
    /\ expectation Samples.rho (PyOp Samples.sz) = Ok eb
    /\ Operator_add Samples.sx (PyOp Samples.sz) = Ok s
    /\ expectation Samples.rho (PyOp s) = Ok (Cplx.add ea eb).
Proof.
  destruct (expectation_is_linear Samples.rho Samples.sx Samples.sz (Inputs.i 1 1)
              eq_refl eq_refl eq_refl eq_refl eq_refl eq_refl eq_refl)
    as [ea [eb [s [ax [H1 [H2 [H3 [H4 _]]]]]]]].
  exists ea, eb, s. repeat split; assumption.
Defined.

Lemma make_rotmat_is_a_rotation_witness :
  det3 (_make_rotmat Samples.cos Samples.sin (Q2Qc 1) (Q2Qc 2)) = Q2Qc 1.
Proof.
  refine (proj1 (proj2 (proj2
            (make_rotmat_is_a_rotation Samples.cos Samples.sin (Q2Qc 1) (Q2Qc 2) _ _))));
    apply Qc_is_canon; vm_compute; reflexivity.
Defined.

Lemma thermal_state_at_zero_field_witness :
  thermal_state Standin.sqrt Standin.cexp Inputs.cnst_h Inputs.cnst_k
                (half_integer 1) (Q2Qc (1355388 # 10000)) (Q2Qc 0) (TFinite (Q2Qc 1))
  = Ok (mkOperator ClsDensityOperator [2%Z] (Np.diag_k (uniform 2) 0)).
Proof.
  exact (proj1 (thermal_state_at_zero_field Standin.sqrt Standin.cexp
                  Inputs.cnst_h Inputs.cnst_k 1%positive (Q2Qc (1355388 # 10000))
                  (Q2Qc 0) (TFinite (Q2Qc 1)) standin_cexp_zero)).
Defined.

(** The state an experiment is left in is read off the density matrix the
    call has built. *)
Lemma set_starting_state_of_rho0 (sqrt : Qc -> Qc) (eigh : matrix -> rvector * matrix)
  (cexp : C -> C) (cnst_h cnst_k : Qc) (Hamiltonian : Type)
  (self : MuonExperiment Hamiltonian) (muon_axis : axis_arg) (T : temperature)
  (rho0 : Operator) :
  (st <- set_starting_state sqrt eigh cexp cnst_h cnst_k self muon_axis T ;;
   Ok (_rho0 st)) = Ok rho0 ->
  set_starting_state sqrt eigh cexp cnst_h cnst_k self muon_axis T
  = Ok (mkExperiment (_spin_system self) (_orientations self) (_weights self)
                     (_Hz self) (_B self) rho0).
Proof.
  unfold set_starting_state.
  destruct (resolve_muon_axis sqrt muon_axis) as [axis|e]; [|discriminate].
  cbn [bind].
  destruct (starting_states _ _ _ _ _ _ _ _ _ _ _) as [[|r0 rest]|e];
    cbn [bind]; try discriminate.
  destruct (kron_states r0 rest) as [rho|e]; cbn [bind _rho0]; [|discriminate].
  intros H. injection H as ->. reflexivity.
Qed.

Lemma set_starting_state_sets_a_density_matrix_witness :
  let rho0 := mkOperator ClsDensityOperator [2; 2]%Z
                [[Inputs.r 1 2; Inputs.r 0 1; Inputs.r 0 1; Inputs.r 0 1];
                 [Inputs.r 0 1; Inputs.r 0 1; Inputs.r 0 1; Inputs.r 0 1];
                 [Inputs.r 0 1; Inputs.r 0 1; Inputs.r 1 2; Inputs.r 0 1];
                 [Inputs.r 0 1; Inputs.r 0 1; Inputs.r 0 1; Inputs.r 0 1]] in
  well_formed rho0 = true /\ is_hermitian rho0 = true /\ trace rho0 = Cplx.one.
Proof.
  intros rho0.
  destruct (set_starting_state_sets_a_density_matrix Standin.sqrt Standin.eigh
              Standin.cexp Inputs.cnst_h Inputs.cnst_k unit
              (Inputs.experiment (Q2Qc 0))
              (mkExperiment Inputs.electron_muon [(Q2Qc 0, Q2Qc 0)] [Q2Qc 1] tt (Q2Qc 0)
                            rho0)
              (AxisStr "z") TPosInf)
    as [_ [H1 [H2 [H3 _]]]].
  - apply (set_starting_state_of_rho0 Standin.sqrt Standin.eigh Standin.cexp
             Inputs.cnst_h Inputs.cnst_k unit (Inputs.experiment (Q2Qc 0))
             (AxisStr "z") TPosInf rho0).
    unfold rho0. run_operator.
  - repeat split; assumption.
Defined.

Lemma from_axes_axis_labels_witness :
  from_axes Standin.sqrt [half_integer 1] ["q"%string] = Raise (InvalidSpinAxis "q").
Proof.
  exact (proj1 (proj1 (proj2 (from_axes_axis_labels Standin.sqrt 1%positive "q"%string))
                  eq_refl)).
Defined.

Lemma from_vectors_refusals_witness :
  from_vectors1 Standin.sqrt Standin.eigh Py.half [Q2Qc 0; Q2Qc 0; Q2Qc 1] (Q2Qc 2)
  = Raise InvalidGamma.
Proof.
  refine (proj1 (proj2 (proj2 (from_vectors_refusals Standin.sqrt Standin.eigh Py.half
                                 [Q2Qc 0; Q2Qc 0; Q2Qc 1] (Q2Qc 2)))) _ eq_refl _).
  - exists 1%positive. apply half_is_half_integer.
  - right. reflexivity.
Defined.


(** * Binary64: where the rounding decides *)

Module Binary64.

Import PrimFloat.
Local Open Scope float_scope.

(** The claim C8 as the specification words it fails on the numbers the
    program computes with: for the 1 x 1 Operators 0.1, 0.2 and 0.3 the
    two bracketings have the dimension tuple (1, 1, 1) and the matrices
    [[0.006000000000000001]] and [[0.006]], and [==] returns [False]. *)
Lemma kron_is_not_associative :
  let A := F64.mkOperator ClsOperator [1%Z] [[F64.of_float F64.tenth]] in
  let B := F64.mkOperator ClsOperator [1%Z] [[F64.of_float F64.fifth]] in
  let D := F64.mkOperator ClsOperator [1%Z] [[F64.of_float F64.three_tenths]] in
  let L := F64.Operator_kron (F64.Operator_kron A B) D in
  let R := F64.Operator_kron A (F64.Operator_kron B D) in
  F64._dim L = [1; 1; 1]%Z
  /\ F64._dim R = [1; 1; 1]%Z
  /\ F64._matrix L = [[F64.of_float 0x1.89374bc6a7efbp-8]]
  /\ F64._matrix R = [[F64.of_float 0x1.89374bc6a7efap-8]]
  /\ F64.Operator_eq L R = false.
Proof. intros A B D L R. repeat split; vm_compute; reflexivity. Qed.


(** What the normalisation step of [set_starting_state] makes of the
    weights [inf] and [0], which [np.exp] returns when it overflows for
    one of two levels: their sum is [inf], the quotient [inf/inf] is
    [nan], and [nan] is not [==] to itself. *)
Lemma overflowed_weights_are_not_numbers :
  let Z := [F64.mkc infinity 0; F64.mkc 0 0] in
  F64.sum Z = F64.mkc infinity 0
  /\ map (fun z => F64.div z (F64.sum Z)) Z = [F64.mkc nan nan; F64.mkc 0 0]
  /\ F64.eqb (F64.mkc nan nan) (F64.mkc nan nan) = false.
Proof. intros Z. repeat split; vm_compute; reflexivity. Qed.

(** An Operator that holds a [nan] is not [==] to itself. *)
Lemma nan_operator_is_not_equal_to_itself :
  let a := F64.mkOperator ClsOperator [1%Z] [[F64.mkc nan 0]] in
  F64.Operator_eq a a = false.
Proof. reflexivity. Qed.

End Binary64.
